(** * Voice assistant front end: session lifecycle, playback scheduling,
      transcript aggregation.

    A shallow embedding of the [App] component (the orchestration file of
    the repository), of [types.ts], of [components/Transcription.tsx] and
    of the choice of colours of [SpatialRing].  The component is a set of event
    handlers over React state, mutable refs and browser resources (timers,
    audio nodes, sessions).  Every handler is a function [App -> App]; what
    the environment supplies (the output device clock, the outcome of a
    connection attempt) is an explicit argument.

    - Times on the output device timeline are seconds, as rationals [Q];
      wall-clock times and timer delays are milliseconds, as [Z].
    - A handler runs as one step: nothing else runs at its [await]s, except
      that React renders at the [await] that follows the update
      [isConnecting: true] of [startSession].
    - A callback made by [useCallback] reads the state of the render that
      created it.  That state is the [Closure] argument of [startSession],
      [handleAutoReconnect], [onerror] and [onclose]; [render] re-creates
      [startSession] as its dependency list says.  State updates of the form
      [setX(prev => ...)] act on the live state.
    - The microphone pipeline set up in [onopen] and the codec module
      [utils/audio-utils] are outside this development: the first does not
      touch the state, the second is not among the sources, and a decoded
      buffer is represented by its duration. *)

From Stdlib Require Import QArith Qminmax Lqa.
From stdpp Require Import base list gmap sets strings pretty.

Local Open Scope list_scope.

(** ** Data model *)

(** [types.ts]: interface VoiceState. *)
Record VoiceState := mkVoiceState {
  isListening : bool;
  isSpeaking : bool;
  isConnected : bool;
  isConnecting : bool
}.

(** [types.ts]: enum AssistantVoice. *)
Inductive AssistantVoice := ZEPHYR | PUCK | CHARON | KORE | FENRIR.

Inductive Role := user | assistant.

(** interface TranscriptionEntry. *)
Record TranscriptionEntry := mkEntry {
  entry_id : string;
  role : Role;
  text : string
}.

(** The values of one render that the callbacks created in that render
    close over.  [startSession] is re-created by [useCallback] only when
    [voiceState.isConnected] or [voiceState.isConnecting] changed; it and
    the [handleAutoReconnect] of the same render read these four values,
    not the live state. *)
Record Closure := mkClosure {
  cl_isConnected : bool;
  cl_isConnecting : bool;
  cl_hasInteracted : bool;
  cl_needsApiKey : bool
}.

(** What a pending [window.setTimeout] callback does when it fires:
    [() => setErrorMessage(null)] or [() => startSession()]. *)
Inductive TimerAction :=
  | ClearErrorMessage
  | Reconnect (cl : Closure).

Record Timer := mkTimer {
  timer_id : nat;
  timer_due : Z;
  timer_action : TimerAction
}.

(** One [sourceNode.start(when)] call: the node, the start time on the
    output timeline and the duration of its buffer. *)
Record Segment := mkSegment {
  seg_node : nat;
  seg_start : Q;
  seg_duration : Q
}.

(** The [useState] cells. *)
Record ReactState := mkReactState {
  voiceState : VoiceState;
  transcriptionHistory : list TranscriptionEntry;
  currentUserText : string;
  currentAssistantText : string;
  errorMessage : option string;
  hasInteracted : bool;
  needsApiKey : bool
}.

(** The [useRef] cells.  Sessions, audio contexts and source nodes are
    identified by numbers. *)
Record Refs := mkRefs {
  sessionRef : option nat;
  audioContextsRef : option nat;
  nextStartTimeRef : Q;
  sourcesRef : gset nat;
  reconnectTimeoutRef : option nat;
  errorTimeoutRef : option nat;
  userTextRef : string;
  assistantTextRef : string
}.

(** The browser side: pending timers, the wall clock, fresh identifiers,
    and the record of the calls made on external objects. *)
Record Browser := mkBrowser {
  timers : list Timer;
  now : Z;
  nextTimerId : nat;
  nextSessionId : nat;
  nextContextId : nat;
  nextNodeId : nat;
  callbacks : list (nat * Closure);
  scheduled : list Segment;
  stopped : gset nat;
  closedSessions : list nat;
  closedContexts : list nat
}.

Record App := mkApp {
  state : ReactState;
  refs : Refs;
  browser : Browser;
  memo : Closure
}.

(** ** Field updates *)

Definition with_state (f : ReactState -> ReactState) (a : App) : App :=
  mkApp (f (state a)) (refs a) (browser a) (memo a).
Definition with_refs (f : Refs -> Refs) (a : App) : App :=
  mkApp (state a) (f (refs a)) (browser a) (memo a).
Definition with_browser (f : Browser -> Browser) (a : App) : App :=
  mkApp (state a) (refs a) (f (browser a)) (memo a).

Definition setVoiceState (f : VoiceState -> VoiceState) : App -> App :=
  with_state (fun s => mkReactState (f (voiceState s)) (transcriptionHistory s)
    (currentUserText s) (currentAssistantText s) (errorMessage s)
    (hasInteracted s) (needsApiKey s)).
Definition setTranscriptionHistory
    (f : list TranscriptionEntry -> list TranscriptionEntry) : App -> App :=
  with_state (fun s => mkReactState (voiceState s) (f (transcriptionHistory s))
    (currentUserText s) (currentAssistantText s) (errorMessage s)
    (hasInteracted s) (needsApiKey s)).
Definition setCurrentUserText (v : string) : App -> App :=
  with_state (fun s => mkReactState (voiceState s) (transcriptionHistory s)
    v (currentAssistantText s) (errorMessage s)
    (hasInteracted s) (needsApiKey s)).
Definition setCurrentAssistantText (v : string) : App -> App :=
  with_state (fun s => mkReactState (voiceState s) (transcriptionHistory s)
    (currentUserText s) v (errorMessage s)
    (hasInteracted s) (needsApiKey s)).
Definition setErrorMessage (v : option string) : App -> App :=
  with_state (fun s => mkReactState (voiceState s) (transcriptionHistory s)
    (currentUserText s) (currentAssistantText s) v
    (hasInteracted s) (needsApiKey s)).
Definition setHasInteracted (v : bool) : App -> App :=
  with_state (fun s => mkReactState (voiceState s) (transcriptionHistory s)
    (currentUserText s) (currentAssistantText s) (errorMessage s)
    v (needsApiKey s)).
Definition setNeedsApiKey (v : bool) : App -> App :=
  with_state (fun s => mkReactState (voiceState s) (transcriptionHistory s)
    (currentUserText s) (currentAssistantText s) (errorMessage s)
    (hasInteracted s) v).

Definition set_sessionRef (v : option nat) : App -> App :=
  with_refs (fun r => mkRefs v (audioContextsRef r) (nextStartTimeRef r)
    (sourcesRef r) (reconnectTimeoutRef r) (errorTimeoutRef r)
    (userTextRef r) (assistantTextRef r)).
Definition set_audioContextsRef (v : option nat) : App -> App :=
  with_refs (fun r => mkRefs (sessionRef r) v (nextStartTimeRef r)
    (sourcesRef r) (reconnectTimeoutRef r) (errorTimeoutRef r)
    (userTextRef r) (assistantTextRef r)).
Definition set_nextStartTimeRef (v : Q) : App -> App :=
  with_refs (fun r => mkRefs (sessionRef r) (audioContextsRef r) v
    (sourcesRef r) (reconnectTimeoutRef r) (errorTimeoutRef r)
    (userTextRef r) (assistantTextRef r)).
Definition set_sourcesRef (v : gset nat) : App -> App :=
  with_refs (fun r => mkRefs (sessionRef r) (audioContextsRef r)
    (nextStartTimeRef r) v (reconnectTimeoutRef r) (errorTimeoutRef r)
    (userTextRef r) (assistantTextRef r)).
Definition set_reconnectTimeoutRef (v : option nat) : App -> App :=
  with_refs (fun r => mkRefs (sessionRef r) (audioContextsRef r)
    (nextStartTimeRef r) (sourcesRef r) v (errorTimeoutRef r)
    (userTextRef r) (assistantTextRef r)).
Definition set_errorTimeoutRef (v : option nat) : App -> App :=
  with_refs (fun r => mkRefs (sessionRef r) (audioContextsRef r)
    (nextStartTimeRef r) (sourcesRef r) (reconnectTimeoutRef r) v
    (userTextRef r) (assistantTextRef r)).
Definition set_userTextRef (v : string) : App -> App :=
  with_refs (fun r => mkRefs (sessionRef r) (audioContextsRef r)
    (nextStartTimeRef r) (sourcesRef r) (reconnectTimeoutRef r)
    (errorTimeoutRef r) v (assistantTextRef r)).
Definition set_assistantTextRef (v : string) : App -> App :=
  with_refs (fun r => mkRefs (sessionRef r) (audioContextsRef r)
    (nextStartTimeRef r) (sourcesRef r) (reconnectTimeoutRef r)
    (errorTimeoutRef r) (userTextRef r) v).

Definition set_timers (v : list Timer) (b : Browser) : Browser :=
  mkBrowser v (now b) (nextTimerId b) (nextSessionId b) (nextContextId b)
    (nextNodeId b) (callbacks b) (scheduled b) (stopped b)
    (closedSessions b) (closedContexts b).
Definition set_now (v : Z) (b : Browser) : Browser :=
  mkBrowser (timers b) v (nextTimerId b) (nextSessionId b) (nextContextId b)
    (nextNodeId b) (callbacks b) (scheduled b) (stopped b)
    (closedSessions b) (closedContexts b).
Definition set_nextTimerId (v : nat) (b : Browser) : Browser :=
  mkBrowser (timers b) (now b) v (nextSessionId b) (nextContextId b)
    (nextNodeId b) (callbacks b) (scheduled b) (stopped b)
    (closedSessions b) (closedContexts b).
Definition set_nextSessionId (v : nat) (b : Browser) : Browser :=
  mkBrowser (timers b) (now b) (nextTimerId b) v (nextContextId b)
    (nextNodeId b) (callbacks b) (scheduled b) (stopped b)
    (closedSessions b) (closedContexts b).
Definition set_nextContextId (v : nat) (b : Browser) : Browser :=
  mkBrowser (timers b) (now b) (nextTimerId b) (nextSessionId b) v
    (nextNodeId b) (callbacks b) (scheduled b) (stopped b)
    (closedSessions b) (closedContexts b).
Definition set_nextNodeId (v : nat) (b : Browser) : Browser :=
  mkBrowser (timers b) (now b) (nextTimerId b) (nextSessionId b)
    (nextContextId b) v (callbacks b) (scheduled b) (stopped b)
    (closedSessions b) (closedContexts b).
Definition set_callbacks (v : list (nat * Closure)) (b : Browser) : Browser :=
  mkBrowser (timers b) (now b) (nextTimerId b) (nextSessionId b)
    (nextContextId b) (nextNodeId b) v (scheduled b) (stopped b)
    (closedSessions b) (closedContexts b).
Definition set_scheduled (v : list Segment) (b : Browser) : Browser :=
  mkBrowser (timers b) (now b) (nextTimerId b) (nextSessionId b)
    (nextContextId b) (nextNodeId b) (callbacks b) v (stopped b)
    (closedSessions b) (closedContexts b).
Definition set_stopped (v : gset nat) (b : Browser) : Browser :=
  mkBrowser (timers b) (now b) (nextTimerId b) (nextSessionId b)
    (nextContextId b) (nextNodeId b) (callbacks b) (scheduled b) v
    (closedSessions b) (closedContexts b).
Definition set_closedSessions (v : list nat) (b : Browser) : Browser :=
  mkBrowser (timers b) (now b) (nextTimerId b) (nextSessionId b)
    (nextContextId b) (nextNodeId b) (callbacks b) (scheduled b) (stopped b)
    v (closedContexts b).
Definition set_closedContexts (v : list nat) (b : Browser) : Browser :=
  mkBrowser (timers b) (now b) (nextTimerId b) (nextSessionId b)
    (nextContextId b) (nextNodeId b) (callbacks b) (scheduled b) (stopped b)
    (closedSessions b) v.

(** ** Browser primitives *)

(** Truthiness of a [number | null] ref: [null] and [0] are falsy. *)
Definition truthy (r : option nat) : bool :=
  match r with
  | Some n => negb (n =? 0)%nat
  | None => false
  end.

Definition clearTimeout (id : nat) (b : Browser) : Browser :=
  set_timers (filter (fun t => timer_id t <> id) (timers b)) b.

(** [if (ref.current) clearTimeout(ref.current)]. *)
Definition clearIfSet (r : option nat) (a : App) : App :=
  match r with
  | Some id => if truthy r then with_browser (clearTimeout id) a else a
  | None => a
  end.

(** [window.setTimeout(callback, delay)]: a fresh positive handle. *)
Definition setTimeout (act : TimerAction) (delay : Z) (a : App) : nat * App :=
  let b := browser a in
  let id := nextTimerId b in
  (id, with_browser (fun b =>
         set_nextTimerId (S id)
           (set_timers (timers b ++ [mkTimer id (now b + delay) act]) b)) a).

Definition ERROR_TIMEOUT : Z := 8000.
Definition RECONNECT_DELAY : Z := 5000.

(** The timers whose callback is [() => startSession()]. *)
Definition isReconnect (t : Timer) : bool :=
  match timer_action t with
  | Reconnect _ => true
  | ClearErrorMessage => false
  end.

Definition pendingReconnects (a : App) : list Timer :=
  filter (fun t => isReconnect t = true) (timers (browser a)).

(** ** Rendering *)

Definition snapshot (a : App) : Closure :=
  mkClosure (isConnected (voiceState (state a)))
            (isConnecting (voiceState (state a)))
            (hasInteracted (state a))
            (needsApiKey (state a)).

(** A render re-creates [startSession] (and with it the
    [handleAutoReconnect] it calls) exactly when one of the two booleans
    of its dependency list differs from the previous render. *)
Definition render (a : App) : App :=
  let vs := voiceState (state a) in
  if Bool.eqb (isConnected vs) (cl_isConnected (memo a))
     && Bool.eqb (isConnecting vs) (cl_isConnecting (memo a))
  then a
  else mkApp (state a) (refs a) (browser a) (snapshot a).

(** The user-facing messages. *)
Definition NO_KEY_ERROR : string :=
  "Neural link requires a valid access key. Please configure environment.".
Definition MIC_ERROR : string :=
  "Microphone access is restricted. Enable permissions for link.".
Definition RETRY_ERROR : string :=
  "Connection attempt failed. Retrying...".
Definition KEY_ERROR : string :=
  "Link rejected. Key might be invalid or from unpaid project.".
Definition SYNC_ERROR : string :=
  "Neural bridge sync failure. Attempting recalibration...".
Definition CLOSE_ERROR : string :=
  "Spatial Link unexpectedly terminated.".
Definition KEY_UNAVAILABLE_ERROR : string :=
  "Key management system unavailable in this environment.".

(** ** Handlers *)

Definition showError (msg : string) (a : App) : App :=
  let a := setErrorMessage (Some msg) a in
  let a := clearIfSet (errorTimeoutRef (refs a)) a in
  let '(id, a) := setTimeout ClearErrorMessage ERROR_TIMEOUT a in
  set_errorTimeoutRef (Some id) a.

Definition allFalse : VoiceState := mkVoiceState false false false false.

Definition stopSession (a : App) : App :=
  let a :=
    match sessionRef (refs a) with
    | Some s =>
        set_sessionRef None
          (with_browser (fun b => set_closedSessions (closedSessions b ++ [s]) b) a)
    | None => a
    end in
  let a := setVoiceState (fun _ => allFalse) a in
  let a :=
    match audioContextsRef (refs a) with
    | Some c =>
        set_audioContextsRef None
          (with_browser (fun b => set_closedContexts (closedContexts b ++ [c]) b) a)
    | None => a
    end in
  let a := with_browser (fun b => set_stopped (stopped b ∪ sourcesRef (refs a)) b) a in
  set_sourcesRef ∅ a.

Definition handleAutoReconnect (cl : Closure) (a : App) : App :=
  let a := clearIfSet (reconnectTimeoutRef (refs a)) a in
  let a := stopSession a in
  if cl_hasInteracted cl && negb (cl_needsApiKey cl) then
    let '(id, a) := setTimeout (Reconnect cl) RECONNECT_DELAY a in
    set_reconnectTimeoutRef (Some id) a
  else a.

(** Where the [try] block of [startSession] can throw. *)
Inductive ThrowPoint :=
  | AtKeyCheck     (* aistudio.hasSelectedApiKey() rejects *)
  | AtAudioSetup   (* new AudioContext(...) throws *)
  | AtResume       (* inputCtx.resume() or outputCtx.resume() rejects *)
  | AtConnect.     (* ai.live.connect throws *)

(** What the environment answers to one connection attempt. *)
Inductive StartOutcome :=
  | KeyNotSelected      (* aistudio is present and reports no selected key *)
  | ApiKeyMissing       (* process.env.API_KEY is empty *)
  | MicrophoneDenied    (* getUserMedia rejects *)
  | Connecting          (* ai.live.connect returned the session promise *)
  | Threw (p : ThrowPoint).

Definition notConnecting (prev : VoiceState) : VoiceState :=
  mkVoiceState (isListening prev) (isSpeaking prev) (isConnected prev) false.

Definition connecting (prev : VoiceState) : VoiceState :=
  mkVoiceState (isListening prev) (isSpeaking prev) (isConnected prev) true.

(** [setVoiceState(prev => ({ ...prev, isConnecting: true }))], followed by
    the [await] of [inputCtx.resume()]: React renders before the attempt
    continues. *)
Definition beginConnecting (a : App) : App :=
  render (setVoiceState connecting a).

(** The two [new AudioContext(...)]: a pair of contexts exists, and is
    not yet held by [audioContextsRef]. *)
Definition createAudioContexts (a : App) : App :=
  with_browser (fun b => set_nextContextId (S (nextContextId b)) b) a.

Definition openAudioContexts (a : App) : App :=
  let c := nextContextId (browser a) in
  set_audioContextsRef (Some c) (with_browser (set_nextContextId (S c)) a).

(** [ai.live.connect({ callbacks, ... })]: the callbacks of the new
    session close over the render of this [startSession]. *)
Definition connect (cl : Closure) (a : App) : App :=
  let s := nextSessionId (browser a) in
  set_sessionRef (Some s)
    (with_browser (fun b =>
       set_nextSessionId (S s) (set_callbacks (callbacks b ++ [(s, cl)]) b)) a).

Definition catchConnectionFailure (cl : Closure) (a : App) : App :=
  handleAutoReconnect cl (showError RETRY_ERROR a).

Definition startSession (cl : Closure) (o : StartOutcome) (a : App) : App :=
  if cl_isConnecting cl || cl_isConnected cl then a else
  let a := setNeedsApiKey false (setHasInteracted true a) in
  match o with
  | KeyNotSelected =>
      setVoiceState notConnecting (setNeedsApiKey true a)
  | ApiKeyMissing =>
      setVoiceState notConnecting
        (showError NO_KEY_ERROR a)
  | Threw AtKeyCheck =>
      catchConnectionFailure cl a
  | Threw AtAudioSetup =>
      (* no [await] since the update: React has not rendered *)
      catchConnectionFailure cl (setVoiceState connecting a)
  | Threw AtResume =>
      catchConnectionFailure cl (createAudioContexts (beginConnecting a))
  | MicrophoneDenied =>
      setVoiceState notConnecting
        (showError MIC_ERROR
           (openAudioContexts (beginConnecting a)))
  | Threw AtConnect =>
      catchConnectionFailure cl (openAudioContexts (beginConnecting a))
  | Connecting =>
      connect cl (openAudioContexts (beginConnecting a))
  end.

(** [handleKeySelection]; [available] is whether
    [window.aistudio.openSelectKey] exists. *)
Definition handleKeySelection (available : bool) (o : StartOutcome) (a : App) : App :=
  if available then startSession (memo a) o (setNeedsApiKey false a)
  else showError KEY_UNAVAILABLE_ERROR a.

Definition WELCOME : string :=
  "Neural link established. Welcome to Horizon OS. I am your spatial assistant.".

(** [Array.prototype.slice(-n)]: the last [n] elements. *)
Definition slice_last {A} (n : nat) (l : list A) : list A :=
  drop (length l - n) l.

Definition onopen (a : App) : App :=
  let a := setVoiceState (fun prev =>
    mkVoiceState true (isSpeaking prev) true false) a in
  let a := setErrorMessage None a in
  setTranscriptionHistory (fun prev =>
    prev ++ [mkEntry ("welcome-" +:+ pretty (now (browser a))) assistant WELCOME]) a.

(** ** Inbound messages *)

(** The inline audio of a message.  [chunk_data] is the base64 text;
    [chunk_duration] is the [duration] of the buffer that
    [decodeAudioData(decode(data), outputCtx, 24000, 1)] resolves to (the
    codec module [utils/audio-utils] is not part of the sources, so the
    decoded duration is carried with the chunk). *)
Record AudioChunk := mkChunk {
  chunk_data : string;
  chunk_duration : Q
}.

(** The part of [LiveServerMessage.serverContent] the handler reads.  A
    transcription object may lack its optional [text]. *)
Record LiveServerMessage := mkMessage {
  outputTranscription : option (option string);
  inputTranscription : option (option string);
  turnComplete : bool;
  inlineData : option AudioChunk;
  interrupted : bool
}.

(** [s += t] for [t : string | undefined]. *)
Definition jsAppend (s : string) (t : option string) : string :=
  s +:+ default "undefined" t.

(** Truthiness of a string: non-empty. *)
Definition nonEmpty (s : string) : bool :=
  match s with
  | EmptyString => false
  | String _ _ => true
  end.

Definition onmessage_transcription (m : LiveServerMessage) (a : App) : App :=
  match outputTranscription m, inputTranscription m with
  | Some t, _ =>
      let a := set_assistantTextRef (jsAppend (assistantTextRef (refs a)) t) a in
      setCurrentAssistantText (assistantTextRef (refs a)) a
  | None, Some t =>
      let a := set_userTextRef (jsAppend (userTextRef (refs a)) t) a in
      setCurrentUserText (userTextRef (refs a)) a
  | None, None => a
  end.

(** The updater passed to [setTranscriptionHistory] on turn completion. *)
Definition pushTurn (stamp : Z) (uText aText : string)
    (prev : list TranscriptionEntry) : list TranscriptionEntry :=
  let newHistory := prev in
  let newHistory :=
    if nonEmpty uText
    then newHistory ++ [mkEntry (pretty stamp +:+ "-u") user uText]
    else newHistory in
  let newHistory :=
    if nonEmpty aText
    then newHistory ++ [mkEntry (pretty stamp +:+ "-a") assistant aText]
    else newHistory in
  slice_last 6 newHistory.

Definition onmessage_turnComplete (a : App) : App :=
  let uText := userTextRef (refs a) in
  let aText := assistantTextRef (refs a) in
  let a := setTranscriptionHistory (pushTurn (now (browser a)) uText aText) a in
  let a := set_userTextRef "" a in
  let a := set_assistantTextRef "" a in
  let a := setCurrentUserText "" a in
  setCurrentAssistantText "" a.

(** The audio branch; [clock] is [outputCtx.currentTime]. *)
Definition onmessage_audio (clock : Q) (c : AudioChunk) (a : App) : App :=
  let a := setVoiceState (fun prev =>
    mkVoiceState (isListening prev) true (isConnected prev) (isConnecting prev)) a in
  let a := set_nextStartTimeRef (Qmax (nextStartTimeRef (refs a)) clock) a in
  let sourceNode := nextNodeId (browser a) in
  let a := with_browser (set_nextNodeId (S sourceNode)) a in
  let a := with_browser (fun b =>
    set_scheduled (scheduled b ++
      [mkSegment sourceNode (nextStartTimeRef (refs a)) (chunk_duration c)]) b) a in
  let a := set_nextStartTimeRef (nextStartTimeRef (refs a) + chunk_duration c)%Q a in
  set_sourcesRef (sourcesRef (refs a) ∪ {[ sourceNode ]}) a.

Definition notSpeaking (prev : VoiceState) : VoiceState :=
  mkVoiceState (isListening prev) false (isConnected prev) (isConnecting prev).

(** The interruption branch. *)
Definition onmessage_interrupted (a : App) : App :=
  let a := with_browser (fun b => set_stopped (stopped b ∪ sourcesRef (refs a)) b) a in
  let a := set_sourcesRef ∅ a in
  let a := set_nextStartTimeRef 0%Q a in
  setVoiceState notSpeaking a.

Definition onmessage (m : LiveServerMessage) (clock : Q) (a : App) : App :=
  let a := onmessage_transcription m a in
  let a := if turnComplete m then onmessage_turnComplete a else a in
  let a :=
    match inlineData m with
    | Some c => if nonEmpty (chunk_data c) then onmessage_audio clock c a else a
    | None => a
    end in
  if interrupted m then onmessage_interrupted a else a.

(** The ['ended'] listener of a source node. *)
Definition onended (sourceNode : nat) (a : App) : App :=
  let a := set_sourcesRef (sourcesRef (refs a) ∖ {[ sourceNode ]}) a in
  if (size (sourcesRef (refs a)) =? 0)%nat then setVoiceState notSpeaking a else a.

(** [String.prototype.includes]. *)
Definition includes (needle hay : string) : bool :=
  match String.index 0 needle hay with
  | Some _ => true
  | None => false
  end.

Definition isKeyError (msg : string) : bool :=
  includes "Requested entity was not found" msg || includes "API_KEY_INVALID" msg.

(** [onerror]; [e] is [e?.message], absent when the event has none. *)
Definition onerror (cl : Closure) (e : option string) (a : App) : App :=
  let msg := default "" e in
  if isKeyError msg then
    stopSession (setNeedsApiKey true
      (showError KEY_ERROR a))
  else
    handleAutoReconnect cl
      (showError SYNC_ERROR a).

Definition onclose (cl : Closure) (wasClean : bool) (a : App) : App :=
  if negb wasClean then
    handleAutoReconnect cl (showError CLOSE_ERROR a)
  else a.

(** The cleanup of the mount effect. *)
Definition cleanup (a : App) : App :=
  let a := stopSession a in
  let a := clearIfSet (reconnectTimeoutRef (refs a)) a in
  clearIfSet (errorTimeoutRef (refs a)) a.

(** ** The component as a transition system *)

Inductive Event :=
  | ClickStart (o : StartOutcome)
  | ClickStop
  | ClickReauthorize (available : bool) (o : StartOutcome)
  | SessionOpen (s : nat)
  | SessionMessage (s : nat) (m : LiveServerMessage) (clock : Q)
  | SessionError (s : nat) (e : option string)
  | SessionClose (s : nat) (wasClean : bool)
  | SourceEnded (sourceNode : nat)
  | TimerFires (id : nat) (o : StartOutcome)
  | TimePasses (dt : Z)
  | Unmount.

(** The closure of the callbacks registered for session [s]. *)
Definition callbackClosure (s : nat) (a : App) : option Closure :=
  (fun p => snd (snd p)) <$> list_find (fun p => fst p = s) (callbacks (browser a)).

(** A due timer leaves the pending list and runs its callback. *)
Definition fire (id : nat) (o : StartOutcome) (a : App) : App :=
  match list_find (fun t => timer_id t = id) (timers (browser a)) with
  | Some (_, t) =>
      if (timer_due t <=? now (browser a))%Z then
        let a := with_browser (clearTimeout id) a in
        match timer_action t with
        | ClearErrorMessage => setErrorMessage None a
        | Reconnect cl => startSession cl o a
        end
      else a
  | None => a
  end.

Definition handle (e : Event) (a : App) : App :=
  match e with
  | ClickStart o => startSession (memo a) o a
  | ClickStop => stopSession a
  | ClickReauthorize available o => handleKeySelection available o a
  | SessionOpen s =>
      match callbackClosure s a with Some _ => onopen a | None => a end
  | SessionMessage s m clock =>
      match callbackClosure s a with Some _ => onmessage m clock a | None => a end
  | SessionError s e =>
      match callbackClosure s a with Some cl => onerror cl e a | None => a end
  | SessionClose s wasClean =>
      match callbackClosure s a with Some cl => onclose cl wasClean a | None => a end
  | SourceEnded n => onended n a
  | TimerFires id o => fire id o a
  | TimePasses dt => with_browser (fun b => set_now (now b + Z.max 0 dt) b) a
  | Unmount => cleanup a
  end.

(** Every event is followed by a render. *)
Definition step (a : App) (e : Event) : App := render (handle e a).

Definition run (es : list Event) (a : App) : App := foldl step a es.

Definition initial : App :=
  mkApp
    (mkReactState allFalse [] "" "" None false false)
    (mkRefs None None 0%Q ∅ None None "" "")
    (mkBrowser [] 0 1 0 0 0 [] [] ∅ [] [])
    (mkClosure false false false false).

(** ** The rendered view *)

(** The control under the visualiser: the start button when neither
    connected nor connecting, the spinner while connecting, the stop button
    otherwise. *)
Inductive ActionControl := EstablishLink | Calibrating | TerminateLink.

Definition actionControl (vs : VoiceState) : ActionControl :=
  if negb (isConnected vs) && negb (isConnecting vs) then EstablishLink
  else if isConnecting vs then Calibrating
  else TerminateLink.

(** The text under "Core Status". *)
Definition coreStatus (vs : VoiceState) : string :=
  if isConnected vs then "SYNCHRONIZED" else "STANDBY".

(** [components/Transcription.tsx]: the props, and what the component
    renders of them: the class of the container and the two optional
    bubbles. *)
Record TranscriptionProps := mkProps {
  userText : string;
  assistantText : string;
  isHistory : bool
}.

Record TranscriptionView := mkView {
  containerClass : string;
  userBubble : option string;
  assistantBubble : option string
}.

Definition Transcription (p : TranscriptionProps) : TranscriptionView :=
  mkView
    (if isHistory p then "opacity-40 scale-95" else "opacity-100 scale-100")
    (if nonEmpty (userText p) then Some (userText p) else None)
    (if nonEmpty (assistantText p) then Some (assistantText p) else None).

(** The props the transcript layer passes for a history entry. *)
Definition historyProps (entry : TranscriptionEntry) : TranscriptionProps :=
  mkProps (match role entry with user => text entry | assistant => "" end)
          (match role entry with assistant => text entry | user => "" end)
          true.

(** The transcript layer: one [Transcription] per history entry, then the
    live preview if one of the two current texts is not empty. *)
Definition transcriptLayer (s : ReactState) : list TranscriptionView :=
  (Transcription ∘ historyProps <$> transcriptionHistory s) ++
  (if nonEmpty (currentUserText s) || nonEmpty (currentAssistantText s)
   then [Transcription (mkProps (currentUserText s) (currentAssistantText s) false)]
   else []).

(** [SpatialRing]: the colours of the ring. *)
Record RingColors := mkColors {
  primary : string;
  secondary : string;
  glow : string
}.

Definition RED : RingColors :=
  mkColors "rgba(239, 68, 68, 1)" "rgba(239, 68, 68, 0.4)" "rgba(239, 68, 68, 0.8)".
Definition GOLDEN : RingColors :=
  mkColors "rgba(255, 215, 0, 1)" "rgba(255, 215, 0, 0.6)" "rgba(255, 215, 0, 0.9)".
Definition BLUE : RingColors :=
  mkColors "rgba(59, 130, 246, 1)" "rgba(59, 130, 246, 0.4)" "rgba(59, 130, 246, 0.7)".

Definition getColors (vs : VoiceState) : RingColors :=
  if negb (isConnected vs) || isConnecting vs then RED
  else if isSpeaking vs then GOLDEN
  else BLUE.

(** * Vocabulary of the properties *)

(** The part of the state the reconnect timers live in. *)
Definition tview (a : App) : list Timer * nat * option nat :=
  (timers (browser a), nextTimerId (browser a), reconnectTimeoutRef (refs a)).

(** Pending handles are positive, below the next fresh handle and pairwise
    distinct, and a pending reconnect timer is the one the ref holds. *)
Definition timers_ok (a : App) : Prop :=
  let '(ts, next, rref) := tview a in
  (0 < next)%nat /\
  (forall t, t ∈ ts -> (0 < timer_id t < next)%nat) /\
  NoDup (timer_id <$> ts) /\
  (forall t, t ∈ ts -> isReconnect t = true -> rref = Some (timer_id t)).

(** The states the component can be in: those some sequence of events
    leads to from the initial state. *)
Definition reachable (a : App) : Prop := exists es, run es initial = a.

(** The chunk a message enqueues, if any ([if (audioData)]). *)
Definition chunkOf (m : LiveServerMessage) : option AudioChunk :=
  match inlineData m with
  | Some c => if nonEmpty (chunk_data c) then Some c else None
  | None => None
  end.

(** A message that enqueues a segment and does not flush. *)
Definition enqueues (m : LiveServerMessage) : Prop :=
  interrupted m = false /\ is_Some (chunkOf m).

(** Deliver messages in order, each with the device clock read on arrival. *)
Definition play (ms : list (LiveServerMessage * Q)) (a : App) : App :=
  foldl (fun a p => onmessage p.1 p.2 a) a ms.

(** The segments scheduled while [ms] was delivered. *)
Definition newSegments (ms : list (LiveServerMessage * Q)) (a : App) : list Segment :=
  drop (length (scheduled (browser a))) (scheduled (browser (play ms a))).

(** The scheduler's part of the state. *)
Definition pview (a : App) : Q * nat * list Segment :=
  (nextStartTimeRef (refs a), nextNodeId (browser a), scheduled (browser a)).

(** The segments that a run of enqueuing messages schedules, starting
    from cursor [cursor] and fresh node [node]. *)
Fixpoint chain (cursor : Q) (node : nat) (ms : list (LiveServerMessage * Q))
  : list Segment :=
  match ms with
  | [] => []
  | (m, clock) :: ms =>
      match chunkOf m with
      | Some c =>
          mkSegment node (Qmax cursor clock) (chunk_duration c)
            :: chain (Qmax cursor clock + chunk_duration c)%Q (S node) ms
      | None => chain cursor node ms
      end
  end.


(** The entries a turn completion appends for accumulators [u] and [t]. *)
Definition turnEntries (stamp : Z) (u t : string) : list TranscriptionEntry :=
  (if nonEmpty u then [mkEntry (pretty stamp +:+ "-u") user u] else []) ++
  (if nonEmpty t then [mkEntry (pretty stamp +:+ "-a") assistant t] else []).

(** The state after a graceful close of the session [a] held. *)
Definition closedFrom (a a' : App) : Prop :=
  sessionRef (refs a') = None /\
  voiceState (state a') = allFalse /\
  (forall s, sessionRef (refs a) = Some s -> s ∈ closedSessions (browser a')).

(** The reconnect timers pending after a transient failure handled with
    closure [cl] in state [a]. *)
Definition oneReconnect (cl : Closure) (a : App) : list Timer :=
  if cl_hasInteracted cl && negb (cl_needsApiKey cl)
  then [mkTimer (S (nextTimerId (browser a)))
                (now (browser a) + RECONNECT_DELAY) (Reconnect cl)]
  else [].

(** The events that deliver an inbound message. *)
Definition isMessage (e : Event) : bool :=
  match e with
  | SessionMessage _ _ _ => true
  | _ => false
  end.

(** A message that carries half a second of audio and nothing else. *)
Definition halfSecond : LiveServerMessage :=
  mkMessage None None false (Some (mkChunk "AAAA" (1 # 2))) false.

(** Two segments are active. *)
Definition twoSourcesActive : App :=
  onmessage halfSecond 0 (onmessage halfSecond 0 initial).

(** The same message twice in immediate succession. *)
Definition twoHalves : list (LiveServerMessage * Q) :=
  [(halfSecond, 1 # 10); (halfSecond, 2 # 10)]%Q.

(** A conversation whose second session fails with a transient error:
    the reconnect timer is pending and the start button is shown. *)
Definition failedSecondSession : list Event :=
  [ClickStart Connecting; SessionOpen 0; ClickStop;
   ClickStart Connecting; SessionOpen 1; SessionError 1 (Some "network")].

(** The user then starts a third session by hand and it opens. *)
Definition manualRestart : list Event :=
  failedSecondSession ++ [ClickStart Connecting; SessionOpen 2].

(** The user stops the third session; five seconds after the failure of
    the second one its reconnect timer fires and the session it starts
    opens. *)
Definition restartedAfterStop : list Event :=
  manualRestart ++
  [ClickStop; TimePasses 5000; TimerFires 2 Connecting; SessionOpen 3].

(** The second session of a conversation is open. *)
Definition secondSessionOpen : list Event :=
  [ClickStart Connecting; SessionOpen 0; ClickStop; ClickStart Connecting; SessionOpen 1].

(** An input transcription fragment; an output transcription fragment
    that also completes the turn. *)
Definition userSays (s : string) : LiveServerMessage :=
  mkMessage None (Some (Some s)) false None false.
Definition assistantSays (s : string) : LiveServerMessage :=
  mkMessage (Some (Some s)) None true None false.

(** Three complete turns in a first session fill the history; the user
    stops and starts again, and the new session opens. *)
Definition threeTurnsThenReopen : list Event :=
  [ClickStart Connecting; SessionOpen 0;
   SessionMessage 0 (userSays "one") 0; SessionMessage 0 (assistantSays "uno") 0;
   SessionMessage 0 (userSays "two") 0; SessionMessage 0 (assistantSays "dos") 0;
   SessionMessage 0 (userSays "three") 0; SessionMessage 0 (assistantSays "tres") 0;
   ClickStop; ClickStart Connecting; SessionOpen 1].

(** [isListening] and [isSpeaking] only while [isConnected];
    [isConnecting] only while not [isConnected]. *)
Definition consistent (vs : VoiceState) : bool :=
  implb (isListening vs) (isConnected vs) &&
  implb (isSpeaking vs) (isConnected vs) &&
  implb (isConnecting vs) (negb (isConnected vs)).

(** The second session fails, the user starts a third one by hand while
    the reconnect timer is pending, the third session opens, and the
    timer fires. *)
Definition staleReconnect : list Event :=
  manualRestart ++ [TimePasses 5000; TimerFires 2 Connecting].

(** The open session has received the fragments "hel" and "lo". *)
Definition helloTurn : App :=
  onmessage (userSays "lo") 0 (onmessage (userSays "hel") 0 (onopen initial)).

(** The first session the user starts opens and then fails with a
    transient error. *)
Definition firstSessionOpen : list Event :=
  [ClickStart Connecting; SessionOpen 0].
Definition firstSessionError : list Event :=
  firstSessionOpen ++ [SessionError 0 (Some "network")].
Definition firstSessionUncleanClose : list Event :=
  firstSessionOpen ++ [SessionClose 0 false].

(** The second session is rejected for its key; the user starts a third
    one with the start button and it opens. *)
Definition restartAfterKeyError : list Event :=
  [ClickStart Connecting; SessionOpen 0; ClickStop;
   ClickStart Connecting; SessionOpen 1; SessionError 1 (Some "API_KEY_INVALID");
   ClickStart Connecting; SessionOpen 2].

(** ** Views of the state and their invariants *)

(** The speaking indicator and the set of active source nodes. *)
Definition sview (a : App) : bool * gset nat :=
  (isSpeaking (voiceState (state a)), sourcesRef (refs a)).

Definition speaking_ok (a : App) : Prop :=
  isSpeaking (voiceState (state a)) = true <-> sourcesRef (refs a) <> ∅.

(** A session is open and one chunk of audio has been enqueued. *)
Definition speakingSession : list Event :=
  [ClickStart Connecting; SessionOpen 0; SessionMessage 0 halfSecond 0].

(** The transcript: the history, the two live-preview texts and the two
    accumulators. *)
Definition aview (a : App) : string * string * string * string :=
  (currentUserText (state a), currentAssistantText (state a),
   userTextRef (refs a), assistantTextRef (refs a)).

Definition trview (a : App) : list TranscriptionEntry * (string * string * string * string) :=
  (transcriptionHistory (state a), aview a).

(** What a message adds to the user accumulator and to the assistant
    accumulator: an output transcription is looked at first, and an input
    transcription only when there is none. *)
Definition heardOf (m : LiveServerMessage) : string :=
  match outputTranscription m, inputTranscription m with
  | None, Some t => default "undefined" t
  | _, _ => ""
  end.

Definition saidOf (m : LiveServerMessage) : string :=
  match outputTranscription m with
  | Some t => default "undefined" t
  | None => ""
  end.

Definition joined (l : list string) : string := foldr String.append "" l.

(** The live preview shows what the accumulators hold. *)
Definition mirrored (a : App) : Prop :=
  currentUserText (state a) = userTextRef (refs a) /\
  currentAssistantText (state a) = assistantTextRef (refs a).

(** The bubbles of a rendered [Transcription], in display order. *)
Definition bubbles (v : TranscriptionView) : list (Role * string) :=
  match userBubble v with Some s => [(user, s)] | None => [] end ++
  match assistantBubble v with Some s => [(assistant, s)] | None => [] end.

(** A turn in fragments: the assistant starts to answer before the last
    fragment of the user's sentence arrives. *)
Definition interleavedTurn : list (LiveServerMessage * Q) :=
  [(mkMessage None (Some (Some "turn on ")) false None false, 0%Q);
   (mkMessage (Some (Some "Turning ")) None false None false, 0%Q);
   (mkMessage None (Some (Some "the lights")) false None false, 0%Q);
   (mkMessage (Some (Some "them on.")) None false None false, 0%Q)].

Definition turnDone : LiveServerMessage := mkMessage None None true None false.

(** The user stops in the middle of a turn and starts a new session. *)
Definition restartMidTurn : list Event :=
  [ClickStop; ClickStart Connecting; SessionOpen 1].

(** No history entry has an empty text. *)
Definition history_ok (a : App) : Prop :=
  Forall (fun e => nonEmpty (text e) = true) (transcriptionHistory (state a)).

(** How the transcript layer shows a history entry: dimmed, with one
    bubble on the side of its role. *)
Definition entryView (e : TranscriptionEntry) : TranscriptionView :=
  mkView "opacity-40 scale-95"
    (match role e with user => Some (text e) | assistant => None end)
    (match role e with assistant => Some (text e) | user => None end).

(** The sessions and audio contexts the component holds, has registered
    and has closed. *)
Record Resources := mkResources {
  r_session : option nat;
  r_contexts : option nat;
  r_callbacks : list (nat * Closure);
  r_nextSession : nat;
  r_nextContext : nat;
  r_closedSessions : list nat;
  r_closedContexts : list nat
}.

Definition rview (a : App) : Resources :=
  mkResources (sessionRef (refs a)) (audioContextsRef (refs a))
    (callbacks (browser a)) (nextSessionId (browser a)) (nextContextId (browser a))
    (closedSessions (browser a)) (closedContexts (browser a)).

(** The three things the handlers do to them. *)
Inductive ResourceOp :=
  | Release                  (* stopSession *)
  | CreateContexts           (* the two [new AudioContext], not stored *)
  | OpenContexts             (* the two [new AudioContext], stored in the ref *)
  | Connect (cl : Closure).  (* ai.live.connect *)

Definition applyOp (r : Resources) (op : ResourceOp) : Resources :=
  match op with
  | Release =>
      mkResources None None (r_callbacks r) (r_nextSession r) (r_nextContext r)
        (r_closedSessions r ++ option_list (r_session r))
        (r_closedContexts r ++ option_list (r_contexts r))
  | CreateContexts =>
      mkResources (r_session r) (r_contexts r) (r_callbacks r)
        (r_nextSession r) (S (r_nextContext r))
        (r_closedSessions r) (r_closedContexts r)
  | OpenContexts =>
      mkResources (r_session r) (Some (r_nextContext r)) (r_callbacks r)
        (r_nextSession r) (S (r_nextContext r))
        (r_closedSessions r) (r_closedContexts r)
  | Connect cl =>
      mkResources (Some (r_nextSession r)) (r_contexts r)
        (r_callbacks r ++ [(r_nextSession r, cl)])
        (S (r_nextSession r)) (r_nextContext r)
        (r_closedSessions r) (r_closedContexts r)
  end.

(** What one connection attempt that passes the guard does to them. *)
Definition attemptOps (cl : Closure) (o : StartOutcome) : list ResourceOp :=
  match o with
  | KeyNotSelected | ApiKeyMissing => []
  | MicrophoneDenied => [OpenContexts]
  | Connecting => [OpenContexts; Connect cl]
  | Threw AtKeyCheck | Threw AtAudioSetup => [Release]
  | Threw AtResume => [CreateContexts; Release]
  | Threw AtConnect => [OpenContexts; Release]
  end.

(** The guard of [startSession] lets a call with this closure through. *)
Definition passes (cl : Closure) : Prop :=
  cl_isConnecting cl || cl_isConnected cl = false.

(** Identifiers are handed out in order; what is held is not closed, and
    nothing is closed twice. *)
Definition resources_ok (r : Resources) : Prop :=
  NoDup (r_closedSessions r) /\
  NoDup (r_closedContexts r) /\
  (forall s, s ∈ r_closedSessions r -> (s < r_nextSession r)%nat) /\
  (forall c, c ∈ r_closedContexts r -> (c < r_nextContext r)%nat) /\
  (forall s, r_session r = Some s ->
     (s < r_nextSession r)%nat /\ s ∉ r_closedSessions r) /\
  (forall c, r_contexts r = Some c ->
     (c < r_nextContext r)%nat /\ c ∉ r_closedContexts r).

(** A pair of audio contexts that was opened, is not closed and is no
    longer held. *)
Definition orphaned (c : nat) (r : Resources) : Prop :=
  (c < r_nextContext r)%nat /\ r_contexts r <> Some c /\ c ∉ r_closedContexts r.

(** The memoised [startSession] agrees with the state on its two
    dependencies. *)
Definition synced (a : App) : Prop :=
  cl_isConnected (memo a) = isConnected (voiceState (state a)) /\
  cl_isConnecting (memo a) = isConnecting (voiceState (state a)).

(** The microphone was refused on the first attempt. *)
Definition microphoneRefused : list Event := [ClickStart MicrophoneDenied].

(** The operations on sessions and contexts that an event performs. *)
Definition startResourceOps (cl : Closure) (o : StartOutcome) : list ResourceOp :=
  if cl_isConnecting cl || cl_isConnected cl then [] else attemptOps cl o.

(** The timer an event [TimerFires id] runs, if it is pending and due. *)
Definition dueTimer (id : nat) (ts : list Timer) (now : Z) : option Timer :=
  match list_find (fun t => timer_id t = id) ts with
  | Some (_, t) => if (timer_due t <=? now)%Z then Some t else None
  | None => None
  end.

Definition resourceOps (e : Event) (a : App) : list ResourceOp :=
  match e with
  | ClickStart o => startResourceOps (memo a) o
  | ClickStop | Unmount => [Release]
  | ClickReauthorize available o =>
      if available then startResourceOps (memo a) o else []
  | SessionError s _ =>
      match callbackClosure s a with Some _ => [Release] | None => [] end
  | SessionClose s wasClean =>
      match callbackClosure s a with
      | Some _ => if negb wasClean then [Release] else []
      | None => []
      end
  | TimerFires id o =>
      match dueTimer id (timers (browser a)) (now (browser a)) with
      | Some t =>
          match timer_action t with
          | Reconnect cl => startResourceOps cl o
          | ClearErrorMessage => []
          end
      | None => []
      end
  | SessionOpen _ | SessionMessage _ _ _ | SourceEnded _ | TimePasses _ => []
  end.

(** The timers, the clock, the two timer refs and the error message. *)
Record TimerView := mkTimerView {
  tv_timers : list Timer;
  tv_now : Z;
  tv_next : nat;
  tv_reconnectRef : option nat;
  tv_errorRef : option nat;
  tv_message : option string
}.

Definition eview (a : App) : TimerView :=
  mkTimerView (timers (browser a)) (now (browser a)) (nextTimerId (browser a))
    (reconnectTimeoutRef (refs a)) (errorTimeoutRef (refs a)) (errorMessage (state a)).

(** [if (ref.current) clearTimeout(ref.current)] on the list of timers. *)
Definition cancel (r : option nat) (ts : list Timer) : list Timer :=
  match r with
  | Some id => if truthy r then filter (fun t => timer_id t <> id) ts else ts
  | None => ts
  end.

(** What the handlers do to them. *)
Inductive TimerOp :=
  | ShowError (msg : string)       (* showError *)
  | AutoReconnect (cl : Closure)   (* handleAutoReconnect *)
  | ClearMessage                   (* setErrorMessage(null) in onopen *)
  | Fire (id : nat)                (* a due timer leaves the list *)
  | Advance (dt : Z)               (* time passes *)
  | CancelBoth.                    (* the cleanup of the mount effect *)

Definition applyT (v : TimerView) (op : TimerOp) : TimerView :=
  match op with
  | ShowError msg =>
      mkTimerView
        (cancel (tv_errorRef v) (tv_timers v) ++
           [mkTimer (tv_next v) (tv_now v + ERROR_TIMEOUT) ClearErrorMessage])
        (tv_now v) (S (tv_next v)) (tv_reconnectRef v) (Some (tv_next v)) (Some msg)
  | AutoReconnect cl =>
      if cl_hasInteracted cl && negb (cl_needsApiKey cl) then
        mkTimerView
          (cancel (tv_reconnectRef v) (tv_timers v) ++
             [mkTimer (tv_next v) (tv_now v + RECONNECT_DELAY) (Reconnect cl)])
          (tv_now v) (S (tv_next v)) (Some (tv_next v)) (tv_errorRef v) (tv_message v)
      else
        mkTimerView (cancel (tv_reconnectRef v) (tv_timers v))
          (tv_now v) (tv_next v) (tv_reconnectRef v) (tv_errorRef v) (tv_message v)
  | ClearMessage =>
      mkTimerView (tv_timers v) (tv_now v) (tv_next v) (tv_reconnectRef v)
        (tv_errorRef v) None
  | Fire id =>
      match dueTimer id (tv_timers v) (tv_now v) with
      | Some t =>
          mkTimerView (filter (fun t => timer_id t <> id) (tv_timers v))
            (tv_now v) (tv_next v) (tv_reconnectRef v) (tv_errorRef v)
            (match timer_action t with
             | ClearErrorMessage => None
             | Reconnect _ => tv_message v
             end)
      | None => v
      end
  | Advance dt =>
      mkTimerView (tv_timers v) (tv_now v + Z.max 0 dt) (tv_next v)
        (tv_reconnectRef v) (tv_errorRef v) (tv_message v)
  | CancelBoth =>
      mkTimerView (cancel (tv_errorRef v) (cancel (tv_reconnectRef v) (tv_timers v)))
        (tv_now v) (tv_next v) (tv_reconnectRef v) (tv_errorRef v) (tv_message v)
  end.

Definition startTimerOps (cl : Closure) (o : StartOutcome) : list TimerOp :=
  if cl_isConnecting cl || cl_isConnected cl then [] else
  match o with
  | ApiKeyMissing => [ShowError NO_KEY_ERROR]
  | MicrophoneDenied => [ShowError MIC_ERROR]
  | Threw _ => [ShowError RETRY_ERROR; AutoReconnect cl]
  | KeyNotSelected | Connecting => []
  end.

Definition timerOps (e : Event) (a : App) : list TimerOp :=
  match e with
  | ClickStart o => startTimerOps (memo a) o
  | ClickReauthorize available o =>
      if available then startTimerOps (memo a) o else [ShowError KEY_UNAVAILABLE_ERROR]
  | SessionOpen s =>
      match callbackClosure s a with Some _ => [ClearMessage] | None => [] end
  | SessionError s e =>
      match callbackClosure s a with
      | Some cl =>
          if isKeyError (default "" e) then [ShowError KEY_ERROR]
          else [ShowError SYNC_ERROR; AutoReconnect cl]
      | None => []
      end
  | SessionClose s wasClean =>
      match callbackClosure s a with
      | Some cl => if negb wasClean then [ShowError CLOSE_ERROR; AutoReconnect cl] else []
      | None => []
      end
  | TimerFires id o =>
      Fire id ::
      match dueTimer id (timers (browser a)) (now (browser a)) with
      | Some t =>
          match timer_action t with
          | Reconnect cl => startTimerOps cl o
          | ClearErrorMessage => []
          end
      | None => []
      end
  | TimePasses dt => [Advance dt]
  | Unmount => [CancelBoth]
  | ClickStop | SessionMessage _ _ _ | SourceEnded _ => []
  end.

(** Handles are positive, fresh and distinct; each ref holds a handle
    that was handed out, the two refs hold different handles, and every
    pending timer is the one the ref of its kind holds. *)
Definition tv_ok (v : TimerView) : Prop :=
  (0 < tv_next v)%nat /\
  (forall t, t ∈ tv_timers v -> (0 < timer_id t < tv_next v)%nat) /\
  NoDup (timer_id <$> tv_timers v) /\
  (forall i, tv_reconnectRef v = Some i -> (i < tv_next v)%nat) /\
  (forall i, tv_errorRef v = Some i -> (i < tv_next v)%nat) /\
  (forall i, tv_reconnectRef v = Some i -> tv_errorRef v <> Some i) /\
  (forall t, t ∈ tv_timers v ->
     match timer_action t with
     | Reconnect _ => tv_reconnectRef v = Some (timer_id t)
     | ClearErrorMessage => tv_errorRef v = Some (timer_id t)
     end).

(** A message on display has its clearing timer pending, due within
    [ERROR_TIMEOUT]. *)
Definition banner_ok (v : TimerView) : Prop :=
  tv_message v <> None ->
  exists t, t ∈ tv_timers v /\ timer_action t = ClearErrorMessage /\
            (timer_due t <= tv_now v + ERROR_TIMEOUT)%Z.

Definition pendingErrorTimers (a : App) : list Timer :=
  filter (fun t => isReconnect t = false) (timers (browser a)).

(** The closures that session callbacks and reconnect timers hold all
    pass the guard of [startSession]. *)
Definition closures_ok (a : App) : Prop :=
  (forall t cl, t ∈ timers (browser a) -> timer_action t = Reconnect cl -> passes cl) /\
  (forall s cl, (s, cl) ∈ callbacks (browser a) -> passes cl).

(** A session that is open, not closed and no longer held. *)
Definition orphanedSession (s : nat) (r : Resources) : Prop :=
  (s < r_nextSession r)%nat /\ r_session r <> Some s /\ s ∉ r_closedSessions r.

(** The reconnect timer of the failed second session is due while the
    third session, started by hand, is connected. *)
Definition reconnectDue : list Event := manualRestart ++ [TimePasses 5000].

(** A closure with which [handleAutoReconnect] schedules a retry. *)
Definition retries (cl : Closure) : Prop :=
  cl_hasInteracted cl = true /\ cl_needsApiKey cl = false.

(** Registered sessions have identifiers that were handed out. *)
Definition callbacks_fresh (r : Resources) : Prop :=
  forall s cl, (s, cl) ∈ r_callbacks r -> (s < r_nextSession r)%nat.

(** * Properties *)

(** ** The timer invariant *)

Lemma timers_ok_frame a a' : tview a' = tview a -> timers_ok a -> timers_ok a'.
Proof. unfold timers_ok. intros ->. done. Qed.

Lemma timers_ok_clearTimeout id a :
  timers_ok a -> timers_ok (with_browser (clearTimeout id) a).
Proof.
  unfold timers_ok, tview; simpl. intros (H0 & H1 & H2 & H3).
  repeat split.
  - done.
  - apply H1. by eapply list_elem_of_filter.
  - apply H1. by eapply list_elem_of_filter.
  - eapply sublist_NoDup; [exact H2|]. apply fmap_sublist, sublist_filter.
  - intros t Ht. apply H3. by eapply list_elem_of_filter.
Qed.

Lemma timers_ok_clearIfSet r a : timers_ok a -> timers_ok (clearIfSet r a).
Proof.
  intros H. unfold clearIfSet. destruct r as [id|]; [|done].
  destruct (truthy (Some id)); [|done]. by apply timers_ok_clearTimeout.
Qed.

(** Scheduling a timer keeps the invariant when the new timer is not a
    reconnect timer, or when the ref is set to its handle. *)
Lemma timers_ok_setTimeout act d a :
  timers_ok a ->
  (forall t, t ∈ timers (browser a) -> isReconnect t = true ->
             act = ClearErrorMessage) ->
  timers_ok (set_reconnectTimeoutRef
               (match act with
                | ClearErrorMessage => reconnectTimeoutRef (refs a)
                | Reconnect _ => Some (nextTimerId (browser a))
                end) (setTimeout act d a).2).
Proof.
  unfold timers_ok, tview; simpl. intros (H0 & H1 & H2 & H3) Hact.
  repeat split.
  - lia.
  - apply elem_of_app in H as [H|H]; [apply H1 in H; lia|].
    apply list_elem_of_singleton in H as ->. simpl. lia.
  - apply elem_of_app in H as [H|H]; [apply H1 in H; lia|].
    apply list_elem_of_singleton in H as ->. simpl. lia.
  - rewrite fmap_app. apply NoDup_app. split; [done|]. split; [|apply NoDup_singleton].
    intros x Hx Hx'. apply list_elem_of_singleton in Hx'. subst.
    apply list_elem_of_fmap in Hx as (t & Heq & Ht). apply H1 in Ht. simpl in Heq. lia.
  - intros t Ht Hr. apply elem_of_app in Ht as [Ht|Ht].
    + rewrite (Hact t Ht Hr). by apply H3.
    + apply list_elem_of_singleton in Ht as ->. simpl in Hr. unfold isReconnect in Hr.
      simpl in Hr. by destruct act.
Qed.

Lemma tview_stopSession a : tview (stopSession a) = tview a.
Proof. unfold stopSession. repeat case_match; done. Qed.

Lemma timers_ok_showError msg a : timers_ok a -> timers_ok (showError msg a).
Proof.
  intros H. unfold showError.
  set (a1 := clearIfSet _ _).
  assert (timers_ok a1) as H1 by (by apply timers_ok_clearIfSet).
  pose proof (timers_ok_setTimeout ClearErrorMessage ERROR_TIMEOUT a1 H1 (fun _ _ _ => eq_refl)) as H2.
  revert H2. apply timers_ok_frame. done.
Qed.

(** Cancelling through the ref removes every pending reconnect timer. *)
Lemma pendingReconnects_cleared a :
  timers_ok a ->
  pendingReconnects (clearIfSet (reconnectTimeoutRef (refs a)) a) = [].
Proof.
  unfold timers_ok, tview, pendingReconnects. intros (H0 & H1 & H2 & H3).
  apply elem_of_nil_inv. intros t Ht.
  apply list_elem_of_filter in Ht as [Hr Ht].
  unfold clearIfSet in Ht.
  destruct (reconnectTimeoutRef (refs a)) as [id|] eqn:Href.
  - destruct (truthy (Some id)) eqn:Htr; simpl in Ht.
    + apply list_elem_of_filter in Ht as [Hne Ht]. specialize (H3 t Ht Hr). congruence.
    + specialize (H3 t Ht Hr). specialize (H1 t Ht). simpl in Htr.
      injection H3 as ->. apply negb_false_iff, Nat.eqb_eq in Htr. lia.
  - specialize (H3 t Ht Hr). done.
Qed.

Lemma pendingReconnects_stopSession a :
  pendingReconnects (stopSession a) = pendingReconnects a.
Proof.
  unfold pendingReconnects.
  change (timers (browser (stopSession a))) with (tview (stopSession a)).1.1.
  by rewrite tview_stopSession.
Qed.

Lemma clearIfSet_stopSession_refs r a :
  tview (stopSession (clearIfSet r a)) = tview (clearIfSet r a).
Proof. apply tview_stopSession. Qed.

Lemma timers_ok_handleAutoReconnect cl a :
  timers_ok a -> timers_ok (handleAutoReconnect cl a).
Proof.
  intros H. unfold handleAutoReconnect.
  set (a1 := stopSession _).
  assert (pendingReconnects a1 = []) as Hnone.
  { unfold a1. rewrite pendingReconnects_stopSession. by apply pendingReconnects_cleared. }
  assert (timers_ok a1) as H1.
  { eapply timers_ok_frame; [apply tview_stopSession|]. by apply timers_ok_clearIfSet. }
  destruct (cl_hasInteracted cl && negb (cl_needsApiKey cl)); [|done].
  clearbody a1.
  apply (timers_ok_setTimeout (Reconnect cl) RECONNECT_DELAY a1 H1). intros t Ht Hr. exfalso.
  unfold pendingReconnects in Hnone.
  exact (filter_nil_not_elem_of _ _ t Hnone Hr Ht).
Qed.

Lemma tview_render a : tview (render a) = tview a.
Proof. unfold render. by case_match. Qed.

Lemma timers_ok_render a : timers_ok a -> timers_ok (render a).
Proof. apply timers_ok_frame, tview_render. Qed.

Lemma timers_ok_stopSession a : timers_ok a -> timers_ok (stopSession a).
Proof. apply timers_ok_frame, tview_stopSession. Qed.

Lemma timers_ok_setVoiceState f a : timers_ok a -> timers_ok (setVoiceState f a).
Proof. done. Qed.
Lemma timers_ok_setNeedsApiKey v a : timers_ok a -> timers_ok (setNeedsApiKey v a).
Proof. done. Qed.
Lemma timers_ok_setHasInteracted v a : timers_ok a -> timers_ok (setHasInteracted v a).
Proof. done. Qed.
Lemma timers_ok_setErrorMessage v a : timers_ok a -> timers_ok (setErrorMessage v a).
Proof. done. Qed.
Lemma timers_ok_setTranscriptionHistory f a :
  timers_ok a -> timers_ok (setTranscriptionHistory f a).
Proof. done. Qed.
Lemma timers_ok_openAudioContexts a : timers_ok a -> timers_ok (openAudioContexts a).
Proof. done. Qed.
Lemma timers_ok_connect cl a : timers_ok a -> timers_ok (connect cl a).
Proof. done. Qed.
Lemma timers_ok_createAudioContexts a : timers_ok a -> timers_ok (createAudioContexts a).
Proof. done. Qed.

(** Peel one handler step off a [timers_ok] goal. *)
Ltac timers_frame1 :=
  match goal with
  | H : timers_ok ?a |- timers_ok ?b => constr_eq a b; exact H
  | |- timers_ok (handleAutoReconnect _ _) => apply timers_ok_handleAutoReconnect
  | |- timers_ok (showError _ _) => apply timers_ok_showError
  | |- timers_ok (render _) => apply timers_ok_render
  | |- timers_ok (stopSession _) => apply timers_ok_stopSession
  | |- timers_ok (clearIfSet _ _) => apply timers_ok_clearIfSet
  | |- timers_ok (with_browser (clearTimeout _) _) => apply timers_ok_clearTimeout
  | |- timers_ok (setVoiceState _ _) => apply timers_ok_setVoiceState
  | |- timers_ok (setNeedsApiKey _ _) => apply timers_ok_setNeedsApiKey
  | |- timers_ok (setHasInteracted _ _) => apply timers_ok_setHasInteracted
  | |- timers_ok (setErrorMessage _ _) => apply timers_ok_setErrorMessage
  | |- timers_ok (setTranscriptionHistory _ _) => apply timers_ok_setTranscriptionHistory
  | |- timers_ok (openAudioContexts _) => apply timers_ok_openAudioContexts
  | |- timers_ok (connect _ _) => apply timers_ok_connect
  | |- timers_ok (createAudioContexts _) => apply timers_ok_createAudioContexts
  end.
Ltac timers_frame := repeat timers_frame1.

Lemma timers_ok_startSession cl o a :
  timers_ok a -> timers_ok (startSession cl o a).
Proof.
  intros H. unfold startSession, catchConnectionFailure, beginConnecting.
  destruct (cl_isConnecting cl || cl_isConnected cl); [done|].
  destruct o as [| | | |[]]; timers_frame.
Qed.

Lemma tview_onmessage m clock a : tview (onmessage m clock a) = tview a.
Proof.
  unfold onmessage, onmessage_transcription, onmessage_turnComplete,
    onmessage_audio, onmessage_interrupted.
  repeat case_match; done.
Qed.

Lemma tview_onended n a : tview (onended n a) = tview a.
Proof. unfold onended. by case_match. Qed.

Lemma timers_ok_fire id o a : timers_ok a -> timers_ok (fire id o a).
Proof.
  intros H. unfold fire. repeat case_match; try done; subst.
  - timers_frame.
  - apply timers_ok_startSession. timers_frame.
Qed.

Lemma timers_ok_handle e a : timers_ok a -> timers_ok (handle e a).
Proof.
  intros H. destruct e; simpl.
  - by apply timers_ok_startSession.
  - timers_frame.
  - unfold handleKeySelection. case_match; [apply timers_ok_startSession|]; timers_frame.
  - case_match; [|done]. unfold onopen. timers_frame.
  - case_match; [|done]. eapply timers_ok_frame; [apply tview_onmessage|done].
  - case_match; [|done]. unfold onerror. case_match; timers_frame.
  - case_match; [|done]. unfold onclose. case_match; timers_frame.
  - eapply timers_ok_frame; [apply tview_onended|done].
  - by apply timers_ok_fire.
  - done.
  - unfold cleanup. timers_frame.
Qed.

Lemma timers_ok_initial : timers_ok initial.
Proof.
  unfold timers_ok; simpl. split; [lia|]. split; [|split].
  - intros t Ht. by apply elem_of_nil in Ht.
  - apply NoDup_nil_2.
  - intros t Ht. by apply elem_of_nil in Ht.
Qed.

Lemma timers_ok_run es a : timers_ok a -> timers_ok (run es a).
Proof.
  revert a. induction es as [|e es IH]; intros a H; [done|].
  simpl. apply IH. unfold step. by apply timers_ok_render, timers_ok_handle.
Qed.

Lemma reachable_timers_ok a : reachable a -> timers_ok a.
Proof. intros [es <-]. apply timers_ok_run, timers_ok_initial. Qed.

Lemma reachable_step a e : reachable a -> reachable (step a e).
Proof.
  intros [es <-]. exists (es ++ [e]). unfold run. by rewrite foldl_app.
Qed.

Lemma reachable_run a es : reachable a -> reachable (run es a).
Proof.
  intros [es0 <-]. exists (es0 ++ es). unfold run. by rewrite foldl_app.
Qed.

(** Under the invariant at most one reconnect timer is pending. *)
Lemma timers_ok_at_most_one a :
  timers_ok a -> (length (pendingReconnects a) <= 1)%nat.
Proof.
  unfold timers_ok, tview, pendingReconnects. intros (H0 & H1 & H2 & H3).
  destruct (filter _ _) as [|t1 [|t2 l]] eqn:Hf; simpl; try lia.
  exfalso.
  assert (t1 ∈ filter (fun t => isReconnect t = true) (timers (browser a))) as Ht1
    by (rewrite Hf; apply list_elem_of_here).
  assert (t2 ∈ filter (fun t => isReconnect t = true) (timers (browser a))) as Ht2
    by (rewrite Hf; apply list_elem_of_further, list_elem_of_here).
  apply list_elem_of_filter in Ht1 as [Hr1 Hin1].
  apply list_elem_of_filter in Ht2 as [Hr2 Hin2].
  pose proof (H3 _ Hin1 Hr1) as E1. pose proof (H3 _ Hin2 Hr2) as E2.
  assert (timer_id t1 = timer_id t2) as Eid by congruence.
  assert (NoDup (timer_id <$> (t1 :: t2 :: l))) as Hnd.
  { rewrite <- Hf. eapply sublist_NoDup; [exact H2|]. apply fmap_sublist, sublist_filter. }
  simpl in Hnd. apply NoDup_cons in Hnd as [Hnot _]. apply Hnot. rewrite Eid.
  apply list_elem_of_here.
Qed.

(** ** Playback scheduling *)

Lemma pview_transcription m a : pview (onmessage_transcription m a) = pview a.
Proof. unfold onmessage_transcription. repeat case_match; done. Qed.

Lemma pview_turnComplete a : pview (onmessage_turnComplete a) = pview a.
Proof. done. Qed.

Lemma pview_audio clock c a :
  pview (onmessage_audio clock c a) =
  ((Qmax (nextStartTimeRef (refs a)) clock + chunk_duration c)%Q,
   S (nextNodeId (browser a)),
   scheduled (browser a) ++
     [mkSegment (nextNodeId (browser a))
                (Qmax (nextStartTimeRef (refs a)) clock) (chunk_duration c)]).
Proof. done. Qed.

Lemma pview_enqueue m clock c a :
  interrupted m = false -> chunkOf m = Some c ->
  pview (onmessage m clock a) =
  ((Qmax (nextStartTimeRef (refs a)) clock + chunk_duration c)%Q,
   S (nextNodeId (browser a)),
   scheduled (browser a) ++
     [mkSegment (nextNodeId (browser a))
                (Qmax (nextStartTimeRef (refs a)) clock) (chunk_duration c)]).
Proof.
  intros Hi Hc. unfold onmessage, chunkOf in *. rewrite Hi.
  set (a1 := if turnComplete m then _ else _).
  assert (pview a1 = pview a) as E.
  { unfold a1. destruct (turnComplete m);
      [rewrite pview_turnComplete|]; apply pview_transcription. }
  destruct (inlineData m) as [c'|]; [|done].
  destruct (nonEmpty (chunk_data c')); [|done]. injection Hc as ->.
  rewrite pview_audio. unfold pview in E. by injection E as -> -> ->.
Qed.

Lemma scheduled_play ms a :
  Forall (fun p => enqueues p.1) ms ->
  scheduled (browser (play ms a)) =
  scheduled (browser a) ++ chain (nextStartTimeRef (refs a)) (nextNodeId (browser a)) ms.
Proof.
  revert a. induction ms as [|[m clock] ms IH]; intros a H.
  - simpl. by rewrite app_nil_r.
  - apply Forall_cons in H as [[Hi [c Hc]] H]. simpl in Hi, Hc.
    change (play ((m, clock) :: ms) a) with (play ms (onmessage m clock a)).
    rewrite (IH _ H). simpl. rewrite Hc.
    pose proof (pview_enqueue m clock c a Hi Hc) as E.
    unfold pview in E. injection E as E1 E2 E3. rewrite E1, E2, E3.
    by rewrite <- app_assoc.
Qed.

Lemma newSegments_chain ms a :
  Forall (fun p => enqueues p.1) ms ->
  newSegments ms a = chain (nextStartTimeRef (refs a)) (nextNodeId (browser a)) ms.
Proof.
  intros H. unfold newSegments. rewrite (scheduled_play _ _ H).
  apply drop_app_length.
Qed.

Lemma length_chain cursor node ms :
  Forall (fun p => enqueues p.1) ms -> length (chain cursor node ms) = length ms.
Proof.
  revert cursor node. induction ms as [|[m clock] ms IH]; intros cursor node H; [done|].
  apply Forall_cons in H as [[_ [c Hc]] H]. simpl in *. rewrite Hc. simpl.
  by rewrite IH.
Qed.

(** Each segment starts where the previous one ends, or later. *)
Lemma chain_no_overlap cursor node ms i s1 s2 :
  Forall (fun p => enqueues p.1) ms ->
  chain cursor node ms !! i = Some s1 ->
  chain cursor node ms !! S i = Some s2 ->
  (seg_start s1 + seg_duration s1 <= seg_start s2)%Q.
Proof.
  revert cursor node i. induction ms as [|[m clock] ms IH]; intros cursor node i H H1 H2;
    [done|].
  apply Forall_cons in H as [[_ [c Hc]] H]. simpl in *. rewrite Hc in *.
  destruct i as [|i].
  - simpl in *. injection H1 as <-. simpl.
    destruct ms as [|[m' clock'] ms]; [done|].
    apply Forall_cons in H as [[_ [c' Hc']] _]. simpl in *. rewrite Hc' in H2.
    injection H2 as <-. simpl. apply Q.le_max_l.
  - simpl in *. by eapply IH.
Qed.

Lemma chain_lookup cursor node ms i m clock seg a :
  Forall (fun p => enqueues p.1) ms ->
  cursor = nextStartTimeRef (refs a) ->
  node = nextNodeId (browser a) ->
  ms !! i = Some (m, clock) ->
  chain cursor node ms !! i = Some seg ->
  seg_start seg = Qmax (nextStartTimeRef (refs (play (take i ms) a))) clock /\
  (forall c, chunkOf m = Some c -> seg_duration seg = chunk_duration c) /\
  nextStartTimeRef (refs (play (take (S i) ms) a)) = (seg_start seg + seg_duration seg)%Q.
Proof.
  revert cursor node i a. induction ms as [|[m' clock'] ms IH];
    intros cursor node i a H -> -> Hm Hs; [done|].
  apply Forall_cons in H as [[Hi [c Hc]] H]. simpl in Hi, Hc. simpl in Hs. rewrite Hc in Hs.
  pose proof (pview_enqueue m' clock' c a Hi Hc) as E.
  unfold pview in E. injection E as E1 E2 E3.
  destruct i as [|i].
  - simpl in *. injection Hm as -> ->. injection Hs as <-. simpl.
    split; [done|]. split; [|done]. intros c' Hc'. congruence.
  - simpl in Hm, Hs.
    change (play (take (S i) ((m', clock') :: ms)) a)
      with (play (take i ms) (onmessage m' clock' a)).
    change (play (take (S (S i)) ((m', clock') :: ms)) a)
      with (play (take (S i) ms) (onmessage m' clock' a)).
    apply (IH _ _ i (onmessage m' clock' a) H (eq_sym E1) (eq_sym E2) Hm Hs).
Qed.

(** ** Interruption *)

Lemma flush_idempotent a :
  onmessage_interrupted (onmessage_interrupted a) = onmessage_interrupted a.
Proof.
  destruct a as [s r b m]. destruct s as [[] ? ? ? ? ? ?], r, b.
  unfold onmessage_interrupted. simpl. unfold set_stopped, with_browser. simpl.
  by rewrite (right_id_L ∅ (∪)).
Qed.

Lemma flush_idle a :
  sourcesRef (refs a) = ∅ ->
  nextStartTimeRef (refs a) = 0%Q ->
  isSpeaking (voiceState (state a)) = false ->
  onmessage_interrupted a = a.
Proof.
  destruct a as [s r b m]. destruct s as [[] ? ? ? ? ? ?], r, b. simpl.
  intros -> -> ->.
  unfold onmessage_interrupted. simpl. unfold set_stopped, with_browser. simpl.
  by rewrite (right_id_L ∅ (∪)).
Qed.

(** C5: the interruption flush. After [onmessage_interrupted], from any
    state: the active set is empty, every segment that was active has had
    [stop()] called (and nothing else was stopped, so with no active
    segment nothing is stopped), the timeline cursor is 0 and [isSpeaking]
    is false.  Flushing a second time changes nothing, and a flush of an
    idle scheduler changes nothing at all.  A message that carries
    [interrupted] ends with this flush. *)
Theorem interruption_flush (a : App) :
  let a' := onmessage_interrupted a in
  sourcesRef (refs a') = ∅ /\
  stopped (browser a') = stopped (browser a) ∪ sourcesRef (refs a) /\
  nextStartTimeRef (refs a') = 0%Q /\
  isSpeaking (voiceState (state a')) = false /\
  onmessage_interrupted a' = a' /\
  (sourcesRef (refs a) = ∅ -> stopped (browser a') = stopped (browser a)) /\
  (sourcesRef (refs a) = ∅ -> nextStartTimeRef (refs a) = 0%Q ->
   isSpeaking (voiceState (state a)) = false -> a' = a) /\
  (forall m clock, interrupted m = true ->
     exists a0, onmessage m clock a = onmessage_interrupted a0 /\
                sourcesRef (refs a) ⊆ sourcesRef (refs a0)).
Proof.
  simpl. repeat split; try done.
  - apply flush_idempotent.
  - intros ->. simpl. by rewrite (right_id_L ∅ (∪)).
  - apply flush_idle.
  - intros m clock Hi. unfold onmessage. rewrite Hi.
    eexists; split; [reflexivity|].
    set (a1 := if turnComplete m then _ else _).
    assert (sourcesRef (refs a1) = sourcesRef (refs a)) as E.
    { unfold a1, onmessage_transcription. repeat case_match; done. }
    clearbody a1.
    destruct (inlineData m) as [c|]; [destruct (nonEmpty (chunk_data c))|];
      cbn; rewrite ?E; [apply union_subseteq_l|done|done].
Qed.

Lemma interruption_flush_witness :
  sourcesRef (refs (onmessage_interrupted twoSourcesActive)) = ∅ /\
  isSpeaking (voiceState (state (onmessage_interrupted twoSourcesActive))) = false /\
  onmessage_interrupted initial = initial.
Proof.
  pose proof (interruption_flush twoSourcesActive) as (H1 & _ & _ & H4 & _).
  pose proof (interruption_flush initial) as (_ & _ & _ & _ & _ & _ & H7 & _).
  split; [exact H1|]. split; [exact H4|]. apply H7; reflexivity.
Defined.

(** ** Turn completion *)

Lemma pushTurn_entries stamp u t prev :
  pushTurn stamp u t prev = slice_last 6 (prev ++ turnEntries stamp u t).
Proof.
  unfold pushTurn, turnEntries.
  destruct (nonEmpty u), (nonEmpty t); simpl; by rewrite <- ?app_assoc, ?app_nil_r.
Qed.

Lemma length_slice_last {A} n (l : list A) : (length (slice_last n l) <= n)%nat.
Proof. unfold slice_last. rewrite length_drop. lia. Qed.

Lemma slice_last_app {A} n (l k : list A) :
  (length k <= n)%nat ->
  exists kept, kept `suffix_of` l /\ slice_last n (l ++ k) = kept ++ k.
Proof.
  intros H. exists (drop (length (l ++ k) - n) l). split; [apply suffix_drop|].
  unfold slice_last. apply drop_app_le. rewrite length_app. lia.
Qed.

Lemma nonEmpty_false s : nonEmpty s = false <-> s = "".
Proof. destruct s; simpl; split; congruence. Qed.

(** C6: turn completion.  With [u] and [t] the user and assistant
    accumulators, the new history is a suffix of the old one followed by
    the entries of the turn: a user entry with text [u] if [u] is not
    empty, then an assistant entry with text [t] if [t] is not empty.  No
    appended entry has an empty text, with both accumulators empty nothing
    is appended, and both accumulators and both live-preview texts are
    cleared. *)
Theorem turn_completion (a : App) :
  let u := userTextRef (refs a) in
  let t := assistantTextRef (refs a) in
  let a' := onmessage_turnComplete a in
  let added := turnEntries (now (browser a)) u t in
  (exists kept, kept `suffix_of` transcriptionHistory (state a) /\
                transcriptionHistory (state a') = kept ++ added) /\
  added =
    (if nonEmpty u then [mkEntry (pretty (now (browser a)) +:+ "-u") user u] else []) ++
    (if nonEmpty t then [mkEntry (pretty (now (browser a)) +:+ "-a") assistant t] else []) /\
  Forall (fun e => text e <> "") added /\
  (u = "" -> t = "" ->
   transcriptionHistory (state a') `suffix_of` transcriptionHistory (state a)) /\
  userTextRef (refs a') = "" /\
  assistantTextRef (refs a') = "" /\
  currentUserText (state a') = "" /\
  currentAssistantText (state a') = "" /\
  (forall m clock, turnComplete m = true -> inlineData m = None -> interrupted m = false ->
     onmessage m clock a = onmessage_turnComplete (onmessage_transcription m a)).
Proof.
  simpl. repeat split; try done.
  - rewrite pushTurn_entries. apply slice_last_app.
    unfold turnEntries. rewrite length_app. repeat case_match; simpl; lia.
  - unfold turnEntries. apply Forall_app. split; case_match; repeat constructor; simpl.
    + intros E. rewrite E in *. done.
    + intros E. rewrite E in *. done.
  - intros -> ->. rewrite pushTurn_entries. simpl. rewrite app_nil_r. apply suffix_drop.
  - intros m clock H1 H2 H3. unfold onmessage. by rewrite H1, H2, H3.
Qed.

(** ** What [showError] and [stopSession] leave alone *)

Arguments stopSession : simpl never.
Arguments showError : simpl never.
Arguments handleAutoReconnect : simpl never.
Arguments render : simpl never.

Ltac showError_cases :=
  unfold showError, clearIfSet;
  destruct (errorTimeoutRef _) as [?|]; [destruct (truthy _)|]; done.

Lemma state_showError msg a :
  state (showError msg a) = state (setErrorMessage (Some msg) a).
Proof. showError_cases. Qed.

Lemma sessionRef_showError msg a :
  sessionRef (refs (showError msg a)) = sessionRef (refs a).
Proof. showError_cases. Qed.

Lemma reconnectTimeoutRef_showError msg a :
  reconnectTimeoutRef (refs (showError msg a)) = reconnectTimeoutRef (refs a).
Proof. showError_cases. Qed.

Lemma closedSessions_showError msg a :
  closedSessions (browser (showError msg a)) = closedSessions (browser a).
Proof. showError_cases. Qed.

Lemma clock_showError msg a :
  now (browser (showError msg a)) = now (browser a) /\
  nextTimerId (browser (showError msg a)) = S (nextTimerId (browser a)).
Proof. showError_cases. Qed.

(** [showError] schedules no reconnect timer. *)
Lemma pendingReconnects_showError msg a t :
  t ∈ pendingReconnects (showError msg a) -> t ∈ pendingReconnects a.
Proof.
  unfold pendingReconnects, showError, clearIfSet.
  destruct (errorTimeoutRef _) as [?|]; [destruct (truthy _)|];
    simpl; rewrite filter_app; simpl;
    rewrite app_nil_r, !list_elem_of_filter; intros [Hr Ht];
    (split; [done|]); try (destruct Ht as [_ Ht]); done.
Qed.

Lemma stopSession_closes a :
  sessionRef (refs (stopSession a)) = None /\
  voiceState (state (stopSession a)) = allFalse /\
  audioContextsRef (refs (stopSession a)) = None /\
  sourcesRef (refs (stopSession a)) = ∅ /\
  (forall s, sessionRef (refs a) = Some s -> s ∈ closedSessions (browser (stopSession a))).
Proof.
  unfold stopSession. repeat case_match; simpl; repeat split; try done.
  all: intros s' [= <-]; apply elem_of_app; right; apply list_elem_of_here.
Qed.

Lemma state_stopSession a :
  state (stopSession a) = state (setVoiceState (fun _ => allFalse) a).
Proof. unfold stopSession. repeat case_match; done. Qed.

Lemma clock_stopSession a :
  now (browser (stopSession a)) = now (browser a) /\
  nextTimerId (browser (stopSession a)) = nextTimerId (browser a).
Proof. unfold stopSession. repeat case_match; done. Qed.

Lemma clock_clearIfSet r a :
  now (browser (clearIfSet r a)) = now (browser a) /\
  nextTimerId (browser (clearIfSet r a)) = nextTimerId (browser a) /\
  state (clearIfSet r a) = state a /\
  sessionRef (refs (clearIfSet r a)) = sessionRef (refs a).
Proof. unfold clearIfSet. repeat case_match; done. Qed.

(** After [handleAutoReconnect] the pending reconnect timers are exactly
    the one it scheduled, if it scheduled one. *)
Lemma pendingReconnects_handleAutoReconnect cl a :
  timers_ok a ->
  pendingReconnects (handleAutoReconnect cl a) =
  if cl_hasInteracted cl && negb (cl_needsApiKey cl)
  then [mkTimer (nextTimerId (browser a)) (now (browser a) + RECONNECT_DELAY) (Reconnect cl)]
  else [].
Proof.
  intros H. unfold handleAutoReconnect.
  set (a1 := stopSession _).
  assert (pendingReconnects a1 = []) as Hnone.
  { unfold a1. rewrite pendingReconnects_stopSession. by apply pendingReconnects_cleared. }
  assert (now (browser a1) = now (browser a) /\
          nextTimerId (browser a1) = nextTimerId (browser a)) as [E1 E2].
  { unfold a1. destruct (clock_stopSession (clearIfSet (reconnectTimeoutRef (refs a)) a))
      as [-> ->]. by destruct (clock_clearIfSet (reconnectTimeoutRef (refs a)) a)
      as (-> & -> & _). }
  clearbody a1. destruct (cl_hasInteracted cl && negb (cl_needsApiKey cl)); [|done].
  unfold pendingReconnects in *. simpl. rewrite filter_app, Hnone. simpl.
  by rewrite E1, E2.
Qed.

Lemma handleAutoReconnect_closes cl a :
  sessionRef (refs (handleAutoReconnect cl a)) = None /\
  voiceState (state (handleAutoReconnect cl a)) = allFalse /\
  (forall s, sessionRef (refs a) = Some s ->
             s ∈ closedSessions (browser (handleAutoReconnect cl a))) /\
  errorMessage (state (handleAutoReconnect cl a)) = errorMessage (state a) /\
  needsApiKey (state (handleAutoReconnect cl a)) = needsApiKey (state a).
Proof.
  unfold handleAutoReconnect.
  set (a0 := clearIfSet _ _).
  assert (state a0 = state a /\ sessionRef (refs a0) = sessionRef (refs a)) as [Es Er].
  { unfold a0. by destruct (clock_clearIfSet (reconnectTimeoutRef (refs a)) a) as (_ & _ & -> & ->). }
  destruct (stopSession_closes a0) as (H1 & H2 & _ & _ & H5).
  pose proof (state_stopSession a0) as H6. rewrite <- Er.
  clearbody a0.
  destruct (cl_hasInteracted cl && negb (cl_needsApiKey cl)); cbn;
    rewrite ?H1, ?H2, ?H6; cbn; rewrite ?Es; repeat split; try done.
Qed.

(** ** Session failures *)

Lemma transient_failure cl msg a :
  timers_ok a ->
  let a' := handleAutoReconnect cl (showError msg a) in
  errorMessage (state a') = Some msg /\
  closedFrom a a' /\
  pendingReconnects a' = oneReconnect cl a.
Proof.
  intros H a'. unfold a'.
  destruct (handleAutoReconnect_closes cl (showError msg a)) as (H1 & H2 & H3 & H4 & _).
  destruct (clock_showError msg a) as [E1 E2].
  split; [by rewrite H4, state_showError|].
  split; [split; [done|split; [done|]]|].
  - intros s Hs. apply H3. by rewrite sessionRef_showError.
  - rewrite pendingReconnects_handleAutoReconnect by (by apply timers_ok_showError).
    unfold oneReconnect. by rewrite E1, E2.
Qed.

(** The two failure handlers, in a reachable state [a] and for the
    closure [cl] their session was created with.
    (1) An error whose message indicates an invalid credential sets
    [needsApiKey], shows the key message, closes the session gracefully
    and schedules no reconnection.
    (2) Every other error shows the transient message, closes the session
    gracefully, and leaves exactly one reconnect timer pending, due
    [RECONNECT_DELAY] = 5000 ms from now, if the values of [hasInteracted]
    and [needsApiKey] that [cl] captured are true and false; otherwise
    none.
    (3) An unclean close does the same with its own message; a clean close
    does nothing. *)
Lemma session_failure_classified (cl : Closure) (a : App) :
  reachable a ->
  (forall e msg, e = Some msg -> isKeyError msg = true ->
     let a' := onerror cl e a in
     needsApiKey (state a') = true /\
     errorMessage (state a') = Some KEY_ERROR /\
     closedFrom a a' /\
     (forall t, t ∈ pendingReconnects a' -> t ∈ pendingReconnects a)) /\
  (forall e, isKeyError (default "" e) = false ->
     let a' := onerror cl e a in
     errorMessage (state a') = Some SYNC_ERROR /\
     closedFrom a a' /\
     pendingReconnects a' = oneReconnect cl a) /\
  (let a' := onclose cl false a in
     errorMessage (state a') = Some CLOSE_ERROR /\
     closedFrom a a' /\
     pendingReconnects a' = oneReconnect cl a) /\
  onclose cl true a = a /\
  RECONNECT_DELAY = 5000%Z.
Proof.
  intros Hr. pose proof (reachable_timers_ok a Hr) as Hok.
  split; [|split; [|split; [|done]]].
  - intros e msg -> Hk a'. unfold a', onerror. simpl. rewrite Hk.
    destruct (stopSession_closes (setNeedsApiKey true (showError KEY_ERROR a)))
      as (H1 & H2 & _ & _ & H5).
    rewrite state_stopSession. cbn. rewrite state_showError. cbn.
    repeat split; try done.
    + intros s Hs. apply H5. cbn. by rewrite sessionRef_showError.
    + intros t Ht. rewrite pendingReconnects_stopSession in Ht.
      by apply (pendingReconnects_showError KEY_ERROR a).
  - intros e Hk a'. unfold a', onerror. rewrite Hk.
    by apply transient_failure.
  - unfold onclose. simpl. by apply transient_failure.
Qed.

(** ** Projections through the field updates *)

Lemma state_with_refs f a : state (with_refs f a) = state a.
Proof. reflexivity. Qed.
Lemma state_with_browser f a : state (with_browser f a) = state a.
Proof. reflexivity. Qed.
Lemma refs_with_state f a : refs (with_state f a) = refs a.
Proof. reflexivity. Qed.
Lemma refs_with_browser f a : refs (with_browser f a) = refs a.
Proof. reflexivity. Qed.
Lemma browser_with_state f a : browser (with_state f a) = browser a.
Proof. reflexivity. Qed.
Lemma browser_with_refs f a : browser (with_refs f a) = browser a.
Proof. reflexivity. Qed.
Lemma state_with_state f a : state (with_state f a) = f (state a).
Proof. reflexivity. Qed.
Lemma refs_with_refs f a : refs (with_refs f a) = f (refs a).
Proof. reflexivity. Qed.
Lemma browser_with_browser f a : browser (with_browser f a) = f (browser a).
Proof. reflexivity. Qed.

Lemma refs_render a : refs (render a) = refs a.
Proof. unfold render. by case_match. Qed.
Lemma state_render a : state (render a) = state a.
Proof. unfold render. by case_match. Qed.
Lemma browser_render a : browser (render a) = browser a.
Proof. unfold render. by case_match. Qed.

Lemma pendingReconnects_render a : pendingReconnects (render a) = pendingReconnects a.
Proof. unfold pendingReconnects. by rewrite browser_render. Qed.

(** After a render the memoised closure agrees with the state on the two
    booleans of the dependency list. *)
Lemma memo_render a :
  cl_isConnected (memo (render a)) = isConnected (voiceState (state a)) /\
  cl_isConnecting (memo (render a)) = isConnecting (voiceState (state a)).
Proof.
  unfold render.
  destruct (Bool.eqb _ _) eqn:E1; [destruct (Bool.eqb (isConnecting _) _) eqn:E2|];
    simpl; try done.
  apply Bool.eqb_prop in E1, E2. by rewrite E1, E2.
Qed.

(** Unfold the record updates of a goal down to the fields of the
    states they were applied to. *)
Ltac fields1 :=
  unfold setVoiceState, setTranscriptionHistory, setCurrentUserText,
    setCurrentAssistantText, setErrorMessage, setHasInteracted, setNeedsApiKey,
    set_sessionRef, set_audioContextsRef, set_nextStartTimeRef, set_sourcesRef,
    set_reconnectTimeoutRef, set_errorTimeoutRef, set_userTextRef,
    set_assistantTextRef, openAudioContexts, createAudioContexts, connect,
    beginConnecting;
  rewrite ?state_with_state, ?state_with_refs, ?state_with_browser,
    ?refs_with_state, ?refs_with_refs, ?refs_with_browser,
    ?browser_with_state, ?browser_with_refs, ?browser_with_browser,
    ?refs_render, ?state_render, ?browser_render.
Ltac fields := repeat progress fields1.

(** ** Microphone permission *)

Lemma startSession_MicrophoneDenied cl a :
  cl_isConnecting cl = false -> cl_isConnected cl = false ->
  startSession cl MicrophoneDenied a =
  setVoiceState notConnecting
    (showError MIC_ERROR
       (openAudioContexts (beginConnecting (setNeedsApiKey false (setHasInteracted true a))))).
Proof. intros H1 H2. unfold startSession. by rewrite H1, H2. Qed.

(** C9: a connection attempt (one that passes the guard of
    [startSession]) in which [getUserMedia] rejects shows the microphone
    message, ends with [isConnecting] false and no session, and schedules
    no reconnection: the reconnect ref is untouched and every reconnect
    timer pending afterwards was pending before. *)
Theorem microphone_denied_aborts (cl : Closure) (a : App) :
  cl_isConnecting cl = false ->
  cl_isConnected cl = false ->
  let a' := startSession cl MicrophoneDenied a in
  errorMessage (state a') = Some MIC_ERROR /\
  isConnecting (voiceState (state a')) = false /\
  sessionRef (refs a') = sessionRef (refs a) /\
  reconnectTimeoutRef (refs a') = reconnectTimeoutRef (refs a) /\
  (forall t, t ∈ pendingReconnects a' -> t ∈ pendingReconnects a).
Proof.
  intros H1 H2 a'. unfold a'. rewrite startSession_MicrophoneDenied by done.
  repeat apply conj.
  - fields. by rewrite state_showError.
  - fields. reflexivity.
  - fields. rewrite sessionRef_showError. fields. reflexivity.
  - fields. rewrite reconnectTimeoutRef_showError. fields. reflexivity.
  - intros t Ht. unfold pendingReconnects in *. revert Ht. fields. intros Ht.
    apply (pendingReconnects_showError MIC_ERROR) in Ht. revert Ht.
    unfold pendingReconnects. fields. done.
Qed.

Lemma microphone_denied_witness :
  isConnecting (voiceState (state
    (startSession (memo initial) MicrophoneDenied initial))) = false /\
  pendingReconnects (startSession (memo initial) MicrophoneDenied initial) = [].
Proof.
  pose proof (microphone_denied_aborts (memo initial) initial eq_refl eq_refl)
    as (_ & H2 & _ & _ & H5).
  split; [exact H2|]. apply elem_of_nil_inv. intros t Ht.
  apply H5 in Ht. by apply elem_of_nil in Ht.
Defined.

(** ** The scheduler state is only touched by messages *)

Lemma pview_render a : pview (render a) = pview a.
Proof. unfold pview. by rewrite refs_render, browser_render. Qed.

Lemma pview_showError msg a : pview (showError msg a) = pview a.
Proof. showError_cases. Qed.

Lemma pview_clearIfSet r a : pview (clearIfSet r a) = pview a.
Proof. unfold clearIfSet. repeat case_match; done. Qed.

Lemma pview_stopSession a : pview (stopSession a) = pview a.
Proof. unfold stopSession. repeat case_match; done. Qed.

Lemma pview_handleAutoReconnect cl a : pview (handleAutoReconnect cl a) = pview a.
Proof.
  unfold handleAutoReconnect. set (a1 := stopSession _).
  assert (pview a1 = pview a) as E
    by (unfold a1; by rewrite pview_stopSession, pview_clearIfSet).
  clearbody a1. by case_match.
Qed.

Lemma pview_with_state f a : pview (with_state f a) = pview a.
Proof. done. Qed.

Lemma pview_openAudioContexts a : pview (openAudioContexts a) = pview a.
Proof. done. Qed.

Lemma pview_connect cl a : pview (connect cl a) = pview a.
Proof. done. Qed.

Lemma pview_createAudioContexts a : pview (createAudioContexts a) = pview a.
Proof. done. Qed.

Ltac pview_frame :=
  repeat first
    [ rewrite pview_render | rewrite pview_showError | rewrite pview_stopSession
    | rewrite pview_handleAutoReconnect | rewrite pview_clearIfSet
    | rewrite pview_openAudioContexts | rewrite pview_connect
    | rewrite pview_createAudioContexts | rewrite pview_with_state ].

Lemma pview_startSession cl o a : pview (startSession cl o a) = pview a.
Proof.
  unfold startSession, catchConnectionFailure, beginConnecting.
  destruct (cl_isConnecting cl || cl_isConnected cl); [done|].
  unfold setVoiceState, setNeedsApiKey, setHasInteracted.
  destruct o as [| | | |[]]; by pview_frame.
Qed.

Lemma pview_onopen a : pview (onopen a) = pview a.
Proof. done. Qed.

Lemma pview_onended n a : pview (onended n a) = pview a.
Proof. unfold onended. by case_match. Qed.

Lemma pview_fire id o a : pview (fire id o a) = pview a.
Proof.
  unfold fire. repeat case_match; try done; subst.
  by rewrite pview_startSession.
Qed.

Lemma pview_onerror cl e a : pview (onerror cl e a) = pview a.
Proof.
  unfold onerror, setNeedsApiKey. case_match; by pview_frame.
Qed.

Lemma pview_onclose cl w a : pview (onclose cl w a) = pview a.
Proof. unfold onclose. case_match; by pview_frame. Qed.

Lemma pview_cleanup a : pview (cleanup a) = pview a.
Proof. unfold cleanup. by pview_frame. Qed.

Lemma pview_handleKeySelection av o a : pview (handleKeySelection av o a) = pview a.
Proof.
  unfold handleKeySelection, setNeedsApiKey. case_match;
    rewrite ?pview_startSession; by pview_frame.
Qed.

Lemma pview_step_other a e : isMessage e = false -> pview (step a e) = pview a.
Proof.
  intros H. unfold step. rewrite pview_render.
  destruct e; try done; simpl.
  - apply pview_startSession.
  - apply pview_stopSession.
  - apply pview_handleKeySelection.
  - by case_match.
  - case_match; [apply pview_onerror|done].
  - case_match; [apply pview_onclose|done].
  - apply pview_onended.
  - apply pview_fire.
  - apply pview_cleanup.
Qed.

Lemma cursor_onmessage m clock a :
  nextStartTimeRef (refs (onmessage m clock a)) =
  if interrupted m then 0%Q
  else match chunkOf m with
       | Some c => (Qmax (nextStartTimeRef (refs a)) clock + chunk_duration c)%Q
       | None => nextStartTimeRef (refs a)
       end.
Proof.
  unfold onmessage, chunkOf.
  set (a1 := if turnComplete m then _ else _).
  assert (nextStartTimeRef (refs a1) = nextStartTimeRef (refs a)) as E.
  { unfold a1, onmessage_transcription. repeat case_match; done. }
  clearbody a1.
  destruct (inlineData m) as [c|]; [destruct (nonEmpty (chunk_data c))|];
    destruct (interrupted m); cbn; by rewrite ?E.
Qed.

Lemma callbackClosure_connect cl a :
  is_Some (callbackClosure (nextSessionId (browser a)) (connect cl a)).
Proof.
  unfold callbackClosure, connect, set_sessionRef. rewrite browser_with_refs. cbn.
  destruct (list_find _ _) as [p|] eqn:E; [by eexists|].
  exfalso. apply list_find_None in E. apply Forall_app in E as [_ E].
  apply Forall_inv in E. by apply E.
Qed.

Lemma startSession_Connecting cl a :
  cl_isConnecting cl = false -> cl_isConnected cl = false ->
  startSession cl Connecting a =
  connect cl (openAudioContexts
    (beginConnecting (setNeedsApiKey false (setHasInteracted true a)))).
Proof. intros H1 H2. unfold startSession. by rewrite H1, H2. Qed.

Lemma nextSessionId_stopSession a :
  nextSessionId (browser (stopSession a)) = nextSessionId (browser a).
Proof. unfold stopSession. repeat case_match; done. Qed.

Lemma nextSessionId_prepare a :
  nextSessionId (browser (openAudioContexts
    (beginConnecting (setNeedsApiKey false (setHasInteracted true a))))) =
  nextSessionId (browser a).
Proof. fields. reflexivity. Qed.

Lemma callbackClosure_browser s a a' :
  callbacks (browser a') = callbacks (browser a) ->
  callbackClosure s a' = callbackClosure s a.
Proof. unfold callbackClosure. by intros ->. Qed.

(** Stop, start again, and let the new session open: its callbacks are
    registered and the scheduler state is the one before the stop. *)
Lemma restart_opens a :
  let s := nextSessionId (browser a) in
  let a3 := run [ClickStop; ClickStart Connecting; SessionOpen s] a in
  is_Some (callbackClosure s a3) /\ pview a3 = pview a.
Proof.
  intros s a3.
  assert (pview a3 = pview a) as Hp.
  { unfold a3, run. simpl. by rewrite !pview_step_other. }
  split; [|done].
  set (a1 := step a ClickStop).
  assert (nextSessionId (browser a1) = s) as Hs.
  { unfold a1, step. simpl. by rewrite browser_render, nextSessionId_stopSession. }
  assert (cl_isConnecting (memo a1) = false /\ cl_isConnected (memo a1) = false) as [G1 G2].
  { unfold a1, step. simpl.
    destruct (memo_render (stopSession a)) as [-> ->].
    by destruct (stopSession_closes a) as (_ & -> & _). }
  set (a2 := step a1 (ClickStart Connecting)).
  assert (is_Some (callbackClosure s a2)) as H2.
  { unfold a2, step. simpl. rewrite (startSession_Connecting _ _ G1 G2).
    erewrite callbackClosure_browser; [|by rewrite browser_render].
    pose proof (callbackClosure_connect (memo a1) (openAudioContexts
      (beginConnecting (setNeedsApiKey false (setHasInteracted true a1))))) as H.
    rewrite nextSessionId_prepare, Hs in H. exact H. }
  change a3 with (step a2 (SessionOpen s)).
  unfold step at 1. simpl. destruct H2 as [cl H2]. rewrite H2.
  erewrite callbackClosure_browser; [by rewrite H2|].
  by rewrite browser_render.
Qed.

Lemma run_snoc es e a : run (es ++ [e]) a = step (run es a) e.
Proof. unfold run. by rewrite foldl_app. Qed.

(** C10: a graceful stop leaves the timeline cursor unchanged, and so
    does every event that is not an inbound message; a message of a
    registered session sets the cursor to 0 exactly when it carries
    [interrupted], and otherwise advances it only by enqueuing.  So after
    stop, a new start and the opening of the new session, the first
    enqueued segment starts at the maximum of the output device clock and
    the cursor carried over from before the stop. *)
Theorem stop_keeps_cursor (a : App) :
  nextStartTimeRef (refs (stopSession a)) = nextStartTimeRef (refs a) /\
  (forall e, isMessage e = false ->
     nextStartTimeRef (refs (step a e)) = nextStartTimeRef (refs a)) /\
  (forall s m clock,
     nextStartTimeRef (refs (step a (SessionMessage s m clock))) =
     match callbackClosure s a with
     | Some _ =>
         if interrupted m then 0%Q
         else match chunkOf m with
              | Some c => (Qmax (nextStartTimeRef (refs a)) clock + chunk_duration c)%Q
              | None => nextStartTimeRef (refs a)
              end
     | None => nextStartTimeRef (refs a)
     end) /\
  (forall m clock c, interrupted m = false -> chunkOf m = Some c ->
     let s := nextSessionId (browser a) in
     let a' := run [ClickStop; ClickStart Connecting; SessionOpen s;
                    SessionMessage s m clock] a in
     scheduled (browser a') =
     scheduled (browser a) ++
       [mkSegment (nextNodeId (browser a))
                  (Qmax (nextStartTimeRef (refs a)) clock) (chunk_duration c)]).
Proof.
  repeat apply conj.
  - pose proof (pview_stopSession a) as E. unfold pview in E. by injection E.
  - intros e He. pose proof (pview_step_other a e He) as E. unfold pview in E.
    by injection E.
  - intros s m clock. unfold step. rewrite refs_render. simpl.
    case_match; [|done]. apply cursor_onmessage.
  - intros m clock c Hi Hc s a'.
    destruct (restart_opens a) as [[cl Hcl] Hp].
    fold s in Hcl, Hp. unfold a'.
    change [ClickStop; ClickStart Connecting; SessionOpen s; SessionMessage s m clock]
      with ([ClickStop; ClickStart Connecting; SessionOpen s] ++ [SessionMessage s m clock]).
    rewrite run_snoc.
    generalize dependent (run [ClickStop; ClickStart Connecting; SessionOpen s] a).
    intros a3 Hcl Hp.
    unfold step. rewrite browser_render. simpl. rewrite Hcl.
    pose proof (pview_enqueue m clock c a3 Hi Hc) as E.
    unfold pview in E, Hp. injection Hp as P1 P2 P3. injection E as _ _ E.
    by rewrite E, P1, P2, P3.
Qed.

Lemma stop_keeps_cursor_witness :
  scheduled (browser
    (run [ClickStop; ClickStart Connecting; SessionOpen 0;
          SessionMessage 0 halfSecond (1 # 4)] initial)) =
  [mkSegment 0 (Qmax 0 (1 # 4)) (1 # 2)].
Proof.
  exact (proj2 (proj2 (proj2 (stop_keeps_cursor initial)))
           halfSecond (1 # 4)%Q (mkChunk "AAAA" (1 # 2)) eq_refl eq_refl).
Defined.

(** C1: for messages that each enqueue one segment (none flushes),
    delivered in order with arbitrary device clock readings: one segment
    is scheduled per message; segment [i] starts at the maximum of the
    cursor on arrival and the device clock, has the duration of its
    buffer, and leaves the cursor at its start plus its duration; so each
    segment starts no earlier than the end of the one before, and with
    durations that are not negative the start times never decrease. *)
Theorem enqueue_chain_no_overlap (a : App) (ms : list (LiveServerMessage * Q)) :
  Forall (fun p => enqueues p.1) ms ->
  let segs := newSegments ms a in
  length segs = length ms /\
  (forall i m clock seg,
     ms !! i = Some (m, clock) -> segs !! i = Some seg ->
     seg_start seg = Qmax (nextStartTimeRef (refs (play (take i ms) a))) clock /\
     (forall c, chunkOf m = Some c -> seg_duration seg = chunk_duration c) /\
     nextStartTimeRef (refs (play (take (S i) ms) a)) =
       (seg_start seg + seg_duration seg)%Q) /\
  (forall i s1 s2,
     segs !! i = Some s1 -> segs !! S i = Some s2 ->
     (seg_start s1 + seg_duration s1 <= seg_start s2)%Q) /\
  (Forall (fun s => (0 <= seg_duration s)%Q) segs ->
   forall i j s1 s2,
     (i <= j)%nat -> segs !! i = Some s1 -> segs !! j = Some s2 ->
     (seg_start s1 <= seg_start s2)%Q).
Proof.
  intros H segs. unfold segs. rewrite (newSegments_chain _ _ H).
  set (l := chain _ _ _).
  assert (forall i s1 s2, l !! i = Some s1 -> l !! S i = Some s2 ->
            (seg_start s1 + seg_duration s1 <= seg_start s2)%Q) as Hadj
    by (intros i s1 s2; by apply chain_no_overlap).
  split; [by apply length_chain|]. split; [|split; [exact Hadj|]].
  - intros i m clock seg Hm Hs. by eapply chain_lookup.
  - intros Hpos i j. induction j as [|j IH]; intros s1 s2 Hij H1 H2.
    + assert (i = 0)%nat as -> by lia. rewrite H1 in H2. injection H2 as ->. lra.
    + destruct (decide (i = S j)) as [->|Hne].
      { rewrite H1 in H2. injection H2 as ->. lra. }
      destruct (l !! j) as [s|] eqn:Hj.
      2:{ apply lookup_ge_None in Hj. apply lookup_lt_Some in H2. lia. }
      assert (seg_start s1 <= seg_start s)%Q as L1 by (apply IH; [lia|done|done]).
      pose proof (Hadj j s s2 Hj H2) as L2.
      pose proof (Forall_lookup_1 _ _ _ _ Hpos Hj) as L3. simpl in L3. lra.
Qed.

Lemma twoHalves_enqueue : Forall (fun p => enqueues p.1) twoHalves.
Proof. repeat constructor; by eexists. Defined.

Lemma enqueue_chain_witness :
  Forall (fun p => enqueues p.1) twoHalves /\
  length (newSegments twoHalves initial) = 2%nat /\
  (forall i s1 s2,
     newSegments twoHalves initial !! i = Some s1 ->
     newSegments twoHalves initial !! S i = Some s2 ->
     (seg_start s1 + seg_duration s1 <= seg_start s2)%Q).
Proof.
  split; [exact twoHalves_enqueue|].
  pose proof (enqueue_chain_no_overlap initial twoHalves twoHalves_enqueue)
    as (H1 & _ & H3 & _).
  split; [exact H1|exact H3].
Defined.

(** ** Reconnection *)

Lemma fire_absent id o a :
  id ∉ (timer_id <$> timers (browser a)) -> fire id o a = a.
Proof.
  intros H. unfold fire.
  destruct (list_find _ _) as [[i t]|] eqn:E; [|done].
  exfalso. apply list_find_Some in E as (Hi & Ht & _).
  apply H. apply list_elem_of_fmap. exists t. split; [done|].
  by eapply list_elem_of_lookup_2.
Qed.

(** [handleAutoReconnect] removes the timer whose handle the ref holds,
    and the handle is not used again. *)
Lemma handleAutoReconnect_cancels_ref cl a i :
  reconnectTimeoutRef (refs a) = Some i ->
  (0 < i < nextTimerId (browser a))%nat ->
  i ∉ (timer_id <$> timers (browser (handleAutoReconnect cl a))).
Proof.
  intros Href Hi Hin. apply list_elem_of_fmap in Hin as (t' & Hid & Hin).
  assert (truthy (Some i) = true) as Htr
    by (simpl; apply negb_true_iff, Nat.eqb_neq; lia).
  assert (t' ∈ timers (browser (with_browser (clearTimeout i) a)) \/
          timer_id t' = nextTimerId (browser a)) as [Hold|Hnew].
  { revert Hin. unfold handleAutoReconnect. rewrite Href. unfold clearIfSet.
    rewrite Htr. set (a1 := stopSession _).
    assert (tview a1 = tview (with_browser (clearTimeout i) a)) as E
      by apply tview_stopSession.
    clearbody a1. unfold tview in E. injection E as E1 E2 _.
    destruct (cl_hasInteracted cl && negb (cl_needsApiKey cl)); cbn.
    - rewrite E1, E2. cbn. intros [H|H]%elem_of_app; [by left|].
      apply list_elem_of_singleton in H as ->. by right.
    - rewrite E1. by left. }
  - cbn in Hold. apply list_elem_of_filter in Hold as [Hne _]. congruence.
  - lia.
Qed.

Lemma handleAutoReconnect_cancels cl a t :
  timers_ok a ->
  t ∈ pendingReconnects a ->
  timer_id t ∉ (timer_id <$> timers (browser (handleAutoReconnect cl a))).
Proof.
  intros (_ & Hb & _ & Href) [Hr Ht]%list_elem_of_filter.
  apply handleAutoReconnect_cancels_ref; [by apply Href|by apply Hb].
Qed.

Lemma onclose_cancels cl a t :
  timers_ok a ->
  t ∈ pendingReconnects a ->
  timer_id t ∉ (timer_id <$> timers (browser (onclose cl false a))).
Proof.
  intros (_ & Hb & _ & Href) [Hr Ht]%list_elem_of_filter.
  unfold onclose. simpl. apply handleAutoReconnect_cancels_ref.
  - rewrite reconnectTimeoutRef_showError. by apply Href.
  - destruct (clock_showError CLOSE_ERROR a) as [_ ->]. specialize (Hb t Ht). lia.
Qed.

Lemma callbacks_stopSession a :
  callbacks (browser (stopSession a)) = callbacks (browser a).
Proof. unfold stopSession. repeat case_match; done. Qed.

Lemma callbacks_clearIfSet r a :
  callbacks (browser (clearIfSet r a)) = callbacks (browser a).
Proof. unfold clearIfSet. repeat case_match; done. Qed.

Lemma callbacks_showError msg a :
  callbacks (browser (showError msg a)) = callbacks (browser a).
Proof. showError_cases. Qed.

Lemma callbacks_onclose cl w a :
  callbacks (browser (onclose cl w a)) = callbacks (browser a).
Proof.
  unfold onclose. destruct (negb w); [|done].
  unfold handleAutoReconnect. set (x := stopSession _).
  assert (callbacks (browser x) = callbacks (browser a)) as E
    by (unfold x; by rewrite callbacks_stopSession, callbacks_clearIfSet,
          callbacks_showError).
  clearbody x. by case_match.
Qed.

Lemma pendingReconnects_clearIfSet_nil r a :
  pendingReconnects a = [] -> pendingReconnects (clearIfSet r a) = [].
Proof.
  intros H. unfold clearIfSet. repeat case_match; try done.
  unfold pendingReconnects in *. cbn. apply elem_of_nil_inv. intros t Ht.
  apply list_elem_of_filter in Ht as [Hr Ht].
  apply list_elem_of_filter in Ht as [_ Ht].
  exact (filter_nil_not_elem_of _ _ t H Hr Ht).
Qed.

Lemma step_TimePasses a dt :
  tview (step a (TimePasses dt)) = tview a /\
  callbacks (browser (step a (TimePasses dt))) = callbacks (browser a).
Proof. unfold step. by rewrite tview_render, browser_render. Qed.

Lemma step_SessionClose a s cl w :
  callbackClosure s a = Some cl ->
  step a (SessionClose s w) = render (onclose cl w a).
Proof. intros H. unfold step. simpl. by rewrite H. Qed.

(** X1: the debounce of [handleAutoReconnect].  In every reachable state
    at most one reconnect timer is pending; [handleAutoReconnect] cancels
    a pending reconnect timer before it schedules a new one, so of two
    abnormal closes that arrive before the first timer fires only the
    timer of the second can fire; and unmounting cancels the pending
    reconnect timer. *)
Theorem reconnect_debounced (a : App) :
  reachable a ->
  (length (pendingReconnects a) <= 1)%nat /\
  (forall cl t, t ∈ pendingReconnects a ->
     timer_id t ∉ (timer_id <$> timers (browser (handleAutoReconnect cl a)))) /\
  (forall s1 s2 dt t o,
     is_Some (callbackClosure s2 a) ->
     t ∈ pendingReconnects (step a (SessionClose s1 false)) ->
     let a2 := run [SessionClose s1 false; TimePasses dt; SessionClose s2 false] a in
     fire (timer_id t) o a2 = a2 /\ (length (pendingReconnects a2) <= 1)%nat) /\
  pendingReconnects (cleanup a) = [].
Proof.
  intros Hr. pose proof (reachable_timers_ok a Hr) as Hok.
  repeat apply conj.
  - by apply timers_ok_at_most_one.
  - intros cl t. by apply handleAutoReconnect_cancels.
  - intros s1 s2 dt t o [cl2 Hs2] Ht a2.
    split; [|apply timers_ok_at_most_one, reachable_timers_ok; by apply reachable_run].
    apply fire_absent. unfold a2.
    change [SessionClose s1 false; TimePasses dt; SessionClose s2 false]
      with ([SessionClose s1 false] ++ [TimePasses dt] ++ [SessionClose s2 false]).
    rewrite app_assoc, !run_snoc.
    change (run [SessionClose s1 false] a) with (step a (SessionClose s1 false)).
    assert (callbackClosure s2 (step a (SessionClose s1 false)) = Some cl2) as Hs2'.
    { rewrite <- Hs2. apply callbackClosure_browser.
      unfold step. rewrite browser_render. simpl.
      case_match; [apply callbacks_onclose|done]. }
    assert (timers_ok (step a (SessionClose s1 false))) as Hok1
      by (by apply reachable_timers_ok, reachable_step).
    generalize dependent (step a (SessionClose s1 false)). clear. intros a1 Ht Hs2 Hok.
    destruct (step_TimePasses a1 dt) as [Ev Ec].
    rewrite (step_SessionClose _ s2 cl2)
      by (rewrite <- Hs2; apply callbackClosure_browser; exact Ec).
    rewrite browser_render. apply onclose_cancels.
    + by apply (timers_ok_frame a1).
    + unfold pendingReconnects in *. unfold tview in Ev. injection Ev as -> _ _. exact Ht.
  - unfold cleanup. apply pendingReconnects_clearIfSet_nil.
    apply pendingReconnects_cleared. by apply timers_ok_stopSession.
Qed.

Lemma failedSecondSession_reachable : reachable (run failedSecondSession initial).
Proof. by exists failedSecondSession. Defined.

Lemma secondSessionOpen_reachable : reachable (run secondSessionOpen initial).
Proof. by exists secondSessionOpen. Defined.

Lemma reconnect_debounced_witness :
  reachable (run secondSessionOpen initial) /\
  mkTimer 2 5000 (Reconnect (mkClosure false false true false))
    ∈ pendingReconnects (step (run secondSessionOpen initial) (SessionClose 1 false)) /\
  (let a2 := run [SessionClose 1 false; TimePasses 1000; SessionClose 1 false]
                 (run secondSessionOpen initial) in
   fire 2 Connecting a2 = a2 /\ (length (pendingReconnects a2) <= 1)%nat) /\
  (length (pendingReconnects (run secondSessionOpen initial)) <= 1)%nat /\
  pendingReconnects (cleanup (run secondSessionOpen initial)) = [].
Proof.
  assert (mkTimer 2 5000 (Reconnect (mkClosure false false true false))
            ∈ pendingReconnects (step (run secondSessionOpen initial) (SessionClose 1 false)))
    as Ht by (vm_compute; apply list_elem_of_here).
  assert (is_Some (callbackClosure 1 (run secondSessionOpen initial))) as Hs
    by (exists (mkClosure false false true false); vm_compute; reflexivity).
  split; [exact secondSessionOpen_reachable|]. split; [exact Ht|].
  pose proof (reconnect_debounced _ secondSessionOpen_reachable) as (H1 & _ & H3 & H4).
  pose proof (H3 1%nat 1%nat 1000%Z _ Connecting Hs Ht) as H3'.
  split; [exact H3'|]. split; [exact H1|exact H4].
Defined.

(** C2 (the code departs from the claim): neither a manual start nor a
    manual stop cancels the pending reconnection, although
    [handleAutoReconnect] and the cleanup of the mount effect both clear
    [reconnectTimeoutRef] before they go on.  After the failure of the
    second session the reconnect timer is pending; a click on the start
    button keeps it, and so does a click on the stop button once the new
    session is open.  The stop leaves the voice state all false; when the
    timer fires five seconds after the failure, a session is started and
    the component is connected again without any request of the user. *)
Theorem manual_start_stop_keep_timer :
  pendingReconnects (run failedSecondSession initial) =
    [mkTimer 2 5000 (Reconnect (mkClosure false false true false))] /\
  pendingReconnects (step (run failedSecondSession initial) (ClickStart Connecting)) =
    pendingReconnects (run failedSecondSession initial) /\
  isConnected (voiceState (state (run manualRestart initial))) = true /\
  pendingReconnects (step (run manualRestart initial) ClickStop) =
    pendingReconnects (run failedSecondSession initial) /\
  voiceState (state (step (run manualRestart initial) ClickStop)) = allFalse /\
  voiceState (state (run restartedAfterStop initial)) = mkVoiceState true false true false /\
  sessionRef (refs (run restartedAfterStop initial)) = Some 3%nat /\
  ~ (forall a, reachable a -> pendingReconnects (step a ClickStop) = []) /\
  ~ (forall a o, reachable a -> pendingReconnects (step a (ClickStart o)) = []).
Proof.
  assert (pendingReconnects (step (run manualRestart initial) ClickStop) =
    [mkTimer 2 5000 (Reconnect (mkClosure false false true false))]) as E
    by (vm_compute; reflexivity).
  do 7 (split; [vm_compute; reflexivity|]).
  split.
  - intros H.
    specialize (H (run manualRestart initial) (ex_intro _ manualRestart eq_refl)).
    rewrite H in E. discriminate E.
  - intros H.
    specialize (H (run failedSecondSession initial) Connecting
                  (ex_intro _ failedSecondSession eq_refl)).
    assert (pendingReconnects
              (step (run failedSecondSession initial) (ClickStart Connecting)) =
            [mkTimer 2 5000 (Reconnect (mkClosure false false true false))]) as E'
      by (vm_compute; reflexivity).
    rewrite H in E'. discriminate E'.
Qed.

(** ** History bound *)

(** Turn completion truncates to six entries. *)
Lemma pushTurn_bound stamp u t prev : (length (pushTurn stamp u t prev) <= 6)%nat.
Proof. unfold pushTurn. apply length_slice_last. Qed.

(** C3 (the code departs from the claim): turn completion keeps the
    history at six entries, but the welcome entry of [onopen] is appended
    without truncation.  After three turns the history holds six entries;
    when a second session opens it holds seven, the first six unchanged. *)
Theorem welcome_entry_exceeds_bound :
  length (transcriptionHistory (state (run (take 9 threeTurnsThenReopen) initial))) = 6%nat /\
  length (transcriptionHistory (state (run threeTurnsThenReopen initial))) = 7%nat /\
  (role <$> transcriptionHistory (state (run threeTurnsThenReopen initial))) =
    [user; assistant; user; assistant; user; assistant; assistant] /\
  take 6 (transcriptionHistory (state (run threeTurnsThenReopen initial))) =
    transcriptionHistory (state (run (take 9 threeTurnsThenReopen) initial)) /\
  (forall a, length (transcriptionHistory (state (onopen a))) =
             S (length (transcriptionHistory (state a)))).
Proof.
  do 4 (split; [vm_compute; reflexivity|]).
  intros a. unfold onopen. cbn. rewrite length_app. simpl. lia.
Qed.

(** ** Consistency of the voice state *)

(** C8 (the code departs from the claim): the reconnect timer calls the
    [startSession] of the render in which the failed session was started.
    Its guard reads that render's [voiceState], in which the session was
    neither connected nor connecting, so it passes although a session is
    connected now, and [isConnecting] is set while [isConnected] is true.
    The attempt also overwrites [sessionRef] while session 2 stays
    open. *)
Theorem stale_guard_breaks_consistency :
  Forall (fun n => consistent (voiceState (state (run (take n staleReconnect) initial))) = true)
         (seq 0 10) /\
  voiceState (state (run staleReconnect initial)) = mkVoiceState true false true true /\
  consistent (voiceState (state (run staleReconnect initial))) = false /\
  sessionRef (refs (run staleReconnect initial)) = Some 3%nat /\
  closedSessions (browser (run staleReconnect initial)) = [0; 1]%nat.
Proof.
  split; [repeat (apply Forall_cons; split; [vm_compute; reflexivity|]); apply Forall_nil_2|].
  split; [vm_compute; reflexivity|].
  split; [vm_compute; reflexivity|].
  split; vm_compute; reflexivity.
Qed.

(** ** Instances *)

Lemma turn_completion_witness :
  userTextRef (refs (onmessage_turnComplete helloTurn)) = "" /\
  transcriptionHistory (state (onmessage_turnComplete initial))
    `suffix_of` transcriptionHistory (state initial).
Proof.
  pose proof (turn_completion helloTurn) as (_ & _ & _ & _ & H5 & _).
  pose proof (turn_completion initial) as (_ & _ & _ & H4 & _).
  split; [exact H5|]. apply H4; reflexivity.
Defined.

(** The scenarios of the specification. *)
Example scenario_welcome :
  transcriptionHistory (state (run [ClickStart Connecting; SessionOpen 0] initial)) =
  [mkEntry "welcome-0" assistant WELCOME].
Proof. vm_compute. reflexivity. Qed.

Example scenario_hello :
  last (transcriptionHistory (state (onmessage_turnComplete helloTurn))) =
    Some (mkEntry "0-u" user "hello") /\
  currentUserText (state (onmessage_turnComplete helloTurn)) = "".
Proof. split; vm_compute; reflexivity. Qed.

Example scenario_two_halves :
  (fun s => (seg_start s, seg_duration s)) <$> newSegments twoHalves initial =
  [(Qmax 0 (1 # 10), 1 # 2); (Qmax (Qmax 0 (1 # 10) + (1 # 2)) (2 # 10), 1 # 2)]%Q.
Proof. reflexivity. Qed.

(** ** The first session *)

(** C4 (the code departs from the claim): when the first session fails
    with a transient error the user has started a session and no
    reauthorization is needed, the transient message is shown and the
    session is closed, but no reconnection is scheduled: the callbacks of
    the session were created by the [startSession] of the first render, and
    the [handleAutoReconnect] they call reads that render's [hasInteracted],
    which is false.  The same error in a later session schedules the
    timer.  Likewise a session started with the start button after a key
    error is not retried: its callbacks captured [needsApiKey] true,
    although [startSession] has reset it. *)
Theorem stale_closure_skips_reconnect :
  callbackClosure 0 (run firstSessionOpen initial) =
    Some (mkClosure false false false false) /\
  hasInteracted (state (run firstSessionOpen initial)) = true /\
  needsApiKey (state (run firstSessionOpen initial)) = false /\
  errorMessage (state (run firstSessionError initial)) = Some SYNC_ERROR /\
  voiceState (state (run firstSessionError initial)) = allFalse /\
  pendingReconnects (run firstSessionError initial) = [] /\
  errorMessage (state (run firstSessionUncleanClose initial)) = Some CLOSE_ERROR /\
  pendingReconnects (run firstSessionUncleanClose initial) = [] /\
  pendingReconnects (run failedSecondSession initial) =
    [mkTimer 2 RECONNECT_DELAY (Reconnect (mkClosure false false true false))] /\
  callbackClosure 2 (run restartAfterKeyError initial) =
    Some (mkClosure false false true true) /\
  hasInteracted (state (run restartAfterKeyError initial)) = true /\
  needsApiKey (state (run restartAfterKeyError initial)) = false /\
  pendingReconnects
    (run (restartAfterKeyError ++ [SessionError 2 (Some "network")]) initial) = [].
Proof.
  repeat (split; [vm_compute; reflexivity|]). vm_compute; reflexivity.
Qed.

(** In general: a failure handled with a closure that captured
    [hasInteracted] false never leaves a reconnect timer pending. *)
Lemma stale_hasInteracted_never_retries cl e a :
  reachable a ->
  cl_hasInteracted cl = false ->
  isKeyError (default "" e) = false ->
  pendingReconnects (onerror cl e a) = [] /\
  pendingReconnects (onclose cl false a) = [].
Proof.
  intros Hr Hcl He.
  destruct (session_failure_classified cl a Hr) as (_ & H2 & H3 & _).
  destruct (H2 e He) as (_ & _ & ->). destruct H3 as (_ & _ & ->).
  unfold oneReconnect. by rewrite Hcl.
Qed.


Example scenario_interrupted :
  let a := onmessage (mkMessage None None false None true) (3 # 4) twoSourcesActive in
  sourcesRef (refs twoSourcesActive) = {[0; 1]}%nat /\
  sourcesRef (refs a) = ∅ /\
  stopped (browser a) = {[0; 1]}%nat /\
  isSpeaking (voiceState (state a)) = false /\
  (seg_start <$> newSegments [(halfSecond, 3 # 4)%Q] a) = [Qmax 0 (3 # 4)].
Proof. repeat split; vm_compute; reflexivity. Qed.

(** * Further properties *)

(** ** The speaking indicator *)

Lemma sview_render a : sview (render a) = sview a.
Proof. unfold sview. by rewrite state_render, refs_render. Qed.

Lemma sview_showError msg a : sview (showError msg a) = sview a.
Proof. showError_cases. Qed.

Lemma sview_clearIfSet r a : sview (clearIfSet r a) = sview a.
Proof. unfold clearIfSet. repeat case_match; done. Qed.

Lemma sview_stopSession a : sview (stopSession a) = (false, ∅).
Proof. unfold stopSession. repeat case_match; done. Qed.

Lemma sview_handleAutoReconnect cl a : sview (handleAutoReconnect cl a) = (false, ∅).
Proof.
  unfold handleAutoReconnect. set (a1 := stopSession _).
  assert (sview a1 = (false, ∅)) as E by apply sview_stopSession.
  clearbody a1. by case_match.
Qed.

Lemma sview_setVoiceState f a :
  (forall v, isSpeaking (f v) = isSpeaking v) -> sview (setVoiceState f a) = sview a.
Proof. intros H. unfold sview. cbn. by rewrite H. Qed.

Lemma sview_setHasInteracted v a : sview (setHasInteracted v a) = sview a.
Proof. done. Qed.
Lemma sview_setNeedsApiKey v a : sview (setNeedsApiKey v a) = sview a.
Proof. done. Qed.
Lemma sview_setErrorMessage v a : sview (setErrorMessage v a) = sview a.
Proof. done. Qed.
Lemma sview_openAudioContexts a : sview (openAudioContexts a) = sview a.
Proof. done. Qed.
Lemma sview_createAudioContexts a : sview (createAudioContexts a) = sview a.
Proof. done. Qed.
Lemma sview_connect cl a : sview (connect cl a) = sview a.
Proof. done. Qed.
Lemma sview_beginConnecting a : sview (beginConnecting a) = sview a.
Proof. unfold beginConnecting. rewrite sview_render. by apply sview_setVoiceState. Qed.

Ltac sview_frame :=
  repeat first
    [ rewrite sview_render | rewrite sview_showError | rewrite sview_stopSession
    | rewrite sview_handleAutoReconnect | rewrite sview_clearIfSet
    | rewrite sview_openAudioContexts | rewrite sview_connect
    | rewrite sview_beginConnecting | rewrite sview_setHasInteracted
    | rewrite sview_setNeedsApiKey | rewrite sview_setErrorMessage
    | rewrite sview_createAudioContexts
    | rewrite (sview_setVoiceState notConnecting) by done
    | rewrite (sview_setVoiceState connecting) by done ].

(** A lifecycle handler leaves the indicator and the active set alone, or
    ends with the indicator off and no active node. *)
Lemma sview_startSession cl o a :
  sview (startSession cl o a) = sview a \/ sview (startSession cl o a) = (false, ∅).
Proof.
  unfold startSession, catchConnectionFailure.
  destruct (cl_isConnecting cl || cl_isConnected cl); [by left|].
  destruct o as [| | | |[]]; sview_frame; auto.
Qed.

Lemma sview_fire id o a :
  sview (fire id o a) = sview a \/ sview (fire id o a) = (false, ∅).
Proof.
  unfold fire. repeat case_match; try (by left); subst.
  destruct (sview_startSession cl o (with_browser (clearTimeout id) a)) as [->| ->]; auto.
Qed.

Lemma sview_onerror cl e a : sview (onerror cl e a) = (false, ∅).
Proof. unfold onerror. case_match; by sview_frame. Qed.

Lemma sview_onclose cl w a :
  sview (onclose cl w a) = sview a \/ sview (onclose cl w a) = (false, ∅).
Proof. unfold onclose. case_match; sview_frame; auto. Qed.

Lemma sview_onopen a : sview (onopen a) = sview a.
Proof. done. Qed.

Lemma sview_transcription m a : sview (onmessage_transcription m a) = sview a.
Proof. unfold onmessage_transcription. repeat case_match; done. Qed.

Lemma speaking_ok_frame a a' : sview a' = sview a -> speaking_ok a -> speaking_ok a'.
Proof. unfold speaking_ok, sview. by intros [= -> ->]. Qed.

Lemma speaking_ok_off a : sview a = (false, ∅) -> speaking_ok a.
Proof. unfold speaking_ok, sview. intros [= -> ->]. split; done. Qed.

Lemma speaking_ok_either a a' :
  sview a' = sview a \/ sview a' = (false, ∅) -> speaking_ok a -> speaking_ok a'.
Proof. intros [E|E] H; [by eapply speaking_ok_frame|by apply speaking_ok_off]. Qed.

Lemma speaking_ok_onmessage m clock a : speaking_ok a -> speaking_ok (onmessage m clock a).
Proof.
  intros H. unfold onmessage.
  set (a1 := if turnComplete m then _ else _).
  assert (sview a1 = sview a) as E.
  { unfold a1. destruct (turnComplete m); [|apply sview_transcription].
    transitivity (sview (onmessage_transcription m a)); [done|apply sview_transcription]. }
  apply (speaking_ok_frame _ _ E) in H. clearbody a1.
  set (a2 := match inlineData m with Some _ => _ | None => _ end).
  assert (speaking_ok a2) as H2.
  { unfold a2. destruct (inlineData m) as [c|]; [|done].
    destruct (nonEmpty (chunk_data c)); [|done].
    unfold speaking_ok. cbn. split; [|done]. intros _ E'.
    assert (nextNodeId (browser a1) ∈ (∅ : gset nat)) as Hin
      by (rewrite <- E'; apply elem_of_union_r, elem_of_singleton; done).
    by apply not_elem_of_empty in Hin. }
  clearbody a2. destruct (interrupted m); [|done]. by apply speaking_ok_off.
Qed.

Lemma speaking_ok_onended n a : speaking_ok a -> speaking_ok (onended n a).
Proof.
  unfold speaking_ok, onended. intros H. cbn.
  destruct (size (sourcesRef (refs a) ∖ {[n]}) =? 0)%nat eqn:E; cbn.
  - apply Nat.eqb_eq, size_empty_inv in E. apply leibniz_equiv in E. rewrite E.
    split; done.
  - rewrite H. apply Nat.eqb_neq in E. split; intros H'.
    + intros E'. apply E. rewrite E'. apply size_empty.
    + intros E'. apply H'. rewrite E'. apply empty_difference_L.
Qed.

Lemma speaking_ok_handle e a : speaking_ok a -> speaking_ok (handle e a).
Proof.
  intros H. destruct e; simpl.
  - revert H. apply speaking_ok_either, sview_startSession.
  - apply speaking_ok_off, sview_stopSession.
  - unfold handleKeySelection. case_match.
    + eapply speaking_ok_either; [apply sview_startSession|].
      revert H. by apply speaking_ok_frame.
    + revert H. apply speaking_ok_frame, sview_showError.
  - by case_match.
  - case_match; [by apply speaking_ok_onmessage|done].
  - case_match; [apply speaking_ok_off, sview_onerror|done].
  - case_match; [|done]. revert H. apply speaking_ok_either, sview_onclose.
  - by apply speaking_ok_onended.
  - revert H. apply speaking_ok_either, sview_fire.
  - done.
  - apply speaking_ok_off. unfold cleanup. by sview_frame.
Qed.

(** X2: in every state the component can reach, the speaking indicator is
    on exactly when at least one source node is active: enqueuing a chunk
    turns it on and adds the node, the end of the last active node turns
    it off, and a flush or a stop empties the set and turns it off.  The
    states are those between handlers: inside [onmessage], at the [await]
    of [decodeAudioData], the indicator is already on and the node not
    yet added. *)
Theorem speaking_iff_source_active (a : App) :
  reachable a ->
  isSpeaking (voiceState (state a)) = true <-> sourcesRef (refs a) <> ∅.
Proof.
  intros [es <-]. change (speaking_ok (run es initial)).
  assert (speaking_ok initial) as H by (split; done).
  revert H. generalize initial. induction es as [|e es IH]; intros a H; [done|].
  simpl. apply IH. unfold step.
  eapply speaking_ok_frame; [apply sview_render|]. by apply speaking_ok_handle.
Qed.

Lemma speakingSession_reachable : reachable (run speakingSession initial).
Proof. by exists speakingSession. Defined.

Lemma speaking_iff_witness :
  reachable (run speakingSession initial) /\
  sourcesRef (refs (run speakingSession initial)) = {[0%nat]} /\
  (isSpeaking (voiceState (state (run speakingSession initial))) = true <->
   sourcesRef (refs (run speakingSession initial)) <> ∅).
Proof.
  split; [exact speakingSession_reachable|]. split; [vm_compute; reflexivity|].
  exact (speaking_iff_source_active _ speakingSession_reachable).
Defined.

(** ** The transcript *)

Lemma append_nil_r s : s +:+ "" = s.
Proof.
  induction s as [|c s IH]; [done|].
  change (String c (s +:+ "") = String c s). by rewrite IH.
Qed.

Lemma append_assoc s1 s2 s3 : (s1 +:+ s2) +:+ s3 = s1 +:+ s2 +:+ s3.
Proof.
  induction s1 as [|c s1 IH]; [done|].
  change (String c ((s1 +:+ s2) +:+ s3) = String c (s1 +:+ s2 +:+ s3)). by rewrite IH.
Qed.

Lemma trview_render a : trview (render a) = trview a.
Proof. unfold trview, aview. by rewrite state_render, refs_render. Qed.

Lemma trview_showError msg a : trview (showError msg a) = trview a.
Proof. showError_cases. Qed.

Lemma trview_clearIfSet r a : trview (clearIfSet r a) = trview a.
Proof. unfold clearIfSet. repeat case_match; done. Qed.

Lemma trview_stopSession a : trview (stopSession a) = trview a.
Proof. unfold stopSession. repeat case_match; done. Qed.

Lemma trview_handleAutoReconnect cl a : trview (handleAutoReconnect cl a) = trview a.
Proof.
  unfold handleAutoReconnect. set (a1 := stopSession _).
  assert (trview a1 = trview a) as E
    by (unfold a1; by rewrite trview_stopSession, trview_clearIfSet).
  clearbody a1. by case_match.
Qed.

Lemma trview_setVoiceState f a : trview (setVoiceState f a) = trview a.
Proof. done. Qed.
Lemma trview_setHasInteracted v a : trview (setHasInteracted v a) = trview a.
Proof. done. Qed.
Lemma trview_setNeedsApiKey v a : trview (setNeedsApiKey v a) = trview a.
Proof. done. Qed.
Lemma trview_setErrorMessage v a : trview (setErrorMessage v a) = trview a.
Proof. done. Qed.
Lemma trview_openAudioContexts a : trview (openAudioContexts a) = trview a.
Proof. done. Qed.
Lemma trview_connect cl a : trview (connect cl a) = trview a.
Proof. done. Qed.
Lemma trview_createAudioContexts a : trview (createAudioContexts a) = trview a.
Proof. done. Qed.
Lemma trview_clearTimeout id a : trview (with_browser (clearTimeout id) a) = trview a.
Proof. done. Qed.

Ltac trview_frame :=
  unfold beginConnecting;
  repeat first
    [ rewrite trview_render | rewrite trview_showError | rewrite trview_stopSession
    | rewrite trview_handleAutoReconnect | rewrite trview_clearIfSet
    | rewrite trview_openAudioContexts | rewrite trview_connect
    | rewrite trview_setHasInteracted | rewrite trview_setNeedsApiKey
    | rewrite trview_setErrorMessage | rewrite trview_setVoiceState
    | rewrite trview_clearTimeout | rewrite trview_createAudioContexts ].

Lemma trview_startSession cl o a : trview (startSession cl o a) = trview a.
Proof.
  unfold startSession, catchConnectionFailure.
  destruct (cl_isConnecting cl || cl_isConnected cl); [done|].
  destruct o as [| | | |[]]; by trview_frame.
Qed.

Lemma trview_fire id o a : trview (fire id o a) = trview a.
Proof.
  unfold fire. repeat case_match; try done; subst.
  all: rewrite ?trview_startSession; by trview_frame.
Qed.

Lemma trview_onerror cl e a : trview (onerror cl e a) = trview a.
Proof. unfold onerror. case_match; by trview_frame. Qed.

Lemma trview_onclose cl w a : trview (onclose cl w a) = trview a.
Proof. unfold onclose. case_match; by trview_frame. Qed.

Lemma trview_cleanup a : trview (cleanup a) = trview a.
Proof. unfold cleanup. by trview_frame. Qed.

Lemma trview_handleKeySelection av o a : trview (handleKeySelection av o a) = trview a.
Proof.
  unfold handleKeySelection. case_match; rewrite ?trview_startSession; by trview_frame.
Qed.

Lemma trview_onended n a : trview (onended n a) = trview a.
Proof. unfold onended. by case_match. Qed.

Lemma trview_onopen a :
  trview (onopen a) =
  (transcriptionHistory (state a) ++
     [mkEntry ("welcome-" +:+ pretty (now (browser a))) assistant WELCOME], aview a).
Proof. done. Qed.

(** What a message does to the transcript. *)
Lemma trview_onmessage m clock a :
  let u := userTextRef (refs a) +:+ heardOf m in
  let t := assistantTextRef (refs a) +:+ saidOf m in
  trview (onmessage m clock a) =
  if turnComplete m
  then (pushTurn (now (browser a)) u t (transcriptionHistory (state a)), ("", "", "", ""))
  else (transcriptionHistory (state a),
        (match outputTranscription m, inputTranscription m with
         | None, Some _ => u
         | _, _ => currentUserText (state a)
         end,
         match outputTranscription m with
         | Some _ => t
         | None => currentAssistantText (state a)
         end, u, t)).
Proof.
  intros u t. unfold onmessage.
  set (a1 := if turnComplete m then _ else _).
  set (a2 := match inlineData m with Some _ => _ | None => _ end).
  assert (trview a2 = trview a1) as E2.
  { unfold a2. destruct (inlineData m) as [c|]; [|done].
    by destruct (nonEmpty (chunk_data c)). }
  transitivity (trview a2); [by destruct (interrupted m)|].
  rewrite E2. unfold a1, u, t, heardOf, saidOf, onmessage_transcription.
  destruct (outputTranscription m) as [o|], (inputTranscription m) as [i|],
    (turnComplete m); cbn; rewrite ?append_nil_r; reflexivity.
Qed.

Lemma mirrored_frame a a' : aview a' = aview a -> mirrored a -> mirrored a'.
Proof. unfold mirrored, aview. intros [= E1 E2 E3 E4]. by rewrite E1, E2, E3, E4. Qed.

Lemma aview_trview a a' : trview a' = trview a -> aview a' = aview a.
Proof. intros E. exact (f_equal snd E). Qed.

Lemma aview_step_other a e : isMessage e = false -> aview (step a e) = aview a.
Proof.
  intros H. unfold step.
  transitivity (aview (handle e a)); [apply aview_trview, trview_render|].
  destruct e; try done; simpl.
  - apply aview_trview, trview_startSession.
  - apply aview_trview, trview_stopSession.
  - apply aview_trview, trview_handleKeySelection.
  - by case_match.
  - case_match; [apply aview_trview, trview_onerror|done].
  - case_match; [apply aview_trview, trview_onclose|done].
  - apply aview_trview, trview_onended.
  - apply aview_trview, trview_fire.
  - apply aview_trview, trview_cleanup.
Qed.

Lemma mirrored_onmessage m clock a : mirrored a -> mirrored (onmessage m clock a).
Proof.
  intros [H1 H2]. pose proof (trview_onmessage m clock a) as E. cbv zeta in E.
  apply (f_equal snd) in E. unfold trview in E. cbn [snd] in E.
  unfold mirrored. unfold aview in E.
  destruct (turnComplete m).
  - injection E as -> -> -> ->. done.
  - injection E as E1 E2 E3 E4. rewrite E1, E2, E3, E4, H1, H2.
    unfold heardOf, saidOf.
    destruct (outputTranscription m), (inputTranscription m);
      rewrite ?append_nil_r; done.
Qed.

Lemma mirrored_step a e : mirrored a -> mirrored (step a e).
Proof.
  intros H. destruct (isMessage e) eqn:E.
  - destruct e; try done. unfold step. simpl.
    eapply mirrored_frame; [apply aview_trview, trview_render|].
    case_match; [by apply mirrored_onmessage|done].
  - revert H. apply mirrored_frame. by apply aview_step_other.
Qed.

Lemma reachable_mirrored a : reachable a -> mirrored a.
Proof.
  intros [es <-].
  assert (mirrored initial) as H by done.
  revert H. generalize initial. induction es as [|e es IH]; intros a H; [done|].
  simpl. apply IH. by apply mirrored_step.
Qed.

(** X3: in every state the component can reach, the live preview shows
    exactly what the two accumulators hold: [currentUserText] equals
    [userTextRef] and [currentAssistantText] equals [assistantTextRef]. *)
Theorem preview_mirrors_accumulators (a : App) :
  reachable a ->
  currentUserText (state a) = userTextRef (refs a) /\
  currentAssistantText (state a) = assistantTextRef (refs a).
Proof. apply reachable_mirrored. Qed.

Lemma preview_mirrors_witness :
  reachable (run [ClickStart Connecting; SessionOpen 0;
                  SessionMessage 0 (userSays "hel") 0] initial) /\
  userTextRef (refs (run [ClickStart Connecting; SessionOpen 0;
                          SessionMessage 0 (userSays "hel") 0] initial)) = "hel" /\
  currentUserText (state (run [ClickStart Connecting; SessionOpen 0;
                               SessionMessage 0 (userSays "hel") 0] initial)) =
  userTextRef (refs (run [ClickStart Connecting; SessionOpen 0;
                          SessionMessage 0 (userSays "hel") 0] initial)).
Proof.
  assert (reachable (run [ClickStart Connecting; SessionOpen 0;
                          SessionMessage 0 (userSays "hel") 0] initial)) as H
    by (by eexists).
  split; [exact H|]. split; [vm_compute; reflexivity|].
  exact (proj1 (preview_mirrors_accumulators _ H)).
Defined.

Lemma now_onmessage m clock a : now (browser (onmessage m clock a)) = now (browser a).
Proof.
  unfold onmessage, onmessage_transcription, onmessage_turnComplete,
    onmessage_audio, onmessage_interrupted.
  repeat case_match; done.
Qed.

(** The accumulators after a run of messages none of which completes the
    turn. *)
Lemma accumulators_play ms a :
  Forall (fun p => turnComplete p.1 = false) ms ->
  transcriptionHistory (state (play ms a)) = transcriptionHistory (state a) /\
  userTextRef (refs (play ms a)) = userTextRef (refs a) +:+ joined (heardOf <$> ms.*1) /\
  assistantTextRef (refs (play ms a)) = assistantTextRef (refs a) +:+ joined (saidOf <$> ms.*1) /\
  now (browser (play ms a)) = now (browser a).
Proof.
  revert a. induction ms as [|[m clock] ms IH]; intros a H.
  - simpl. by rewrite !append_nil_r.
  - apply Forall_cons in H as [Hm H]. simpl in Hm.
    change (play ((m, clock) :: ms) a) with (play ms (onmessage m clock a)).
    destruct (IH (onmessage m clock a) H) as (-> & -> & -> & ->).
    pose proof (trview_onmessage m clock a) as E. cbv zeta in E. rewrite Hm in E.
    unfold trview, aview in E. injection E as -> _ _ -> ->.
    rewrite now_onmessage. simpl. by rewrite !append_assoc.
Qed.

Lemma joined_snoc l s : joined (l ++ [s]) = joined l +:+ s.
Proof.
  induction l as [|x l IH]; simpl.
  - by rewrite append_nil_r.
  - by rewrite IH, append_assoc.
Qed.

(** X4: the fragments of a turn are collected by speaker.  Over a run of
    messages none of which completes the turn, each accumulator grows by
    the fragments of its side, in arrival order (an output transcription
    is looked at first, an input transcription only in a message without
    one); the message that completes the turn appends one user entry with
    the whole user text, then one assistant entry with the whole assistant
    text, whatever the order in which the fragments arrived, keeps the
    last six entries and clears accumulators and live preview. *)
Theorem turn_collects_fragments (a : App) (ms : list (LiveServerMessage * Q))
    (m : LiveServerMessage) (clock : Q) :
  Forall (fun p => turnComplete p.1 = false) ms ->
  turnComplete m = true ->
  let u := userTextRef (refs a) +:+ joined (heardOf <$> (ms.*1 ++ [m])) in
  let t := assistantTextRef (refs a) +:+ joined (saidOf <$> (ms.*1 ++ [m])) in
  let a' := onmessage m clock (play ms a) in
  userTextRef (refs (play ms a)) = userTextRef (refs a) +:+ joined (heardOf <$> ms.*1) /\
  assistantTextRef (refs (play ms a)) =
    assistantTextRef (refs a) +:+ joined (saidOf <$> ms.*1) /\
  transcriptionHistory (state a') =
    slice_last 6 (transcriptionHistory (state a) ++ turnEntries (now (browser a)) u t) /\
  aview a' = ("", "", "", "").
Proof.
  intros Hms Hm u t a'.
  destruct (accumulators_play ms a Hms) as (E1 & E2 & E3 & E4).
  split; [done|]. split; [done|].
  pose proof (trview_onmessage m clock (play ms a)) as E. cbv zeta in E.
  rewrite Hm, E1, E2, E3, E4 in E. fold a' in E.
  pose proof (f_equal fst E) as Eh. pose proof (f_equal snd E) as Ea.
  unfold trview in Eh, Ea. cbn [fst snd] in Eh, Ea. split; [|done].
  rewrite Eh, pushTurn_entries. unfold u, t.
  rewrite !fmap_app.
  change (heardOf <$> [m]) with [heardOf m]. change (saidOf <$> [m]) with [saidOf m].
  by rewrite !joined_snoc, !append_assoc.
Qed.

Lemma turn_collects_witness :
  Forall (fun p => turnComplete p.1 = false) interleavedTurn /\
  turnComplete turnDone = true /\
  transcriptionHistory (state (onmessage turnDone 0 (play interleavedTurn initial))) =
    [mkEntry "0-u" user "turn on the lights"; mkEntry "0-a" assistant "Turning them on."].
Proof.
  assert (Forall (fun p => turnComplete p.1 = false) interleavedTurn) as H
    by (repeat constructor).
  split; [exact H|]. split; [reflexivity|].
  destruct (turn_collects_fragments initial interleavedTurn turnDone 0 H eq_refl)
    as (_ & _ & E & _).
  rewrite E. vm_compute. reflexivity.
Defined.

Lemma aview_run_other es a :
  Forall (fun e => isMessage e = false) es -> aview (run es a) = aview a.
Proof.
  revert a. induction es as [|e es IH]; intros a H; [done|].
  apply Forall_cons in H as [He H]. simpl. rewrite (IH _ H).
  by apply aview_step_other.
Qed.

(** X5: only inbound messages change the accumulators and the live
    preview.  Stopping, starting, the opening of a session, errors,
    closes, timers and unmounting leave them as they are, so the text of
    a turn that was not completed before a stop is still there when the
    next session completes its first turn, at the head of that turn's
    entries. *)
Theorem partial_turn_survives (a : App) (es : list Event) :
  Forall (fun e => isMessage e = false) es ->
  aview (run es a) = aview a /\
  (forall s m clock,
     is_Some (callbackClosure s (run es a)) -> turnComplete m = true ->
     transcriptionHistory (state (step (run es a) (SessionMessage s m clock))) =
     slice_last 6 (transcriptionHistory (state (run es a)) ++
       turnEntries (now (browser (run es a)))
         (userTextRef (refs a) +:+ heardOf m)
         (assistantTextRef (refs a) +:+ saidOf m))).
Proof.
  intros H. pose proof (aview_run_other es a H) as E.
  split; [done|]. intros s m clock [cl Hs] Hm.
  unfold step. rewrite state_render. simpl. rewrite Hs.
  pose proof (trview_onmessage m clock (run es a)) as Em. cbv zeta in Em.
  rewrite Hm in Em. unfold trview in Em. injection Em as -> _.
  rewrite pushTurn_entries. unfold aview in E. by injection E as _ _ -> ->.
Qed.

Lemma partial_turn_witness :
  Forall (fun e => isMessage e = false) restartMidTurn /\
  userTextRef (refs (run restartMidTurn helloTurn)) = "hello".
Proof.
  assert (Forall (fun e => isMessage e = false) restartMidTurn) as H
    by (repeat constructor).
  split; [exact H|].
  pose proof (proj1 (partial_turn_survives helloTurn restartMidTurn H)) as E.
  exact (f_equal (fun v => v.1.2) E).
Defined.

(** *** The history on screen *)

Lemma history_ok_frame a a' : trview a' = trview a -> history_ok a -> history_ok a'.
Proof.
  intros E. pose proof (f_equal fst E) as E'. unfold trview in E'. cbn [fst] in E'.
  unfold history_ok. by rewrite E'.
Qed.

Lemma history_ok_pushTurn stamp u t prev :
  Forall (fun e => nonEmpty (text e) = true) prev ->
  Forall (fun e => nonEmpty (text e) = true) (pushTurn stamp u t prev).
Proof.
  intros H. rewrite pushTurn_entries. unfold slice_last. apply Forall_drop.
  apply Forall_app. split; [done|]. unfold turnEntries.
  apply Forall_app. split; case_match; by repeat constructor.
Qed.

Lemma history_ok_step a e : history_ok a -> history_ok (step a e).
Proof.
  intros H. unfold step. eapply history_ok_frame; [apply trview_render|].
  destruct e; simpl.
  - revert H. apply history_ok_frame, trview_startSession.
  - revert H. apply history_ok_frame, trview_stopSession.
  - revert H. apply history_ok_frame, trview_handleKeySelection.
  - case_match; [|done]. unfold history_ok, onopen. cbn.
    apply Forall_app. split; [done|]. by repeat constructor.
  - case_match; [|done]. unfold history_ok.
    pose proof (f_equal fst (trview_onmessage m clock a)) as E. cbv zeta in E.
    unfold trview in E. cbn [fst] in E. rewrite E.
    destruct (turnComplete m); [by apply history_ok_pushTurn|done].
  - case_match; [|done]. revert H. apply history_ok_frame, trview_onerror.
  - case_match; [|done]. revert H. apply history_ok_frame, trview_onclose.
  - revert H. apply history_ok_frame, trview_onended.
  - revert H. apply history_ok_frame, trview_fire.
  - done.
  - revert H. apply history_ok_frame, trview_cleanup.
Qed.

Lemma reachable_history_ok a : reachable a -> history_ok a.
Proof.
  intros [es <-].
  assert (history_ok initial) as H by constructor.
  revert H. generalize initial. induction es as [|e es IH]; intros a H; [done|].
  simpl. apply IH. by apply history_ok_step.
Qed.

Lemma entryView_nonempty e :
  nonEmpty (text e) = true -> Transcription (historyProps e) = entryView e.
Proof.
  unfold Transcription, historyProps, entryView. intros H.
  destruct (role e); simpl; by rewrite H.
Qed.

(** X6: what the transcript layer shows in a reachable state.  No history
    entry has an empty text, so every history entry is rendered dimmed
    with exactly one bubble, on the side of its role and with its text,
    in history order; after the history comes the live preview, at full
    opacity, exactly when one of the accumulators is not empty. *)
Theorem history_entries_one_bubble (a : App) :
  reachable a ->
  let h := transcriptionHistory (state a) in
  let layer := transcriptLayer (state a) in
  Forall (fun e => text e <> "") h /\
  take (length h) layer = entryView <$> h /\
  bubbles <$> take (length h) layer = (fun e => [(role e, text e)]) <$> h /\
  drop (length h) layer =
    if nonEmpty (userTextRef (refs a)) || nonEmpty (assistantTextRef (refs a))
    then [mkView "opacity-100 scale-100"
            (if nonEmpty (userTextRef (refs a)) then Some (userTextRef (refs a)) else None)
            (if nonEmpty (assistantTextRef (refs a))
             then Some (assistantTextRef (refs a)) else None)]
    else [].
Proof.
  intros Hr h layer.
  pose proof (reachable_history_ok a Hr) as Hh. fold h in Hh.
  destruct (reachable_mirrored a Hr) as [Eu Ea].
  assert (Transcription ∘ historyProps <$> h = entryView <$> h) as Eh.
  { apply Forall_fmap_ext_1. eapply Forall_impl; [exact Hh|].
    intros e He. by apply entryView_nonempty. }
  assert (length (entryView <$> h) = length h) as El by apply length_fmap.
  unfold layer, transcriptLayer. fold h. rewrite Eh, Eu, Ea.
  repeat apply conj.
  - eapply Forall_impl; [exact Hh|]. intros e He E. simpl in He. by rewrite E in He.
  - rewrite <- El at 1. by rewrite take_app_length.
  - rewrite <- El at 1. rewrite take_app_length, <- list_fmap_compose.
    apply Forall_fmap_ext_1. eapply Forall_impl; [exact Hh|].
    intros e He. unfold entryView, bubbles. simpl. by destruct (role e).
  - rewrite <- El at 1. rewrite drop_app_length. by case_match.
Qed.

Lemma history_entries_witness :
  reachable (run (take 9 threeTurnsThenReopen) initial) /\
  length (take 6 (transcriptLayer (state (run (take 9 threeTurnsThenReopen) initial)))) = 6%nat /\
  bubbles <$> take 6 (transcriptLayer (state (run (take 9 threeTurnsThenReopen) initial))) =
    [[(user, "one")]; [(assistant, "uno")]; [(user, "two")]; [(assistant, "dos")];
     [(user, "three")]; [(assistant, "tres")]].
Proof.
  assert (reachable (run (take 9 threeTurnsThenReopen) initial)) as H by (by eexists).
  split; [exact H|].
  destruct (history_entries_one_bubble _ H) as (_ & _ & E & _).
  split; [vm_compute; reflexivity|].
  exact E.
Defined.

(** ** Sessions and audio contexts *)

Lemma rview_render a : rview (render a) = rview a.
Proof. unfold rview. by rewrite refs_render, browser_render. Qed.

Lemma rview_showError msg a : rview (showError msg a) = rview a.
Proof. showError_cases. Qed.

Lemma rview_clearIfSet r a : rview (clearIfSet r a) = rview a.
Proof. unfold clearIfSet. repeat case_match; done. Qed.

Lemma rview_stopSession a : rview (stopSession a) = applyOp (rview a) Release.
Proof.
  unfold stopSession, rview.
  destruct (sessionRef (refs a)) eqn:E1; cbn;
    destruct (audioContextsRef (refs a)) eqn:E2; cbn;
    rewrite ?E1, ?E2, ?app_nil_r; reflexivity.
Qed.

Lemma rview_handleAutoReconnect cl a :
  rview (handleAutoReconnect cl a) = applyOp (rview a) Release.
Proof.
  unfold handleAutoReconnect. set (a1 := stopSession _).
  assert (rview a1 = applyOp (rview a) Release) as E
    by (unfold a1; by rewrite rview_stopSession, rview_clearIfSet).
  clearbody a1. by case_match.
Qed.

Lemma rview_with_state f a : rview (with_state f a) = rview a.
Proof. done. Qed.

Lemma rview_openAudioContexts a :
  rview (openAudioContexts a) = applyOp (rview a) OpenContexts.
Proof. done. Qed.

Lemma rview_connect cl a : rview (connect cl a) = applyOp (rview a) (Connect cl).
Proof. done. Qed.

Lemma rview_createAudioContexts a :
  rview (createAudioContexts a) = applyOp (rview a) CreateContexts.
Proof. done. Qed.

Lemma rview_clearTimeout id a : rview (with_browser (clearTimeout id) a) = rview a.
Proof. done. Qed.

Ltac rview_frame :=
  unfold beginConnecting, catchConnectionFailure,
    setVoiceState, setNeedsApiKey, setHasInteracted, setErrorMessage;
  repeat first
    [ rewrite rview_render | rewrite rview_showError | rewrite rview_stopSession
    | rewrite rview_handleAutoReconnect | rewrite rview_clearIfSet
    | rewrite rview_openAudioContexts | rewrite rview_connect
    | rewrite rview_createAudioContexts
    | rewrite rview_with_state | rewrite rview_clearTimeout ].

Lemma rview_startSession cl o a :
  rview (startSession cl o a) = foldl applyOp (rview a) (startResourceOps cl o).
Proof.
  unfold startSession, startResourceOps.
  destruct (cl_isConnecting cl || cl_isConnected cl); [done|].
  destruct o as [| | | |[]]; by rview_frame.
Qed.

Lemma startResourceOps_passes_eq cl o : passes cl -> startResourceOps cl o = attemptOps cl o.
Proof. intros H. unfold startResourceOps. by rewrite H. Qed.

Lemma rview_onmessage m clock a : rview (onmessage m clock a) = rview a.
Proof.
  unfold onmessage, onmessage_transcription, onmessage_turnComplete,
    onmessage_audio, onmessage_interrupted.
  repeat case_match; done.
Qed.

Lemma rview_onended n a : rview (onended n a) = rview a.
Proof. unfold onended. by case_match. Qed.

Lemma rview_cleanup a : rview (cleanup a) = applyOp (rview a) Release.
Proof. unfold cleanup. by rview_frame. Qed.

Lemma fire_dueTimer id o a :
  fire id o a =
  match dueTimer id (timers (browser a)) (now (browser a)) with
  | Some t =>
      let a := with_browser (clearTimeout id) a in
      match timer_action t with
      | ClearErrorMessage => setErrorMessage None a
      | Reconnect cl => startSession cl o a
      end
  | None => a
  end.
Proof.
  unfold fire, dueTimer. destruct (list_find _ _) as [[i t]|]; [|done].
  by destruct (timer_due t <=? now (browser a))%Z.
Qed.

Lemma rview_fire id o a :
  rview (fire id o a) = foldl applyOp (rview a) (resourceOps (TimerFires id o) a).
Proof.
  rewrite fire_dueTimer. cbn [resourceOps].
  destruct (dueTimer id (timers (browser a)) (now (browser a))) as [t|]; [|done].
  cbv zeta. destruct (timer_action t) as [|cl]; [done|].
  rewrite rview_startSession. by rview_frame.
Qed.

(** Every event acts on sessions and contexts as the operations of
    [resourceOps]. *)
Lemma rview_handle e a :
  rview (handle e a) = foldl applyOp (rview a) (resourceOps e a).
Proof.
  destruct e; cbn [handle resourceOps].
  - apply rview_startSession.
  - apply rview_stopSession.
  - unfold handleKeySelection. destruct available.
    + rewrite rview_startSession. by rview_frame.
    + apply rview_showError.
  - by destruct (callbackClosure s a).
  - destruct (callbackClosure s a); [apply rview_onmessage|done].
  - destruct (callbackClosure s a) as [cl|]; [|done]. unfold onerror.
    destruct (isKeyError (default "" e)); by rview_frame.
  - destruct (callbackClosure s a) as [cl|]; [|done]. unfold onclose.
    destruct (negb wasClean); by rview_frame.
  - apply rview_onended.
  - apply rview_fire.
  - done.
  - apply rview_cleanup.
Qed.

Lemma rview_run es a : exists ops, rview (run es a) = foldl applyOp (rview a) ops.
Proof.
  revert a. induction es as [|e es IH]; intros a; [by exists []|].
  simpl. destruct (IH (step a e)) as [ops2 E2].
  exists (resourceOps e a ++ ops2). rewrite E2. unfold step.
  by rewrite rview_render, rview_handle, foldl_app.
Qed.

Lemma resources_ok_applyOp r op : resources_ok r -> resources_ok (applyOp r op).
Proof.
  intros (H1 & H2 & H3 & H4 & H5 & H6). destruct op; unfold resources_ok; simpl.
  - repeat apply conj; try done.
    + destruct (r_session r) as [s|]; simpl; [|by rewrite app_nil_r].
      apply NoDup_app. split; [done|]. split; [|apply NoDup_singleton].
      intros x Hx ->%list_elem_of_singleton. by destruct (H5 s eq_refl).
    + destruct (r_contexts r) as [c|]; simpl; [|by rewrite app_nil_r].
      apply NoDup_app. split; [done|]. split; [|apply NoDup_singleton].
      intros x Hx ->%list_elem_of_singleton. by destruct (H6 c eq_refl).
    + intros s [Hs|Hs]%elem_of_app; [by apply H3|].
      destruct (r_session r) as [s'|]; simpl in Hs.
      * apply list_elem_of_singleton in Hs as ->. by destruct (H5 s' eq_refl).
      * by apply elem_of_nil in Hs.
    + intros c [Hc|Hc]%elem_of_app; [by apply H4|].
      destruct (r_contexts r) as [c'|]; simpl in Hc.
      * apply list_elem_of_singleton in Hc as ->. by destruct (H6 c' eq_refl).
      * by apply elem_of_nil in Hc.
  - repeat apply conj; try done.
    + intros c Hc. specialize (H4 c Hc). lia.
    + intros c Hc. destruct (H6 c Hc). split; [lia|done].
  - repeat apply conj; try done.
    + intros c Hc. specialize (H4 c Hc). lia.
    + intros c [= <-]. split; [lia|]. intros Hc. specialize (H4 _ Hc). lia.
  - repeat apply conj; try done.
    + intros s Hs. specialize (H3 s Hs). lia.
    + intros s [= <-]. split; [lia|]. intros Hs. specialize (H3 _ Hs). lia.
Qed.

Lemma resources_ok_ops ops r : resources_ok r -> resources_ok (foldl applyOp r ops).
Proof.
  revert r. induction ops as [|op ops IH]; intros r H; [done|].
  simpl. by apply IH, resources_ok_applyOp.
Qed.

Lemma resources_ok_initial : resources_ok (rview initial).
Proof.
  unfold resources_ok. simpl. repeat apply conj; try done; try apply NoDup_nil_2.
  - intros s Hs. by apply elem_of_nil in Hs.
  - intros s Hs. by apply elem_of_nil in Hs.
Qed.

Lemma reachable_resources_ok a : reachable a -> resources_ok (rview a).
Proof.
  intros [es <-]. destruct (rview_run es initial) as [ops ->].
  apply resources_ok_ops, resources_ok_initial.
Qed.

(** X14: in every state the component can reach, no session and no pair of
    audio contexts has been closed twice, and the session and the
    contexts the refs hold have not been closed. *)
Theorem resources_closed_once (a : App) :
  reachable a ->
  NoDup (closedSessions (browser a)) /\
  NoDup (closedContexts (browser a)) /\
  (forall s, sessionRef (refs a) = Some s -> s ∉ closedSessions (browser a)) /\
  (forall c, audioContextsRef (refs a) = Some c -> c ∉ closedContexts (browser a)).
Proof.
  intros Hr. destruct (reachable_resources_ok a Hr) as (H1 & H2 & _ & _ & H5 & H6).
  repeat apply conj; try done.
  - intros s Hs. by destruct (H5 s Hs).
  - intros c Hc. by destruct (H6 c Hc).
Qed.

Lemma resources_closed_witness :
  reachable (run failedSecondSession initial) /\
  closedSessions (browser (run failedSecondSession initial)) = [0; 1]%nat /\
  NoDup (closedSessions (browser (run failedSecondSession initial))) /\
  NoDup (closedContexts (browser (run failedSecondSession initial))).
Proof.
  split; [exact failedSecondSession_reachable|]. split; [vm_compute; reflexivity|].
  destruct (resources_closed_once _ failedSecondSession_reachable) as (H1 & H2 & _).
  split; [exact H1|exact H2].
Defined.

Lemma orphaned_applyOp c r op : orphaned c r -> orphaned c (applyOp r op).
Proof.
  intros (H1 & H2 & H3). destruct op; unfold orphaned; simpl.
  - repeat apply conj; try done.
    intros [Hc|Hc]%elem_of_app; [done|].
    destruct (r_contexts r) as [c'|]; simpl in Hc.
    + apply list_elem_of_singleton in Hc as ->. done.
    + by apply elem_of_nil in Hc.
  - repeat apply conj; try done. lia.
  - repeat apply conj; try done; [lia|]. intros [= E]. lia.
  - done.
Qed.

Lemma orphaned_ops c ops r : orphaned c r -> orphaned c (foldl applyOp r ops).
Proof.
  revert r. induction ops as [|op ops IH]; intros r H; [done|].
  simpl. by apply IH, orphaned_applyOp.
Qed.

Lemma synced_render a : synced (render a).
Proof.
  unfold synced. destruct (memo_render a) as [-> ->]. by rewrite state_render.
Qed.

Lemma reachable_synced a : reachable a -> synced a.
Proof.
  intros [es <-]. destruct es as [|e es _] using rev_ind; [done|].
  rewrite run_snoc. apply synced_render.
Qed.


Lemma actionControl_EstablishLink vs :
  actionControl vs = EstablishLink <-> isConnecting vs || isConnected vs = false.
Proof. unfold actionControl. destruct (isConnected vs), (isConnecting vs); simpl; split; done. Qed.

Lemma offered_passes a :
  synced a -> actionControl (voiceState (state a)) = EstablishLink -> passes (memo a).
Proof.
  intros [H1 H2] H. unfold passes. rewrite H1, H2. by apply actionControl_EstablishLink.
Qed.

(** ** Starting a session *)



Lemma state_handleAutoReconnect cl a :
  state (handleAutoReconnect cl a) = state (setVoiceState (fun _ => allFalse) a).
Proof.
  unfold handleAutoReconnect. set (a1 := stopSession _).
  assert (state a1 = state (setVoiceState (fun _ => allFalse) a)) as E.
  { unfold a1. rewrite state_stopSession. cbn.
    by destruct (clock_clearIfSet (reconnectTimeoutRef (refs a)) a) as (_ & _ & -> & _). }
  clearbody a1. by case_match.
Qed.

Lemma startSession_passes cl o a :
  passes cl ->
  startSession cl o a =
  let a := setNeedsApiKey false (setHasInteracted true a) in
  match o with
  | KeyNotSelected => setVoiceState notConnecting (setNeedsApiKey true a)
  | ApiKeyMissing => setVoiceState notConnecting (showError NO_KEY_ERROR a)
  | Threw AtKeyCheck => catchConnectionFailure cl a
  | Threw AtAudioSetup => catchConnectionFailure cl (setVoiceState connecting a)
  | Threw AtResume => catchConnectionFailure cl (createAudioContexts (beginConnecting a))
  | MicrophoneDenied =>
      setVoiceState notConnecting (showError MIC_ERROR (openAudioContexts (beginConnecting a)))
  | Threw AtConnect => catchConnectionFailure cl (openAudioContexts (beginConnecting a))
  | Connecting => connect cl (openAudioContexts (beginConnecting a))
  end.
Proof. intros H. unfold startSession. by rewrite H. Qed.

(** X8: a connection attempt without a key.  When the key picker reports
    that no key is selected, the attempt ends with [needsApiKey] set and
    the error message untouched; when [process.env.API_KEY] is empty it
    ends with the access-key message.  In both cases [hasInteracted] is
    set, [isConnecting] is false, and no audio context is opened, no
    session is registered, nothing is closed and no timer of a
    reconnection is added. *)
Theorem missing_key_aborts (cl : Closure) (a : App) :
  passes cl ->
  (let a' := startSession cl KeyNotSelected a in
   needsApiKey (state a') = true /\
   errorMessage (state a') = errorMessage (state a) /\
   hasInteracted (state a') = true /\
   isConnecting (voiceState (state a')) = false /\
   rview a' = rview a /\ tview a' = tview a) /\
  (let a' := startSession cl ApiKeyMissing a in
   needsApiKey (state a') = false /\
   errorMessage (state a') = Some NO_KEY_ERROR /\
   hasInteracted (state a') = true /\
   isConnecting (voiceState (state a')) = false /\
   rview a' = rview a /\
   (forall t, t ∈ pendingReconnects a' -> t ∈ pendingReconnects a)).
Proof.
  intros H. split; cbv zeta; rewrite !(startSession_passes _ _ _ H); cbv zeta.
  - repeat apply conj; reflexivity.
  - repeat apply conj.
    + fields. by rewrite state_showError.
    + fields. by rewrite state_showError.
    + fields. by rewrite state_showError.
    + fields. reflexivity.
    + by rview_frame.
    + intros t Ht. unfold pendingReconnects in *. revert Ht. fields. intros Ht.
      apply (pendingReconnects_showError NO_KEY_ERROR) in Ht. revert Ht.
      unfold pendingReconnects. fields. done.
Qed.

Lemma missing_key_witness :
  passes (memo initial) /\
  needsApiKey (state (startSession (memo initial) KeyNotSelected initial)) = true /\
  errorMessage (state (startSession (memo initial) ApiKeyMissing initial)) = Some NO_KEY_ERROR.
Proof.
  assert (passes (memo initial)) as H by reflexivity.
  split; [exact H|].
  destruct (missing_key_aborts (memo initial) initial H) as [(H1 & _) (_ & H2 & _)].
  split; [exact H1|exact H2].
Defined.

(** ** Attempts that fail, and what a stop releases *)

Lemma clock_prepare a :
  now (browser (setNeedsApiKey false (setHasInteracted true a))) = now (browser a) /\
  nextTimerId (browser (setNeedsApiKey false (setHasInteracted true a))) =
    nextTimerId (browser a).
Proof. done. Qed.

Lemma oneReconnect_clock cl a a' :
  now (browser a') = now (browser a) ->
  nextTimerId (browser a') = nextTimerId (browser a) ->
  oneReconnect cl a' = oneReconnect cl a.
Proof. unfold oneReconnect. by intros -> ->. Qed.

Lemma catchConnectionFailure_spec cl a :
  timers_ok a ->
  let a' := catchConnectionFailure cl a in
  errorMessage (state a') = Some RETRY_ERROR /\
  voiceState (state a') = allFalse /\
  hasInteracted (state a') = hasInteracted (state a) /\
  pendingReconnects a' = oneReconnect cl a.
Proof.
  intros H a'. unfold a', catchConnectionFailure.
  destruct (transient_failure cl RETRY_ERROR a H) as (H1 & (_ & H2 & _) & H3).
  repeat apply conj; try done.
  rewrite state_handleAutoReconnect. fields. by rewrite state_showError.
Qed.

(** X9: a connection attempt that throws.  Whatever the step that threw,
    the attempt ends with the retry message shown, the voice state all
    false, and no session and no audio contexts held: what the refs held
    is closed, and when it is [ai.live.connect] that throws, the pair of
    contexts the attempt had stored in [audioContextsRef] is closed.  When
    it is [resume()] that rejects, the pair the attempt created was not
    yet stored, and is left open.  A reconnection is scheduled 5000 ms
    ahead exactly when the closure of this [startSession] captured
    [hasInteracted] true and [needsApiKey] false; with any other closure
    the message announces a retry that is not scheduled. *)
Theorem thrown_failure_releases (cl : Closure) (p : ThrowPoint) (a : App) :
  reachable a ->
  passes cl ->
  let a' := startSession cl (Threw p) a in
  errorMessage (state a') = Some RETRY_ERROR /\
  voiceState (state a') = allFalse /\
  hasInteracted (state a') = true /\
  sessionRef (refs a') = None /\
  audioContextsRef (refs a') = None /\
  closedSessions (browser a') =
    closedSessions (browser a) ++ option_list (sessionRef (refs a)) /\
  closedContexts (browser a') =
    closedContexts (browser a) ++
    match p with
    | AtConnect => [nextContextId (browser a)]
    | _ => option_list (audioContextsRef (refs a))
    end /\
  (p = AtResume -> orphaned (nextContextId (browser a)) (rview a')) /\
  pendingReconnects a' = oneReconnect cl a.
Proof.
  intros Hr Hp a'. pose proof (reachable_timers_ok a Hr) as Hok.
  pose proof (rview_startSession cl (Threw p) a) as Er. fold a' in Er.
  rewrite (startResourceOps_passes_eq _ _ Hp) in Er.
  assert (errorMessage (state a') = Some RETRY_ERROR /\
          voiceState (state a') = allFalse /\
          hasInteracted (state a') = true /\
          pendingReconnects a' = oneReconnect cl a) as (H1 & H2 & H3 & H4).
  { unfold a'. rewrite (startSession_passes _ _ _ Hp). cbv zeta.
    destruct p.
    - destruct (catchConnectionFailure_spec cl
        (setNeedsApiKey false (setHasInteracted true a))) as (H1 & H2 & H3 & H4);
        [timers_frame|]. by rewrite H1, H2, H3, H4.
    - destruct (catchConnectionFailure_spec cl
        (setVoiceState connecting (setNeedsApiKey false (setHasInteracted true a))))
        as (H1 & H2 & H3 & H4); [timers_frame|]. by rewrite H1, H2, H3, H4.
    - destruct (catchConnectionFailure_spec cl
        (createAudioContexts
           (beginConnecting (setNeedsApiKey false (setHasInteracted true a)))))
        as (H1 & H2 & H3 & H4); [unfold beginConnecting; timers_frame|].
      rewrite H1, H2, H3, H4. repeat apply conj; try done.
      + fields. reflexivity.
      + apply oneReconnect_clock; fields; reflexivity.
    - destruct (catchConnectionFailure_spec cl
        (openAudioContexts
           (beginConnecting (setNeedsApiKey false (setHasInteracted true a)))))
        as (H1 & H2 & H3 & H4); [unfold beginConnecting; timers_frame|].
      rewrite H1, H2, H3, H4. repeat apply conj; try done.
      + fields. reflexivity.
      + apply oneReconnect_clock; fields; reflexivity. }
  repeat apply conj; try done.
  - change (r_session (rview a') = None). rewrite Er. by destruct p.
  - change (r_contexts (rview a') = None). rewrite Er. by destruct p.
  - change (r_closedSessions (rview a') =
            closedSessions (browser a) ++ option_list (sessionRef (refs a))).
    rewrite Er. by destruct p.
  - change (r_closedContexts (rview a') = closedContexts (browser a) ++
      match p with
      | AtConnect => [nextContextId (browser a)]
      | _ => option_list (audioContextsRef (refs a))
      end).
    rewrite Er. by destruct p.
  - intros ->. rewrite Er.
    destruct (reachable_resources_ok a Hr) as (_ & _ & _ & H4' & _ & H6').
    unfold orphaned. simpl. split; [lia|]. split; [done|].
    intros [Hc|Hc]%elem_of_app.
    + apply H4' in Hc. simpl in Hc. lia.
    + destruct (audioContextsRef (refs a)) as [c|] eqn:Ec; simpl in Hc.
      * apply list_elem_of_singleton in Hc as <-.
        destruct (H6' _ Ec) as [Hlt _]. simpl in Hlt. lia.
      * by apply elem_of_nil in Hc.
Qed.

Lemma thrown_failure_witness :
  reachable initial /\ passes (memo initial) /\
  errorMessage (state (startSession (memo initial) (Threw AtConnect) initial)) =
    Some RETRY_ERROR /\
  closedContexts (browser (startSession (memo initial) (Threw AtConnect) initial)) = [0%nat] /\
  orphaned 0 (rview (startSession (memo initial) (Threw AtResume) initial)) /\
  pendingReconnects (startSession (memo initial) (Threw AtConnect) initial) = [].
Proof.
  assert (reachable initial) as H1 by (by exists []).
  assert (passes (memo initial)) as H2 by reflexivity.
  split; [exact H1|]. split; [exact H2|].
  destruct (thrown_failure_releases (memo initial) AtConnect initial H1 H2)
    as (E1 & _ & _ & _ & _ & _ & E2 & _ & E3).
  destruct (thrown_failure_releases (memo initial) AtResume initial H1 H2)
    as (_ & _ & _ & _ & _ & _ & _ & E4 & _).
  split; [exact E1|]. split; [exact E2|]. split; [exact (E4 eq_refl)|exact E3].
Defined.

(** X10: audio contexts that are overwritten are never closed.  A
    refused microphone leaves the pair of contexts the attempt opened in
    [audioContextsRef], not closed, and the start button on offer.  The
    next attempt that gets as far as opening its own pair overwrites the
    ref, and from then on no sequence of events closes the first pair:
    [stopSession] closes only what the ref holds. *)
Theorem overwritten_contexts_never_closed (a : App) :
  reachable a ->
  actionControl (voiceState (state a)) = EstablishLink ->
  (let a1 := step a (ClickStart MicrophoneDenied) in
   audioContextsRef (refs a1) = Some (nextContextId (browser a)) /\
   closedContexts (browser a1) = closedContexts (browser a) /\
   actionControl (voiceState (state a1)) = EstablishLink) /\
  (forall c o es,
     audioContextsRef (refs a) = Some c ->
     o = MicrophoneDenied \/ o = Connecting \/ o = Threw AtConnect ->
     let a' := run (ClickStart o :: es) a in
     (c ∉ closedContexts (browser a')) /\ audioContextsRef (refs a') <> Some c).
Proof.
  intros Hr Ha. pose proof (reachable_synced a Hr) as Hs.
  pose proof (offered_passes a Hs Ha) as Hp.
  assert (forall o, rview (step a (ClickStart o)) =
                    foldl applyOp (rview a) (attemptOps (memo a) o)) as Er.
  { intros o. unfold step. rewrite rview_render. simpl.
    by rewrite rview_startSession, (startResourceOps_passes_eq _ _ Hp). }
  split.
  - cbv zeta. pose proof (Er MicrophoneDenied) as E.
    split; [exact (f_equal r_contexts E)|]. split; [exact (f_equal r_closedContexts E)|].
    unfold step. rewrite state_render. simpl.
    rewrite (startSession_passes _ _ _ Hp). cbv zeta. fields. rewrite state_showError.
    fields. apply actionControl_EstablishLink in Ha.
    apply orb_false_iff in Ha as [_ Hc]. apply actionControl_EstablishLink.
    unfold notConnecting, connecting. cbn. by rewrite Hc.
  - intros c o es Hc Ho a'.
    destruct (reachable_resources_ok a Hr) as (_ & _ & _ & _ & _ & H6).
    destruct (H6 c Hc) as [Hlt Hnot]. simpl in Hlt, Hnot.
    assert (orphaned c (applyOp (rview a) OpenContexts)) as Horph.
    { unfold orphaned. simpl. split; [lia|]. split; [|done]. intros [= E]. lia. }
    assert (orphaned c (rview (step a (ClickStart o)))) as H1.
    { rewrite Er. destruct Ho as [->|[->| ->]]; cbn [attemptOps foldl].
      - done.
      - by apply orphaned_applyOp.
      - by apply orphaned_applyOp. }
    unfold a'. simpl. destruct (rview_run es (step a (ClickStart o))) as [ops E].
    apply (orphaned_ops c ops) in H1. rewrite <- E in H1.
    destruct H1 as (_ & H2 & H3). done.
Qed.

Lemma overwritten_contexts_witness :
  reachable (run microphoneRefused initial) /\
  actionControl (voiceState (state (run microphoneRefused initial))) = EstablishLink /\
  audioContextsRef (refs (run microphoneRefused initial)) = Some 0%nat /\
  0%nat ∉ closedContexts (browser
    (run [ClickStart Connecting; SessionOpen 0; ClickStop] (run microphoneRefused initial))).
Proof.
  assert (reachable (run microphoneRefused initial)) as H1 by (by eexists).
  assert (actionControl (voiceState (state (run microphoneRefused initial))) = EstablishLink)
    as H2 by reflexivity.
  split; [exact H1|]. split; [exact H2|]. split; [reflexivity|].
  destruct (overwritten_contexts_never_closed _ H1 H2) as [_ H].
  exact (proj1 (H 0%nat Connecting [SessionOpen 0; ClickStop] eq_refl (or_intror (or_introl eq_refl)))).
Defined.

Lemma stopSession_idempotent a : stopSession (stopSession a) = stopSession a.
Proof.
  destruct a as [s r b m]. destruct s, r as [[x|] [y|] ? ? ? ? ? ?], b.
  all: unfold stopSession; cbn; unfold with_browser, set_stopped; cbn;
    by rewrite (right_id_L ∅ (∪)).
Qed.

(** X11: what a stop releases.  [stopSession] closes the session and the
    audio contexts the refs hold and clears both refs, calls [stop()] on
    every active source node and empties the set, and sets the four
    flags of the voice state to false.  It leaves the timers, the
    transcript and the error message as they are, and a second stop
    changes nothing. *)
Theorem stop_releases_everything (a : App) :
  let a' := stopSession a in
  sessionRef (refs a') = None /\
  audioContextsRef (refs a') = None /\
  closedSessions (browser a') =
    closedSessions (browser a) ++ option_list (sessionRef (refs a)) /\
  closedContexts (browser a') =
    closedContexts (browser a) ++ option_list (audioContextsRef (refs a)) /\
  sourcesRef (refs a') = ∅ /\
  stopped (browser a') = stopped (browser a) ∪ sourcesRef (refs a) /\
  voiceState (state a') = allFalse /\
  timers (browser a') = timers (browser a) /\
  trview a' = trview a /\
  errorMessage (state a') = errorMessage (state a) /\
  stopSession a' = a'.
Proof.
  cbv zeta. pose proof (rview_stopSession a) as Er.
  repeat apply conj.
  - exact (f_equal r_session Er).
  - exact (f_equal r_contexts Er).
  - exact (f_equal r_closedSessions Er).
  - exact (f_equal r_closedContexts Er).
  - by destruct (stopSession_closes a) as (_ & _ & _ & H & _).
  - unfold stopSession. repeat case_match; done.
  - by destruct (stopSession_closes a) as (_ & H & _).
  - pose proof (tview_stopSession a) as E. unfold tview in E. by injection E.
  - apply trview_stopSession.
  - by rewrite state_stopSession.
  - apply stopSession_idempotent.
Qed.



(** X13: the ring and the controls agree.  The ring of [SpatialRing] is
    red exactly when the stop button is not the control on offer; it is
    golden or blue exactly when it is, golden while speaking.  In a
    consistent voice state the status line reads SYNCHRONIZED exactly
    when the stop button is offered. *)
Theorem ring_matches_control (vs : VoiceState) :
  (getColors vs = RED <-> actionControl vs <> TerminateLink) /\
  (getColors vs = GOLDEN <-> actionControl vs = TerminateLink /\ isSpeaking vs = true) /\
  (getColors vs = BLUE <-> actionControl vs = TerminateLink /\ isSpeaking vs = false) /\
  (consistent vs = true ->
   (coreStatus vs = "SYNCHRONIZED" <-> actionControl vs = TerminateLink)).
Proof.
  destruct vs as [l s c g]. unfold getColors, actionControl, coreStatus, consistent.
  destruct l, s, c, g; simpl; unfold RED, GOLDEN, BLUE; intuition congruence.
Qed.

(** ** The two timers *)

Lemma eview_render a : eview (render a) = eview a.
Proof. unfold eview. by rewrite state_render, refs_render, browser_render. Qed.

Lemma eview_showError msg a : eview (showError msg a) = applyT (eview a) (ShowError msg).
Proof.
  destruct a as [s r b m]. destruct s, r as [? ? ? ? ? [[|i]|] ? ?], b; reflexivity.
Qed.

Lemma eview_stopSession a : eview (stopSession a) = eview a.
Proof. unfold stopSession. repeat case_match; done. Qed.

Lemma eview_handleAutoReconnect cl a :
  eview (handleAutoReconnect cl a) = applyT (eview a) (AutoReconnect cl).
Proof.
  unfold handleAutoReconnect. set (a1 := stopSession _).
  assert (eview a1 =
          mkTimerView (cancel (reconnectTimeoutRef (refs a)) (timers (browser a)))
            (now (browser a)) (nextTimerId (browser a)) (reconnectTimeoutRef (refs a))
            (errorTimeoutRef (refs a)) (errorMessage (state a))) as E.
  { unfold a1. rewrite eview_stopSession. unfold clearIfSet, cancel.
    destruct (reconnectTimeoutRef (refs a)) as [i|] eqn:Er; [|by unfold eview; rewrite Er].
    destruct (truthy (Some i)); unfold eview; cbn; by rewrite ?Er. }
  clearbody a1. unfold applyT.
  destruct (cl_hasInteracted cl && negb (cl_needsApiKey cl)); [|done].
  unfold eview in *. cbn. by injection E as -> -> -> _ -> ->.
Qed.

Lemma eview_setVoiceState f a : eview (setVoiceState f a) = eview a.
Proof. done. Qed.
Lemma eview_setHasInteracted v a : eview (setHasInteracted v a) = eview a.
Proof. done. Qed.
Lemma eview_setNeedsApiKey v a : eview (setNeedsApiKey v a) = eview a.
Proof. done. Qed.
Lemma eview_setTranscriptionHistory f a : eview (setTranscriptionHistory f a) = eview a.
Proof. done. Qed.
Lemma eview_openAudioContexts a : eview (openAudioContexts a) = eview a.
Proof. done. Qed.
Lemma eview_connect cl a : eview (connect cl a) = eview a.
Proof. done. Qed.
Lemma eview_createAudioContexts a : eview (createAudioContexts a) = eview a.
Proof. done. Qed.
Lemma eview_setErrorMessage_None a :
  eview (setErrorMessage None a) = applyT (eview a) ClearMessage.
Proof. done. Qed.

Ltac eview_frame :=
  unfold beginConnecting, catchConnectionFailure;
  repeat first
    [ rewrite eview_render | rewrite eview_showError | rewrite eview_stopSession
    | rewrite eview_handleAutoReconnect
    | rewrite eview_openAudioContexts | rewrite eview_connect
    | rewrite eview_createAudioContexts
    | rewrite eview_setHasInteracted | rewrite eview_setNeedsApiKey
    | rewrite eview_setVoiceState | rewrite eview_setTranscriptionHistory
    | rewrite eview_setErrorMessage_None ].

Lemma eview_startSession cl o a :
  eview (startSession cl o a) = foldl applyT (eview a) (startTimerOps cl o).
Proof.
  unfold startSession, startTimerOps.
  destruct (cl_isConnecting cl || cl_isConnected cl); [done|].
  destruct o as [| | | |[]]; by eview_frame.
Qed.

Lemma eview_onmessage m clock a : eview (onmessage m clock a) = eview a.
Proof.
  unfold onmessage, onmessage_transcription, onmessage_turnComplete,
    onmessage_audio, onmessage_interrupted.
  repeat case_match; done.
Qed.

Lemma eview_onended n a : eview (onended n a) = eview a.
Proof. unfold onended. by case_match. Qed.

Lemma eview_cleanup a : eview (cleanup a) = applyT (eview a) CancelBoth.
Proof.
  unfold cleanup. set (a1 := stopSession a).
  assert (eview a1 = eview a) as E by apply eview_stopSession.
  clearbody a1. rewrite <- E. clear E.
  destruct a1 as [s r b m]. destruct s, r as [? ? ? ? [[|i]|] [[|j]|] ? ?], b; reflexivity.
Qed.

Lemma eview_fire id o a :
  eview (fire id o a) = foldl applyT (eview a) (timerOps (TimerFires id o) a).
Proof.
  rewrite fire_dueTimer. cbn [timerOps foldl]. unfold applyT at 2. cbn [eview tv_timers tv_now].
  destruct (dueTimer id (timers (browser a)) (now (browser a))) as [t|]; [|done].
  cbv zeta. destruct (timer_action t) as [|cl]; [done|].
  by rewrite eview_startSession.
Qed.

(** Every event acts on the timers as the operations of [timerOps]. *)
Lemma eview_handle e a : eview (handle e a) = foldl applyT (eview a) (timerOps e a).
Proof.
  destruct e; cbn [handle timerOps].
  - apply eview_startSession.
  - apply eview_stopSession.
  - unfold handleKeySelection. destruct available.
    + rewrite eview_startSession. by eview_frame.
    + apply eview_showError.
  - destruct (callbackClosure s a); [|done]. unfold onopen. by eview_frame.
  - destruct (callbackClosure s a); [apply eview_onmessage|done].
  - destruct (callbackClosure s a) as [cl|]; [|done]. unfold onerror.
    destruct (isKeyError (default "" e)); by eview_frame.
  - destruct (callbackClosure s a) as [cl|]; [|done]. unfold onclose.
    destruct (negb wasClean); by eview_frame.
  - apply eview_onended.
  - apply eview_fire.
  - done.
  - apply eview_cleanup.
Qed.

Lemma eview_step e a : eview (step a e) = foldl applyT (eview a) (timerOps e a).
Proof. unfold step. rewrite eview_render. apply eview_handle. Qed.

(** *** The invariant of the timers *)

Lemma cancel_elem r ts t :
  t ∈ cancel r ts <-> t ∈ ts /\ (truthy r = true -> r <> Some (timer_id t)).
Proof.
  unfold cancel. destruct r as [i|]; [|by intuition].
  destruct (truthy (Some i)) eqn:E.
  - rewrite list_elem_of_filter. split; intros [H1 H2].
    + split; [done|]. intros _ [= Ei]. by apply H1.
    + split; [|done]. intros Ei. apply H2; [done|]. by rewrite Ei.
  - split; [intros H; split; [done|done]|by intros [H _]].
Qed.

Lemma cancel_sublist r ts : cancel r ts `sublist_of` ts.
Proof. unfold cancel. repeat case_match; (done || apply sublist_filter). Qed.

Lemma truthy_positive i : (0 < i)%nat -> truthy (Some i) = true.
Proof. intros H. simpl. apply negb_true_iff, Nat.eqb_neq. lia. Qed.

Lemma NoDup_timer_id ts t t' :
  NoDup (timer_id <$> ts) -> t ∈ ts -> t' ∈ ts -> timer_id t = timer_id t' -> t = t'.
Proof.
  intros Hnd [i Hi]%list_elem_of_lookup [j Hj]%list_elem_of_lookup E.
  assert ((timer_id <$> ts) !! i = Some (timer_id t)) as Hi'
    by (by rewrite list_lookup_fmap, Hi).
  assert ((timer_id <$> ts) !! j = Some (timer_id t)) as Hj'
    by (by rewrite list_lookup_fmap, Hj, E).
  pose proof (NoDup_lookup _ _ _ _ Hnd Hi' Hj') as ->. congruence.
Qed.

Lemma dueTimer_Some id ts now t :
  dueTimer id ts now = Some t -> t ∈ ts /\ timer_id t = id /\ (timer_due t <= now)%Z.
Proof.
  unfold dueTimer. destruct (list_find _ _) as [[i t0]|] eqn:E; [|done].
  destruct (timer_due t0 <=? now)%Z eqn:Ed; [|done]. intros [= <-].
  apply list_find_Some in E as (Hi & Ht & _).
  split; [by eapply list_elem_of_lookup_2|]. split; [done|]. by apply Z.leb_le.
Qed.

Lemma dueTimer_found ts now t :
  NoDup (timer_id <$> ts) -> t ∈ ts -> (timer_due t <= now)%Z ->
  dueTimer (timer_id t) ts now = Some t.
Proof.
  intros Hnd Ht Hd. unfold dueTimer.
  destruct (list_find _ _) as [[i t0]|] eqn:E.
  - apply list_find_Some in E as (Hi & Hid & _).
    assert (t0 = t) as ->
      by (eapply NoDup_timer_id; [done|by eapply list_elem_of_lookup_2|done|done]).
    by apply Z.leb_le in Hd as ->.
  - apply list_find_None in E. rewrite Forall_forall in E. by destruct (E t Ht).
Qed.

Lemma NoDup_snoc_fresh ts (t : Timer) n act due :
  NoDup (timer_id <$> ts) ->
  (forall t, t ∈ ts -> (timer_id t < n)%nat) ->
  NoDup (timer_id <$> (ts ++ [mkTimer n due act])).
Proof.
  intros Hnd Hlt. rewrite fmap_app. apply NoDup_app. split; [done|].
  split; [|apply NoDup_singleton].
  intros x Hx ->%list_elem_of_singleton.
  apply list_elem_of_fmap in Hx as (t' & Heq & Ht'). apply Hlt in Ht'. simpl in Heq. lia.
Qed.

Lemma tv_ok_applyT v op : tv_ok v -> tv_ok (applyT v op).
Proof.
  intros (H0 & H1 & H2 & H3 & H4 & H5 & H6). destruct op; unfold tv_ok; simpl.
  - (* ShowError *)
    repeat apply conj.
    + lia.
    + intros t [Ht|Ht]%elem_of_app.
      * apply cancel_elem in Ht as [Ht _]. apply H1 in Ht. lia.
      * apply list_elem_of_singleton in Ht as ->. simpl. lia.
    + apply (NoDup_snoc_fresh _ (mkTimer 0 0 ClearErrorMessage)).
      * eapply sublist_NoDup; [exact H2|]. apply fmap_sublist, cancel_sublist.
      * intros t Ht. apply cancel_elem in Ht as [Ht _]. apply H1 in Ht. lia.
    + intros i Hi. apply H3 in Hi. lia.
    + intros i [= <-]. lia.
    + intros i Hi [= Ei]. apply H3 in Hi. lia.
    + intros t [Ht|Ht]%elem_of_app.
      * apply cancel_elem in Ht as [Ht Hc]. pose proof (H6 t Ht) as Hk.
        destruct (timer_action t); [|done]. exfalso. apply Hc; [|done].
        rewrite Hk. apply truthy_positive. apply H1 in Ht. lia.
      * by apply list_elem_of_singleton in Ht as ->.
  - (* AutoReconnect *)
    destruct (cl_hasInteracted cl && negb (cl_needsApiKey cl)); simpl.
    + repeat apply conj.
      * lia.
      * intros t [Ht|Ht]%elem_of_app.
        -- apply cancel_elem in Ht as [Ht _]. apply H1 in Ht. lia.
        -- apply list_elem_of_singleton in Ht as ->. simpl. lia.
      * apply (NoDup_snoc_fresh _ (mkTimer 0 0 ClearErrorMessage)).
        -- eapply sublist_NoDup; [exact H2|]. apply fmap_sublist, cancel_sublist.
        -- intros t Ht. apply cancel_elem in Ht as [Ht _]. apply H1 in Ht. lia.
      * intros i [= <-]. lia.
      * intros i Hi. apply H4 in Hi. lia.
      * intros i [= <-] Hi. apply H4 in Hi. lia.
      * intros t [Ht|Ht]%elem_of_app.
        -- apply cancel_elem in Ht as [Ht Hc]. pose proof (H6 t Ht) as Hk.
           destruct (timer_action t); [done|]. exfalso. apply Hc; [|done].
           rewrite Hk. apply truthy_positive. apply H1 in Ht. lia.
        -- by apply list_elem_of_singleton in Ht as ->.
    + repeat apply conj; try done.
      * intros t Ht. apply cancel_elem in Ht as [Ht _]. by apply H1.
      * eapply sublist_NoDup; [exact H2|]. apply fmap_sublist, cancel_sublist.
      * intros t Ht. apply cancel_elem in Ht as [Ht _]. by apply H6.
  - (* ClearMessage *) done.
  - (* Fire *)
    destruct (dueTimer id (tv_timers v) (tv_now v)); [|done]. simpl.
    repeat apply conj; try done.
    + intros t' Ht. apply list_elem_of_filter in Ht as [_ Ht]. by apply H1.
    + eapply sublist_NoDup; [exact H2|]. apply fmap_sublist, sublist_filter.
    + intros t' Ht. apply list_elem_of_filter in Ht as [_ Ht]. by apply H6.
  - (* Advance *) done.
  - (* CancelBoth *)
    repeat apply conj; try done.
    + intros t Ht. apply cancel_elem in Ht as [Ht _]. apply cancel_elem in Ht as [Ht _].
      by apply H1.
    + eapply sublist_NoDup; [exact H2|]. apply fmap_sublist.
      etransitivity; apply cancel_sublist.
    + intros t Ht. apply cancel_elem in Ht as [Ht _]. apply cancel_elem in Ht as [Ht _].
      by apply H6.
Qed.

Lemma tv_ok_ops ops v : tv_ok v -> tv_ok (foldl applyT v ops).
Proof.
  revert v. induction ops as [|op ops IH]; intros v H; [done|].
  simpl. by apply IH, tv_ok_applyT.
Qed.

Lemma tv_ok_initial : tv_ok (eview initial).
Proof.
  unfold tv_ok. simpl. repeat apply conj; try done; try lia.
  - intros t Ht. by apply elem_of_nil in Ht.
  - apply NoDup_nil_2.
  - intros t Ht. by apply elem_of_nil in Ht.
Qed.

Lemma reachable_tv_ok a : reachable a -> tv_ok (eview a).
Proof.
  intros [es <-].
  assert (tv_ok (eview initial)) as H by apply tv_ok_initial.
  revert H. generalize initial. induction es as [|e es IH]; intros a H; [done|].
  simpl. apply IH. rewrite eview_step. by apply tv_ok_ops.
Qed.

Lemma banner_ok_applyT v op :
  tv_ok v -> op <> CancelBoth -> banner_ok v -> banner_ok (applyT v op).
Proof.
  intros (H0 & H1 & H2 & H3 & H4 & H5 & H6) Hop Hb. destruct op; unfold banner_ok; simpl.
  - intros _. eexists. split; [apply elem_of_app; right; apply list_elem_of_here|].
    split; [done|]. simpl. lia.
  - assert (tv_message v <> None ->
      exists t, t ∈ cancel (tv_reconnectRef v) (tv_timers v) /\
                timer_action t = ClearErrorMessage /\
                (timer_due t <= tv_now v + ERROR_TIMEOUT)%Z) as Hkeep.
    { intros Hm. destruct (Hb Hm) as (t & Ht & Ha & Hd). exists t.
      split; [|done]. apply cancel_elem. split; [done|]. intros _ Hr.
      pose proof (H6 t Ht) as Hk. rewrite Ha in Hk. by apply (H5 _ Hr). }
    destruct (cl_hasInteracted cl && negb (cl_needsApiKey cl)); simpl; [|done].
    intros Hm. destruct (Hkeep Hm) as (t & Ht & Ha & Hd). exists t.
    split; [apply elem_of_app; by left|done].
  - done.
  - destruct (dueTimer id (tv_timers v) (tv_now v)) as [t0|] eqn:E; [|done]. simpl.
    apply dueTimer_Some in E as (Ht0 & Hid & _).
    destruct (timer_action t0) eqn:Ha0; [done|].
    intros Hm. destruct (Hb Hm) as (t & Ht & Ha & Hd). exists t.
    split; [|done]. apply list_elem_of_filter. split; [|done].
    intros E. assert (t = t0) as -> by (eapply NoDup_timer_id; [done..|congruence]).
    congruence.
  - intros Hm. destruct (Hb Hm) as (t & Ht & Ha & Hd). exists t.
    split; [done|]. split; [done|]. lia.
  - done.
Qed.

Lemma banner_ok_ops ops v :
  tv_ok v -> Forall (fun op => op <> CancelBoth) ops ->
  banner_ok v -> banner_ok (foldl applyT v ops).
Proof.
  revert v. induction ops as [|op ops IH]; intros v H Hn Hb; [done|].
  apply Forall_cons in Hn as [Hop Hn]. simpl. apply IH.
  - by apply tv_ok_applyT.
  - done.
  - by apply banner_ok_applyT.
Qed.

Lemma timerOps_mounted e a :
  e <> Unmount -> Forall (fun op => op <> CancelBoth) (timerOps e a).
Proof.
  intros He. destruct e; try done; cbn [timerOps]; unfold startTimerOps;
    repeat case_match; repeat constructor; done.
Qed.

(** *** What the refs cancel *)

Lemma filter_ext_elem {A} (P Q : A -> Prop) `{!forall x, Decision (P x)}
    `{!forall x, Decision (Q x)} (l : list A) :
  (forall x, x ∈ l -> P x <-> Q x) -> filter P l = filter Q l.
Proof.
  induction l as [|x l IH]; intros Hext; [done|].
  rewrite !filter_cons.
  assert (filter P l = filter Q l) as ->
    by (apply IH; intros y Hy; apply Hext; by apply list_elem_of_further).
  pose proof (Hext x (list_elem_of_here _ _)) as Hx.
  destruct (decide (P x)), (decide (Q x)); tauto.
Qed.

Lemma filter_all {A} (P : A -> Prop) `{!forall x, Decision (P x)} (l : list A) :
  (forall x, x ∈ l -> P x) -> filter P l = l.
Proof.
  induction l as [|x l IH]; intros Hall; [done|].
  rewrite filter_cons. rewrite decide_True by apply Hall, list_elem_of_here.
  f_equal. apply IH. intros y Hy. by apply Hall, list_elem_of_further.
Qed.

Lemma filter_none {A} (P : A -> Prop) `{!forall x, Decision (P x)} (l : list A) :
  (forall x, x ∈ l -> ~ P x) -> filter P l = [].
Proof.
  intros Hnone. apply elem_of_nil_inv. intros x [Hx Hin]%list_elem_of_filter.
  by apply (Hnone x).
Qed.

(** Under the invariant, cancelling through a ref removes the timers of
    its kind and no other. *)
Lemma cancel_errorRef v :
  tv_ok v ->
  cancel (tv_errorRef v) (tv_timers v) =
  filter (fun t => isReconnect t = true) (tv_timers v).
Proof.
  intros (H0 & H1 & H2 & H3 & H4 & H5 & H6).
  assert (forall t, t ∈ tv_timers v ->
            (truthy (tv_errorRef v) = true -> tv_errorRef v <> Some (timer_id t)) <->
            isReconnect t = true) as Hiff.
  { intros t Ht. pose proof (H6 t Ht) as Hk. unfold isReconnect.
    destruct (timer_action t); split; try done.
    - intros Hc. exfalso. apply Hc; [|done]. rewrite Hk. apply truthy_positive.
      apply H1 in Ht. lia.
    - intros _ _ He. by apply (H5 _ Hk). }
  unfold cancel. destruct (tv_errorRef v) as [i|] eqn:Ee.
  - destruct (truthy (Some i)) eqn:Et.
    + apply filter_ext_elem. intros t Ht. rewrite <- (Hiff t Ht). split.
      * intros Hne _ [= E]. by apply Hne.
      * intros Hc E. apply Hc; [done|]. by rewrite E.
    + symmetry. apply filter_all. intros t Ht. apply (Hiff t Ht). by intros.
  - symmetry. apply filter_all. intros t Ht. apply (Hiff t Ht). by intros.
Qed.







Lemma pendingError_at_most_one v :
  tv_ok v -> (length (filter (fun t => isReconnect t = false) (tv_timers v)) <= 1)%nat.
Proof.
  intros (H0 & H1 & H2 & H3 & H4 & H5 & H6).
  destruct (filter _ _) as [|t1 [|t2 l]] eqn:Hf; simpl; try lia.
  exfalso.
  assert (t1 ∈ filter (fun t => isReconnect t = false) (tv_timers v)) as Ht1
    by (rewrite Hf; apply list_elem_of_here).
  assert (t2 ∈ filter (fun t => isReconnect t = false) (tv_timers v)) as Ht2
    by (rewrite Hf; apply list_elem_of_further, list_elem_of_here).
  apply list_elem_of_filter in Ht1 as [Hr1 Hin1].
  apply list_elem_of_filter in Ht2 as [Hr2 Hin2].
  pose proof (H6 _ Hin1) as E1. pose proof (H6 _ Hin2) as E2.
  unfold isReconnect in Hr1, Hr2.
  destruct (timer_action t1); [|done]. destruct (timer_action t2); [|done].
  assert (timer_id t1 = timer_id t2) as Eid by congruence.
  assert (NoDup (timer_id <$> (t1 :: t2 :: l))) as Hnd.
  { rewrite <- Hf. eapply sublist_NoDup; [exact H2|]. apply fmap_sublist, sublist_filter. }
  simpl in Hnd. apply NoDup_cons in Hnd as [Hnot _]. apply Hnot. rewrite Eid.
  apply list_elem_of_here.
Qed.

(** X16: the error message is debounced.  In every reachable state at
    most one message timer is pending.  [showError] replaces the message,
    cancels the pending message timer and schedules a new one
    [ERROR_TIMEOUT] = 8000 ms ahead, so that a message is never cleared
    by the timer of an earlier one; the pending reconnect timers are not
    affected. *)
Theorem error_message_debounced (a : App) (msg : string) :
  reachable a ->
  let a' := showError msg a in
  (length (pendingErrorTimers a) <= 1)%nat /\
  errorMessage (state a') = Some msg /\
  pendingErrorTimers a' =
    [mkTimer (nextTimerId (browser a)) (now (browser a) + 8000) ClearErrorMessage] /\
  pendingReconnects a' = pendingReconnects a.
Proof.
  intros Hr a'. pose proof (reachable_tv_ok a Hr) as Hok.
  pose proof (eview_showError msg a) as E. fold a' in E.
  assert (timers (browser a') =
          filter (fun t => isReconnect t = true) (timers (browser a)) ++
          [mkTimer (nextTimerId (browser a)) (now (browser a) + 8000) ClearErrorMessage])
    as Et.
  { change (tv_timers (eview a') = filter (fun t => isReconnect t = true) (tv_timers (eview a)) ++
      [mkTimer (nextTimerId (browser a)) (now (browser a) + 8000) ClearErrorMessage]).
    rewrite E. cbn [applyT tv_timers]. by rewrite (cancel_errorRef _ Hok). }
  repeat apply conj.
  - by apply (pendingError_at_most_one _ Hok).
  - exact (f_equal tv_message E).
  - unfold pendingErrorTimers. rewrite Et, filter_app.
    rewrite filter_none; [done|]. intros t [Hk _]%list_elem_of_filter. congruence.
  - unfold pendingReconnects. rewrite Et, filter_app.
    rewrite filter_all by (by intros t [Hk _]%list_elem_of_filter).
    cbn. by rewrite app_nil_r.
Qed.

Lemma error_message_witness :
  reachable (run firstSessionError initial) /\
  pendingErrorTimers (showError MIC_ERROR (run firstSessionError initial)) =
    [mkTimer 2 8000 ClearErrorMessage].
Proof.
  assert (reachable (run firstSessionError initial)) as H by (by eexists).
  split; [exact H|].
  exact (proj1 (proj2 (proj2 (error_message_debounced _ MIC_ERROR H)))).
Defined.

Lemma banner_ok_run es a :
  tv_ok (eview a) -> banner_ok (eview a) -> Forall (fun e => e <> Unmount) es ->
  tv_ok (eview (run es a)) /\ banner_ok (eview (run es a)).
Proof.
  revert a. induction es as [|e es IH]; intros a H Hb Hn; [done|].
  apply Forall_cons in Hn as [He Hn]. simpl. apply IH; [| |done].
  - rewrite eview_step. by apply tv_ok_ops.
  - rewrite eview_step. apply banner_ok_ops; [done| |done]. by apply timerOps_mounted.
Qed.

(** X17: a message on display is always on its way out.  While the
    component is mounted, whenever an error message is shown its clearing
    timer is pending and due at most [ERROR_TIMEOUT] = 8000 ms from now;
    once that time has passed and the timer fires, the message is
    gone. *)
Theorem error_banner_expires (es : list Event) (msg : string) :
  Forall (fun e => e <> Unmount) es ->
  let a := run es initial in
  errorMessage (state a) = Some msg ->
  exists t,
    t ∈ pendingErrorTimers a /\
    (timer_due t <= now (browser a) + 8000)%Z /\
    forall o, errorMessage (state
      (run [TimePasses 8000; TimerFires (timer_id t) o] a)) = None.
Proof.
  intros Hes a Hm.
  destruct (banner_ok_run es initial tv_ok_initial) as [Hok Hb];
    [by intros Hn|done|].
  fold a in Hok, Hb.
  destruct Hb as (t & Ht & Ha & Hd); [by cbn; rewrite Hm|].
  exists t. cbn in Ht, Hd. split; [|split; [done|]].
  - apply list_elem_of_filter. split; [|done]. unfold isReconnect. by rewrite Ha.
  - intros o. change (run [TimePasses 8000; TimerFires (timer_id t) o] a)
      with (step (step a (TimePasses 8000)) (TimerFires (timer_id t) o)).
    set (a1 := step a (TimePasses 8000)).
    assert (eview a1 = applyT (eview a) (Advance 8000)) as E1
      by (unfold a1; by rewrite eview_step).
    assert (dueTimer (timer_id t) (timers (browser a1)) (now (browser a1)) = Some t) as Hdue.
    { change (dueTimer (timer_id t) (tv_timers (eview a1)) (tv_now (eview a1)) = Some t).
      rewrite E1. cbn. destruct Hok as (_ & _ & Hnd & _).
      apply dueTimer_found; [done|done|]. unfold ERROR_TIMEOUT in Hd. lia. }
    change (tv_message (eview (step a1 (TimerFires (timer_id t) o))) = None).
    rewrite eview_step. cbn [timerOps]. rewrite Hdue, Ha. cbn [foldl applyT].
    change (tv_timers (eview a1)) with (timers (browser a1)).
    change (tv_now (eview a1)) with (now (browser a1)).
    by rewrite Hdue, Ha.
Qed.

Lemma error_banner_witness :
  Forall (fun e => e <> Unmount) firstSessionError /\
  errorMessage (state (run firstSessionError initial)) = Some SYNC_ERROR /\
  exists t, t ∈ pendingErrorTimers (run firstSessionError initial) /\
    errorMessage (state
      (run [TimePasses 8000; TimerFires (timer_id t) Connecting]
         (run firstSessionError initial))) = None.
Proof.
  assert (Forall (fun e => e <> Unmount) firstSessionError) as H
    by (repeat constructor; discriminate).
  split; [exact H|]. split; [reflexivity|].
  destruct (error_banner_expires firstSessionError SYNC_ERROR H eq_refl) as (t & Ht & _ & Hf).
  exists t. split; [exact Ht|exact (Hf Connecting)].
Defined.

(** ** The closures of callbacks and timers *)

Lemma callbackClosure_elem s a cl :
  callbackClosure s a = Some cl -> exists s', (s', cl) ∈ callbacks (browser a).
Proof.
  unfold callbackClosure. destruct (list_find _ _) as [[i [s' cl']]|] eqn:E; [|done].
  intros [= <-]. apply list_find_Some in E as (Hi & _). exists s'.
  by eapply list_elem_of_lookup_2.
Qed.

Lemma timers_closures_applyT (v : TimerView) op :
  (forall t cl, t ∈ tv_timers v -> timer_action t = Reconnect cl -> passes cl) ->
  (forall cl, op = AutoReconnect cl -> passes cl) ->
  forall t cl, t ∈ tv_timers (applyT v op) -> timer_action t = Reconnect cl -> passes cl.
Proof.
  intros H Hop t cl. destruct op; simpl.
  - intros [Ht|Ht]%elem_of_app.
    + apply cancel_elem in Ht as [Ht _]. by apply H.
    + by apply list_elem_of_singleton in Ht as ->.
  - destruct (cl_hasInteracted cl0 && negb (cl_needsApiKey cl0)); simpl.
    + intros [Ht|Ht]%elem_of_app.
      * apply cancel_elem in Ht as [Ht _]. by apply H.
      * apply list_elem_of_singleton in Ht as ->. simpl. intros [= <-]. by apply Hop.
    + intros [Ht _]%cancel_elem. by apply H.
  - apply H.
  - destruct (dueTimer id (tv_timers v) (tv_now v)); [|apply H]. simpl.
    intros [_ Ht]%list_elem_of_filter. by apply H.
  - apply H.
  - intros [Ht _]%cancel_elem. apply cancel_elem in Ht as [Ht _]. by apply H.
Qed.

Lemma timers_closures_ops ops (v : TimerView) :
  (forall t cl, t ∈ tv_timers v -> timer_action t = Reconnect cl -> passes cl) ->
  Forall (fun op => forall cl, op = AutoReconnect cl -> passes cl) ops ->
  forall t cl, t ∈ tv_timers (foldl applyT v ops) -> timer_action t = Reconnect cl ->
               passes cl.
Proof.
  revert v. induction ops as [|op ops IH]; intros v H Hops; [done|].
  apply Forall_cons in Hops as [Hop Hops]. simpl. apply IH; [|done].
  by apply timers_closures_applyT.
Qed.

Lemma callbacks_closures_ops ops (r : Resources) :
  (forall s cl, (s, cl) ∈ r_callbacks r -> passes cl) ->
  Forall (fun op => forall cl, op = Connect cl -> passes cl) ops ->
  forall s cl, (s, cl) ∈ r_callbacks (foldl applyOp r ops) -> passes cl.
Proof.
  revert r. induction ops as [|op ops IH]; intros r H Hops; [done|].
  apply Forall_cons in Hops as [Hop Hops]. simpl. apply IH; [|done].
  intros s cl. destruct op; simpl; try apply H.
  intros [Hin|Hin]%elem_of_app; [by eapply H|].
  apply list_elem_of_singleton in Hin as [= -> ->]. by apply Hop.
Qed.

Lemma startTimerOps_passes cl o :
  Forall (fun op => forall cl', op = AutoReconnect cl' -> passes cl') (startTimerOps cl o).
Proof.
  unfold startTimerOps. destruct (cl_isConnecting cl || cl_isConnected cl) eqn:E;
    [constructor|].
  destruct o; repeat constructor; try done. by intros cl' [= <-].
Qed.

Lemma startResourceOps_passes cl o :
  Forall (fun op => forall cl', op = Connect cl' -> passes cl') (startResourceOps cl o).
Proof.
  unfold startResourceOps. destruct (cl_isConnecting cl || cl_isConnected cl) eqn:E;
    [constructor|].
  destruct o as [| | | |[]]; repeat constructor; try done. by intros cl' [= <-].
Qed.

Lemma closures_ok_step a e : closures_ok a -> closures_ok (step a e).
Proof.
  intros [Ht Hc]. split.
  - change (forall t cl, t ∈ tv_timers (eview (step a e)) ->
                         timer_action t = Reconnect cl -> passes cl).
    rewrite eview_step. apply timers_closures_ops; [done|].
    destruct e; cbn [timerOps]; try (by repeat constructor);
      try apply startTimerOps_passes.
    + destruct available; [apply startTimerOps_passes|by repeat constructor].
    + by destruct (callbackClosure s a); repeat constructor.
    + destruct (callbackClosure s a) as [cl|] eqn:E; [|constructor].
      apply callbackClosure_elem in E as [s' E].
      destruct (isKeyError (default "" e)); repeat constructor; try done.
      intros cl' [= <-]. by eapply Hc.
    + destruct (callbackClosure s a) as [cl|] eqn:E; [|constructor].
      apply callbackClosure_elem in E as [s' E].
      destruct (negb wasClean); repeat constructor; try done.
      intros cl' [= <-]. by eapply Hc.
    + constructor; [done|]. destruct (dueTimer _ _ _) as [t|]; [|constructor].
      destruct (timer_action t); [constructor|apply startTimerOps_passes].
  - change (forall s cl, (s, cl) ∈ r_callbacks (rview (step a e)) -> passes cl).
    unfold step. rewrite rview_render, rview_handle.
    apply callbacks_closures_ops; [done|].
    destruct e; cbn [resourceOps]; try (by repeat constructor);
      try apply startResourceOps_passes.
    + destruct available; [apply startResourceOps_passes|constructor].
    + by destruct (callbackClosure s a); repeat constructor.
    + destruct (callbackClosure s a); [|constructor].
      by destruct (negb wasClean); repeat constructor.
    + destruct (dueTimer _ _ _) as [t|]; [|constructor].
      destruct (timer_action t); [constructor|apply startResourceOps_passes].
Qed.

Lemma reachable_closures_ok a : reachable a -> closures_ok a.
Proof.
  intros [es <-].
  assert (closures_ok initial) as H.
  { split; intros ? ? Hin; by apply elem_of_nil in Hin. }
  revert H. generalize initial. induction es as [|e es IH]; intros a H; [done|].
  simpl. apply IH. by apply closures_ok_step.
Qed.

Lemma orphanedSession_applyOp s r op : orphanedSession s r -> orphanedSession s (applyOp r op).
Proof.
  intros (H1 & H2 & H3). destruct op; unfold orphanedSession; simpl.
  - repeat apply conj; try done.
    intros [Hc|Hc]%elem_of_app; [done|].
    destruct (r_session r) as [s'|]; simpl in Hc.
    + apply list_elem_of_singleton in Hc as ->. done.
    + by apply elem_of_nil in Hc.
  - done.
  - done.
  - repeat apply conj; try done; [lia|]. intros [= E]. lia.
Qed.

Lemma orphanedSession_ops s ops r :
  orphanedSession s r -> orphanedSession s (foldl applyOp r ops).
Proof.
  revert r. induction ops as [|op ops IH]; intros r H; [done|].
  simpl. by apply IH, orphanedSession_applyOp.
Qed.

(** X18: the guard of [startSession] never stops a scheduled reconnection.
    In every reachable state the closure of every pending reconnect timer
    (and of every session callback) captured a voice state that was
    neither connected nor connecting.  So when such a timer fires, the
    attempt goes ahead whatever the voice state is by then: it opens
    contexts and connects a new session like a first start, and the
    session held at that moment, if any, is overwritten in [sessionRef]
    and is never closed afterwards. *)
Theorem reconnect_timer_bypasses_guard (a : App) (t : Timer) (cl : Closure) :
  reachable a ->
  t ∈ timers (browser a) ->
  timer_action t = Reconnect cl ->
  passes cl /\
  ((timer_due t <= now (browser a))%Z ->
   (forall o, rview (step a (TimerFires (timer_id t) o)) =
              foldl applyOp (rview a) (attemptOps cl o)) /\
   sessionRef (refs (step a (TimerFires (timer_id t) Connecting))) =
     Some (nextSessionId (browser a)) /\
   (forall s es,
      sessionRef (refs a) = Some s ->
      s ∉ closedSessions (browser (run (TimerFires (timer_id t) Connecting :: es) a)))).
Proof.
  intros Hr Ht Ha. destruct (reachable_closures_ok a Hr) as [Hc _].
  pose proof (Hc t cl Ht Ha) as Hp. split; [done|]. intros Hd.
  destruct (reachable_tv_ok a Hr) as (_ & _ & Hnd & _).
  assert (dueTimer (timer_id t) (timers (browser a)) (now (browser a)) = Some t) as Hdue
    by (by apply dueTimer_found).
  assert (forall o, rview (step a (TimerFires (timer_id t) o)) =
                    foldl applyOp (rview a) (attemptOps cl o)) as Er.
  { intros o. unfold step. rewrite rview_render, rview_handle.
    cbn [resourceOps]. rewrite Hdue, Ha. unfold startResourceOps. by rewrite Hp. }
  split; [done|]. split; [exact (f_equal r_session (Er Connecting))|].
  intros s es Hs. simpl.
  destruct (reachable_resources_ok a Hr) as (_ & _ & _ & _ & H5 & _).
  destruct (H5 s Hs) as [Hlt Hnot]. simpl in Hlt, Hnot.
  assert (orphanedSession s (rview (step a (TimerFires (timer_id t) Connecting)))) as Ho.
  { rewrite Er. unfold orphanedSession. simpl. split; [lia|]. split; [|done].
    intros [= E]. lia. }
  destruct (rview_run es (step a (TimerFires (timer_id t) Connecting))) as [ops E].
  apply (orphanedSession_ops s ops) in Ho. rewrite <- E in Ho.
  by destruct Ho as (_ & _ & Ho).
Qed.

Lemma reconnect_timer_witness :
  reachable (run reconnectDue initial) /\
  mkTimer 2 5000 (Reconnect (mkClosure false false true false))
    ∈ timers (browser (run reconnectDue initial)) /\
  isConnected (voiceState (state (run reconnectDue initial))) = true /\
  sessionRef (refs (run reconnectDue initial)) = Some 2%nat /\
  sessionRef (refs (step (run reconnectDue initial) (TimerFires 2 Connecting))) = Some 3%nat /\
  2%nat ∉ closedSessions (browser
    (run [TimerFires 2 Connecting; ClickStop; Unmount] (run reconnectDue initial))).
Proof.
  assert (reachable (run reconnectDue initial)) as H1 by (by eexists).
  assert (mkTimer 2 5000 (Reconnect (mkClosure false false true false))
            ∈ timers (browser (run reconnectDue initial))) as H2
    by (vm_compute; apply list_elem_of_further, list_elem_of_here).
  split; [exact H1|]. split; [exact H2|]. split; [reflexivity|]. split; [reflexivity|].
  destruct (reconnect_timer_bypasses_guard _ _ _ H1 H2 eq_refl) as [_ H].
  destruct H as (_ & H3 & H4); [vm_compute; discriminate|].
  split; [exact H3|]. exact (H4 2%nat [ClickStop; Unmount] eq_refl).
Defined.

(** ** Classification of session errors *)

Lemma substring_prefix n s : exists post, s = String.substring 0 n s +:+ post.
Proof.
  revert s. induction n as [|n IH]; intros s.
  - exists s. by destruct s.
  - destruct s as [|c s]; [by exists ""|].
    destruct (IH s) as [post E]. exists post. simpl.
    change (String c s = String c (String.substring 0 n s +:+ post)). by rewrite <- E.
Qed.

Lemma substring_split m n s :
  exists pre post, s = pre +:+ String.substring m n s +:+ post.
Proof.
  revert s. induction m as [|m IH]; intros s.
  - destruct (substring_prefix n s) as [post E]. by exists "", post.
  - destruct s as [|c s].
    + exists "", "". by destruct n.
    + destruct (IH s) as (pre & post & E). exists (String c pre), post. simpl.
      change (String c s = String c (pre +:+ String.substring m n s +:+ post)).
      by rewrite <- E.
Qed.

Lemma substring_app_here s post : String.substring 0 (String.length s) (s +:+ post) = s.
Proof.
  induction s as [|c s IH]; [by destruct post|].
  change (String c (String.substring 0 (String.length s) (s +:+ post)) = String c s).
  by rewrite IH.
Qed.

Lemma substring_app_skip pre s post :
  String.substring (String.length pre) (String.length s) (pre +:+ s +:+ post) = s.
Proof.
  induction pre as [|c pre IH]; [exact (substring_app_here s post)|]. exact IH.
Qed.

Lemma includes_spec needle hay :
  needle <> "" ->
  includes needle hay = true <-> exists pre post, hay = pre +:+ needle +:+ post.
Proof.
  intros Hne. unfold includes. split.
  - destruct (String.index 0 needle hay) as [m|] eqn:E; [|done]. intros _.
    apply String.index_correct1 in E.
    destruct (substring_split m (String.length needle) hay) as (pre & post & Eh).
    exists pre, post. by rewrite <- E at 1.
  - intros (pre & post & ->).
    destruct (String.index 0 needle (pre +:+ needle +:+ post)) as [m|] eqn:E; [done|].
    exfalso.
    apply (String.index_correct3 0 (String.length pre)) in E; [|done|lia].
    apply E, substring_app_skip.
Qed.

(** X19: which session errors count as a rejected key.  [onerror] takes
    the key branch exactly when the message of the event contains, at any
    position and in this spelling, "Requested entity was not found" or
    "API_KEY_INVALID"; an event without a message takes the transient
    branch. *)
Theorem key_error_iff_marker (msg : string) :
  (isKeyError msg = true <->
   (exists pre post, msg = pre +:+ "Requested entity was not found" +:+ post) \/
   (exists pre post, msg = pre +:+ "API_KEY_INVALID" +:+ post)) /\
  (forall cl a,
     onerror cl (Some msg) a =
     if isKeyError msg
     then stopSession (setNeedsApiKey true (showError KEY_ERROR a))
     else handleAutoReconnect cl (showError SYNC_ERROR a)) /\
  (forall cl a, onerror cl None a = handleAutoReconnect cl (showError SYNC_ERROR a)).
Proof.
  split; [|split; done].
  unfold isKeyError. rewrite orb_true_iff, !includes_spec by done. done.
Qed.

(** ** A reconnection that succeeds *)

Lemma callbacks_fresh_applyOp r op : callbacks_fresh r -> callbacks_fresh (applyOp r op).
Proof.
  intros H s cl. destruct op; simpl; try apply H.
  intros [Hin|Hin]%elem_of_app.
  - apply H in Hin. lia.
  - apply list_elem_of_singleton in Hin as [= -> ->]. lia.
Qed.

Lemma reachable_callbacks_fresh a : reachable a -> callbacks_fresh (rview a).
Proof.
  intros [es <-]. destruct (rview_run es initial) as [ops ->].
  assert (callbacks_fresh (rview initial)) as H
    by (intros s cl Hin; by apply elem_of_nil in Hin).
  revert H. generalize (rview initial).
  induction ops as [|op ops IH]; intros r H; [done|].
  simpl. by apply IH, callbacks_fresh_applyOp.
Qed.

Lemma callbackClosure_registered cl a :
  callbacks_fresh (rview a) ->
  forall a', callbacks (browser a') =
             callbacks (browser a) ++ [(nextSessionId (browser a), cl)] ->
  callbackClosure (nextSessionId (browser a)) a' = Some cl.
Proof.
  intros Hf a' E. unfold callbackClosure. rewrite E.
  rewrite list_find_app_r.
  - simpl. by rewrite decide_True.
  - apply list_find_None, Forall_forall. intros [s cl'] Hin Hs. simpl in Hs. subst.
    apply Hf in Hin. simpl in Hin. lia.
Qed.

Lemma state_onopen a :
  voiceState (state (onopen a)) =
    mkVoiceState true (isSpeaking (voiceState (state a))) true false /\
  errorMessage (state (onopen a)) = None /\
  refs (onopen a) = refs a /\ browser (onopen a) = browser a.
Proof. done. Qed.

(** X20: a reconnection that succeeds.  Let a session whose callbacks
    captured [hasInteracted] true and [needsApiKey] false fail with a
    transient error in a reachable state.  When 5000 ms have passed, the
    reconnect timer fires, the connection is made and the new session
    opens, the component is connected and listening again with the new
    session in [sessionRef] and no error message on display; the callbacks
    of the new session hold the closure of the failed one, so the next
    failure is retried in the same way. *)
Theorem reconnection_restores_session (a : App) (s : nat) (cl : Closure) (e : option string) :
  reachable a ->
  callbackClosure s a = Some cl ->
  retries cl ->
  isKeyError (default "" e) = false ->
  let n := nextSessionId (browser a) in
  let id := S (nextTimerId (browser a)) in
  let a' := run [SessionError s e; TimePasses 5000; TimerFires id Connecting;
                 SessionOpen n] a in
  voiceState (state a') = mkVoiceState true false true false /\
  errorMessage (state a') = None /\
  sessionRef (refs a') = Some n /\
  callbackClosure n a' = Some cl /\
  pendingReconnects a' = [].
Proof.
  intros Hr Hs [Hi Hk] He n id a'.
  set (a1 := step a (SessionError s e)).
  assert (reachable a1) as Hr1 by (by apply reachable_step).
  destruct (session_failure_classified cl a Hr) as (_ & Hf & _).
  assert (a1 = render (onerror cl e a)) as Ea1 by (unfold a1, step; simpl; by rewrite Hs).
  destruct (Hf e He) as (_ & _ & Hp). cbv zeta in Hp.
  assert (pendingReconnects a1 =
          [mkTimer id (now (browser a) + RECONNECT_DELAY) (Reconnect cl)]) as Hp1.
  { rewrite Ea1, pendingReconnects_render, Hp. unfold oneReconnect. by rewrite Hi, Hk. }
  assert (mkTimer id (now (browser a) + RECONNECT_DELAY) (Reconnect cl)
            ∈ timers (browser a1)) as Ht1.
  { assert (mkTimer id (now (browser a) + RECONNECT_DELAY) (Reconnect cl)
              ∈ pendingReconnects a1) as Hin by (rewrite Hp1; apply list_elem_of_here).
    by apply list_elem_of_filter in Hin as [_ Hin]. }
  assert (rview a1 = applyOp (rview a) Release) as Er1.
  { unfold a1, step. rewrite rview_render, rview_handle. cbn [resourceOps]. by rewrite Hs. }
  assert (now (browser a1) = now (browser a)) as En1.
  { change (tv_now (eview a1) = tv_now (eview a)). unfold a1. rewrite eview_step.
    cbn [timerOps]. rewrite Hs, He. cbn [foldl]. unfold applyT.
    by destruct (cl_hasInteracted cl && negb (cl_needsApiKey cl)). }
  set (a2 := step a1 (TimePasses 5000)).
  assert (reachable a2) as Hr2 by (by apply reachable_step).
  assert (eview a2 = applyT (eview a1) (Advance 5000)) as Ee2
    by (unfold a2; by rewrite eview_step).
  assert (rview a2 = rview a1) as Er2
    by (unfold a2, step; by rewrite rview_render, rview_handle).
  assert (dueTimer id (timers (browser a2)) (now (browser a2)) =
          Some (mkTimer id (now (browser a) + RECONNECT_DELAY) (Reconnect cl))) as Hdue.
  { change (dueTimer id (tv_timers (eview a2)) (tv_now (eview a2)) =
            Some (mkTimer id (now (browser a) + RECONNECT_DELAY) (Reconnect cl))).
    rewrite Ee2. cbn [applyT tv_timers tv_now].
    destruct (reachable_tv_ok a1 Hr1) as (_ & _ & Hnd & _).
    apply (dueTimer_found _ _ (mkTimer id (now (browser a) + RECONNECT_DELAY) (Reconnect cl)));
      [done|done|]. cbn. rewrite En1. unfold RECONNECT_DELAY. lia. }
  destruct (reachable_closures_ok a Hr) as [_ Hc].
  destruct (callbackClosure_elem _ _ _ Hs) as [s' Hin].
  pose proof (Hc _ _ Hin) as Hpass.
  set (a3 := step a2 (TimerFires id Connecting)).
  assert (rview a3 = foldl applyOp (rview a) [Release; OpenContexts; Connect cl]) as Er3.
  { unfold a3, step. rewrite rview_render, rview_handle. cbn [resourceOps].
    rewrite Hdue. cbn [timer_action].
    by rewrite (startResourceOps_passes_eq _ _ Hpass), Er2, Er1. }
  assert (callbackClosure n a3 = Some cl) as Hcb3.
  { apply (callbackClosure_registered cl a); [by apply reachable_callbacks_fresh|].
    exact (f_equal r_callbacks Er3). }
  assert (pendingReconnects a3 = []) as Hp3.
  { change (filter (fun t => isReconnect t = true) (tv_timers (eview a3)) = []).
    unfold a3. rewrite eview_step. cbn [timerOps]. rewrite Hdue. cbn [timer_action].
    unfold startTimerOps. rewrite Hpass. cbn [foldl applyT].
    change (tv_timers (eview a2)) with (timers (browser a2)).
    change (tv_now (eview a2)) with (now (browser a2)). rewrite Hdue.
    cbn [tv_timers]. apply filter_none. intros t [Hne Ht]%list_elem_of_filter Hk'.
    assert (t ∈ pendingReconnects a1) as Hin1.
    { apply list_elem_of_filter. split; [done|].
      change (t ∈ tv_timers (eview a1)).
      change (t ∈ tv_timers (eview a2)) in Ht. by rewrite Ee2 in Ht. }
    rewrite Hp1 in Hin1. apply list_elem_of_singleton in Hin1 as ->. by apply Hne. }
  assert (voiceState (state a3) =
          mkVoiceState false false false true) as Hv3.
  { unfold a3, step. rewrite state_render. simpl. rewrite fire_dueTimer, Hdue. cbv zeta.
    cbn [timer_action]. rewrite (startSession_passes _ _ _ Hpass). cbv zeta. fields.
    cbn. 
    assert (voiceState (state a2) = allFalse) as ->; [|done].
    unfold a2, step. rewrite state_render. simpl. rewrite Ea1, state_render.
    destruct (Hf e He) as (_ & (_ & Hv & _) & _). exact Hv. }
  unfold a'. clear a'.
  change (run [SessionError s e; TimePasses 5000; TimerFires id Connecting; SessionOpen n] a)
    with (step a3 (SessionOpen n)).
  clearbody a3. clear Ea1 Hr1 Ht1 Er1 En1 Hr2 Ee2 Er2 Hdue Hp1. clearbody a2. clearbody a1.
  assert (step a3 (SessionOpen n) = render (onopen a3)) as E4
    by (unfold step; cbn [handle]; by rewrite Hcb3).
  rewrite E4. clear E4.
  destruct (state_onopen a3) as (Ev & Em & Erf & Eb).
  rewrite state_render, refs_render, pendingReconnects_render.
  repeat apply conj.
  - by rewrite Ev, Hv3.
  - exact Em.
  - rewrite Erf. exact (f_equal r_session Er3).
  - rewrite <- Hcb3. apply callbackClosure_browser. by rewrite browser_render, Eb.
  - rewrite <- Hp3. unfold pendingReconnects. by rewrite Eb.
Qed.

Lemma reconnection_witness :
  reachable (run secondSessionOpen initial) /\
  callbackClosure 1 (run secondSessionOpen initial) = Some (mkClosure false false true false) /\
  retries (mkClosure false false true false) /\
  isKeyError (default "" (Some "network")) = false /\
  nextTimerId (browser (run secondSessionOpen initial)) = 1%nat /\
  nextSessionId (browser (run secondSessionOpen initial)) = 2%nat /\
  voiceState (state
    (run [SessionError 1 (Some "network"); TimePasses 5000;
          TimerFires (S (nextTimerId (browser (run secondSessionOpen initial)))) Connecting;
          SessionOpen (nextSessionId (browser (run secondSessionOpen initial)))]
       (run secondSessionOpen initial))) =
    mkVoiceState true false true false.
Proof.
  assert (callbackClosure 1 (run secondSessionOpen initial) =
          Some (mkClosure false false true false)) as Hcb by (vm_compute; reflexivity).
  assert (isKeyError (default "" (Some "network")) = false) as Hk
    by (vm_compute; reflexivity).
  assert (retries (mkClosure false false true false)) as Hre by (split; reflexivity).
  pose proof (reconnection_restores_session _ 1%nat _ (Some "network")
                secondSessionOpen_reachable Hcb Hre Hk) as HH.
  cbv zeta in HH. destruct HH as (Hv & _).
  split; [exact secondSessionOpen_reachable|]. split; [exact Hcb|]. split; [exact Hre|].
  split; [exact Hk|]. split; [vm_compute; reflexivity|]. split; [vm_compute; reflexivity|].
  exact Hv.
Defined.
